(** * browser-use (JavaScript port): a shallow embedding of the control core

    The development follows the layout of the sources:

    - [JS]: the pieces of JavaScript semantics the code relies on
      (truthiness, [String.prototype.slice], [trim], [includes], thrown
      errors, completion records);
    - [Dom]: [dom/views.js] and [DomService._createSelectorMap];
    - [HistoryTree]: [HistoryTreeProcessor] (branch path and hashes);
    - [Controller]: [Registry.executeAction], [Controller.act],
      [Controller.multiAct], [Controller._executeWithResult];
    - [MessageManager]: the token-budgeted message history;
    - [Agent]: [Agent.step] and [Agent._handleStepError].

    Strings are sequences of code units, one [ascii] for each: the strings
    of the model are the JavaScript strings whose code units are below
    256, and [String.length] is their [length]. Numbers that the code only
    uses as integers (token counts, indices, lengths, counters) are [Z] or
    [nat]; the one quotient that the code renders is the double that
    JavaScript computes from them. *)

From Stdlib Require Import ZArith List String Ascii Bool Lia DecimalString.
From Stdlib Require Import QArith Qround Qabs.
From stdpp Require Import base gmap strings list fin_maps.

Local Open Scope Z_scope.
Set Warnings "-register-all,-clear-no-such-hyp".

(* ===================================================================== *)
(** ** JavaScript values and control flow used by the sources *)
(* ===================================================================== *)

Module JS.

(** A thrown [Error] object. Every value thrown by the sources, and by
    the engine on their behalf ([TypeError]), is an [Error] instance. *)
Record JSError : Type := mkJSError {
  name : string;
  message : string;
  stack : string
}.

(** [new Error(msg)] *)
Definition Error (msg : string) : JSError :=
  {| name := "Error"; message := msg; stack := "" |}.

(** The engine's [TypeError], raised when a property of [undefined] is
    read or when a non-function is called. *)
Definition TypeError (msg : string) : JSError :=
  {| name := "TypeError"; message := msg; stack := "" |}.

(** The engine's [ReferenceError], raised when an identifier that no
    declaration binds is evaluated. *)
Definition ReferenceError (msg : string) : JSError :=
  {| name := "ReferenceError"; message := msg; stack := "" |}.

(** How a call completes: normally with a value, or abruptly. *)
Inductive Outcome (A : Type) : Type :=
| Returned (a : A)
| Thrown (e : JSError).
Arguments Returned {A} a.
Arguments Thrown {A} e.

Definition returns {A} (o : Outcome A) : bool :=
  match o with Returned _ => true | Thrown _ => false end.

(** Computations over a mutable object graph of type [S] that may throw;
    the state reached when the exception is raised is kept, as in
    JavaScript (nothing is rolled back). *)
Definition M (S A : Type) : Type := S -> Outcome A * S.

Definition ret {S A} (a : A) : M S A := fun s => (Returned a, s).
Definition throw {S A} (e : JSError) : M S A := fun s => (Thrown e, s).
Definition bind {S A B} (c : M S A) (k : A -> M S B) : M S B :=
  fun s => match c s with
           | (Returned a, s') => k a s'
           | (Thrown e, s') => (Thrown e, s')
           end.
Definition get {S} : M S S := fun s => (Returned s, s).
Definition put {S} (s : S) : M S unit := fun _ => (Returned tt, s).
Definition modify {S} (f : S -> S) : M S unit := fun s => (Returned tt, f s).

(** [try { c } catch (error) { h error }] *)
Definition try_catch {S A} (c : M S A) (h : JSError -> M S A) : M S A :=
  fun s => match c s with
           | (Returned a, s') => (Returned a, s')
           | (Thrown e, s') => h e s'
           end.

(** Truthiness of an optional string property ([undefined] and the empty
    string are falsy) and of an optional boolean property. *)
Definition truthy_string (o : option string) : bool :=
  match o with
  | Some s => negb (String.eqb s "")
  | None => false
  end.

Definition truthy_bool (o : option bool) : bool :=
  match o with Some b => b | None => false end.

(** Decimal rendering of a number inside a template literal. *)
Definition string_of_nat (n : nat) : string :=
  NilZero.string_of_uint (Nat.to_uint n).

Definition string_of_Z (z : Z) : string :=
  NilZero.string_of_int (Z.to_int z).

Definition slen (s : string) : Z := Z.of_nat (String.length s).

(** [s.substring]-like helper: the code units in [[from, to)]. *)
Definition units (s : string) (from to : Z) : string :=
  String.substring (Z.to_nat from) (Z.to_nat (to - from)) s.

(** The double nearest to [p / q] for [0 < p] and [0 < q], ties to the
    even significand: [(m, e)] stands for [m * 2^e], [2^52 <= m < 2^53]. *)
Definition nearest_double (p q : Z) : Z * Z :=
  let l := Z.log2 p - Z.log2 q in
  let l := if (if 0 <=? l then q * 2 ^ l <=? p else q <=? p * 2 ^ (- l)) then l else l - 1 in
  let e := l - 52 in
  let num := if 0 <=? e then p else p * 2 ^ (- e) in
  let den := if 0 <=? e then q * 2 ^ e else q in
  let m := num / den in
  let r := num mod den in
  let m := if (den <? 2 * r) || ((den =? 2 * r) && Z.odd m) then m + 1 else m in
  if m =? 2 ^ 53 then (2 ^ 52, e + 1) else (m, e).

(** The number that [(m, e)] stands for. *)
Definition double_value (m e : Z) : Q := inject_Z m * Qpower 2 e.

(** Whether the real number [c] rounds to the double [m * 2^e]. *)
Definition reads_back (m e : Z) (c : Q) : bool :=
  let ulp := Qpower 2 e in
  let v := double_value m e in
  let low := (v - (if m =? 2 ^ 52 then ulp / 4 else ulp / 2))%Q in
  let high := (v + ulp / 2)%Q in
  if Z.even m then Qle_bool low c && Qle_bool c high
  else negb (Qle_bool c low) && negb (Qle_bool high c).

(** The zeros between the decimal point and the first digit of [v],
    [0 < v < 1]. *)
Fixpoint leading_zeros (fuel : nat) (v : Q) : Z :=
  match fuel with
  | O => 0
  | S fuel' => if Qle_bool 1 (v * 10) then 0 else 1 + leading_zeros fuel' (v * 10)
  end.

(** [n] with [10^(n-1) <= v < 10^n], for [0 < v]. *)
Definition decimal_exponent (v : Q) : Z :=
  if Qle_bool 1 v then slen (string_of_Z (Qfloor v)) else - leading_zeros 400 v.

(** [s * 10^(n-k)] *)
Definition digits_value (s n k : Z) : Q := inject_Z s * Qpower 10 (n - k).

Definition distance (v c : Q) : Q := Qabs (v - c).

(** The [k]-digit decimals next to [v]: [(s, n)] stands for
    [s * 10^(n-k)]. *)
Definition candidates (v : Q) (n k : Z) : list (Z * Z) :=
  let s := Qfloor (v * Qpower 10 (k - n)) in
  [(s, n); if s + 1 =? 10 ^ k then (10 ^ (k - 1), n + 1) else (s + 1, n)].

(** [Number::toString], the choice of the digits: the least [k], from
    [k] on, for which a [k]-digit decimal reads back as the double; of
    two such decimals the nearer one, and of two at the same distance the
    even one. Seventeen digits always read back. *)
Fixpoint shortest (fuel : nat) (k : Z) (m e n : Z) : Z * Z * Z :=
  match fuel with
  | O => (0, 0, 1)
  | S fuel' =>
      let v := double_value m e in
      match filter (fun c => reads_back m e (digits_value (fst c) (snd c) k))
                   (candidates v n k) with
      | [] => shortest fuel' (k + 1) m e n
      | [c] => (fst c, snd c, k)
      | c1 :: c2 :: _ =>
          let d1 := distance v (digits_value (fst c1) (snd c1) k) in
          let d2 := distance v (digits_value (fst c2) (snd c2) k) in
          if Qle_bool d2 d1 && negb (Qle_bool d1 d2) then (fst c2, snd c2, k)
          else if Qle_bool d1 d2 && negb (Qle_bool d2 d1) then (fst c1, snd c1, k)
          else if Z.even (fst c1) then (fst c1, snd c1, k) else (fst c2, snd c2, k)
      end
  end.

(** [n] zeros. *)
Definition zeros (n : Z) : string := String.concat "" (repeat "0"%string (Z.to_nat n)).

(** [Number::toString], the layout of the digits [s] with the decimal
    point after the [n]-th: plain up to [10^21], with leading zeros down
    to [10^-6], with an exponent beyond. *)
Definition render_digits (s n k : Z) : string :=
  let digits := string_of_Z s in
  if (k <=? n) && (n <=? 21) then digits +:+ zeros (n - k)
  else if (0 <? n) && (n <=? 21) then units digits 0 n +:+ "." +:+ units digits n k
  else if (-6 <? n) && (n <=? 0) then "0." +:+ zeros (- n) +:+ digits
  else
    let exponent := (if 0 <=? n - 1 then "+" else "-") +:+ string_of_Z (Z.abs (n - 1)) in
    if k =? 1 then digits +:+ "e" +:+ exponent
    else units digits 0 1 +:+ "." +:+ units digits 1 k +:+ "e" +:+ exponent.

(** [`${p / q}`] for whole numbers [p] and [q] that doubles hold exactly
    (below [2^53] in magnitude). *)
Definition string_of_quotient (p q : Z) : string :=
  if q =? 0 then (if 0 <? p then "Infinity" else if p <? 0 then "-Infinity" else "NaN")
  else if p =? 0 then "0"
  else
    let '(m, e) := nearest_double (Z.abs p) (Z.abs q) in
    let '(s, n, k) := shortest 17 1 m e (decimal_exponent (double_value m e)) in
    (if Z.sgn p * Z.sgn q <? 0 then "-" else "") +:+ render_digits s n k.

(** Relative index of [slice]: negative counts from the end, both clamped. *)
Definition rel_index (len i : Z) : Z :=
  if i <? 0 then Z.max (len + i) 0 else Z.min i len.

(** [s.slice(start, end)] *)
Definition slice (s : string) (start end_ : Z) : string :=
  let len := slen s in
  let from := rel_index len start in
  let to := rel_index len end_ in
  if from <? to then units s from to else "".

(** [s.slice(start)] *)
Definition slice_from (s : string) (start : Z) : string :=
  slice s start (slen s).

(** White space and line terminators removed by [trim], among the code
    units below 256: U+0009 to U+000D, the space and the no-break space
    U+00A0. *)
Definition is_space (c : ascii) : bool :=
  let n := nat_of_ascii c in
  (Nat.eqb n 32 || Nat.eqb n 160 || (Nat.leb 9 n && Nat.leb n 13))%bool.

Fixpoint trim_start (s : string) : string :=
  match s with
  | String c s' => if is_space c then trim_start s' else s
  | EmptyString => EmptyString
  end.

(** [trim_end] keeps a character when something non-blank follows it. *)
Fixpoint trim_end (s : string) : string :=
  match s with
  | String c s' =>
      match trim_end s' with
      | EmptyString => if is_space c then EmptyString else String c EmptyString
      | rest => String c rest
      end
  | EmptyString => EmptyString
  end.

Definition trim (s : string) : string := trim_end (trim_start s).

(** [s.includes(sub)] *)
Fixpoint includes (s sub : string) : bool :=
  (String.prefix sub s ||
   match s with
   | String _ s' => includes s' sub
   | EmptyString => false
   end)%bool.

(** [array.join(sep)] over strings *)
Definition join (sep : string) (l : list string) : string :=
  String.concat sep l.

(** The properties that a plain object ([{}]) inherits from
    [Object.prototype]: [name in object] holds for them, and
    [object[name]] reads them, when the object has no own property of
    that name. *)
Definition Object_prototype : list string :=
  ["constructor"; "__defineGetter__"; "__defineSetter__"; "hasOwnProperty";
   "__lookupGetter__"; "__lookupSetter__"; "isPrototypeOf"; "propertyIsEnumerable";
   "toString"; "valueOf"; "__proto__"; "toLocaleString"].

Definition inherited (name : string) : bool :=
  existsb (String.eqb name) Object_prototype.
Arguments inherited name : simpl never.

(** [String(Object.prototype[name])] for an inherited name: the source
    text of a built-in function, and [[object Object]] for the prototype
    itself. *)
Definition inherited_text (name : string) : string :=
  if String.eqb name "__proto__" then "[object Object]"
  else if String.eqb name "constructor" then "function Object() { [native code] }"
  else "function " +:+ name +:+ "() { [native code] }".

End JS.

Export JS.

Declare Scope js_scope.
Notation "'let*' x ':=' c1 'in' c2" := (bind c1 (fun x => c2))
  (at level 10, x pattern, c1 at level 100, c2 at level 200) : js_scope.
Notation "c1 ';;' c2" := (bind c1 (fun _ => c2))
  (at level 100, c2 at level 200, right associativity, only parsing) : js_scope.
Local Open Scope js_scope.

(* ===================================================================== *)
(** ** dom/views.js and DomService: the element tree *)
(* ===================================================================== *)

Module Dom.

(** The own fields of a [DOMElementNode] apart from [children] and
    [parent]. [attributes] lists the entries of the attribute object in
    enumeration order; [highlightIndex] is [null] ([None]) or a number. *)
Record ElementFields : Type := mkElementFields {
  tagName : string;
  xpath : string;
  attributes : list (string * string);
  isVisible : bool;
  isInteractive : bool;
  isTopElement : bool;
  highlightIndex : option nat;
  shadowRoot : bool
}.

(** A node as reached through [children]: a [DOMTextNode] (fields [text],
    [isVisible]) or a [DOMElementNode]. The [parent] back-reference is
    modelled in [HistoryTree]. *)
Inductive DOMBaseNode : Type :=
| DOMTextNode (text : string) (textIsVisible : bool)
| DOMElementNode (fields : ElementFields) (children : list DOMBaseNode).

(** [node.attributes[attr]], as the [join] of [clickableElementsToString]
    renders it: the value of the own property, else the member of
    [Object.prototype] of that name, else [undefined]. *)
Fixpoint attribute (attrs : list (string * string)) (attr : string) : option string :=
  match attrs with
  | [] => if inherited attr then Some (inherited_text attr) else None
  | (k, v) :: rest => if String.eqb k attr then Some v else attribute rest attr
  end.

(** The inner [traverse] of [getAllTextTillNextClickableElement]: [texts]
    is the array being filled, the boolean is the function's result. *)
Fixpoint traverse_text (node : DOMBaseNode) (texts : list string) : bool * list string :=
  match node with
  | DOMTextNode text _ => (false, texts ++ [text])
  | DOMElementNode fields children =>
      if (isInteractive fields && bool_decide (highlightIndex fields <> None))%bool
      then (true, texts)
      else
        (fix each (cs : list DOMBaseNode) (texts : list string) : bool * list string :=
           match cs with
           | [] => (false, texts)
           | child :: cs' =>
               let '(stop, texts') := traverse_text child texts in
               if stop then (true, texts') else each cs' texts'
           end) children texts
  end.

Definition getAllTextTillNextClickableElement (this : DOMBaseNode) : string :=
  trim (join " " (snd (traverse_text this []))).

(** [includeAttributes.map(attr => node.attributes[attr]).filter(Boolean).join(' ')] *)
Definition selected_attributes (includeAttributes : list string) (fields : ElementFields) : string :=
  join " " (List.filter (fun v => negb (String.eqb v ""))
              (omap (attribute (attributes fields)) includeAttributes)).

(** The line pushed for an element that has a highlight index. *)
Definition element_line (includeAttributes : list string) (fields : ElementFields)
    (children : list DOMBaseNode) (i : nat) : string :=
  let str := string_of_nat i +:+ "[:]<" +:+ tagName fields +:+ ">" in
  let str :=
    if (0 <? Z.of_nat (List.length includeAttributes))
    then
      let attrs := selected_attributes includeAttributes fields in
      if String.eqb attrs "" then str else str +:+ attrs +:+ " "
    else str in
  let text := getAllTextTillNextClickableElement (DOMElementNode fields children) in
  let str := if String.eqb text "" then str else str +:+ text in
  str +:+ "</" +:+ tagName fields +:+ ">".

(** What the engine raises when the inner [traverse] of
    [clickableElementsToString] reaches a [DOMTextNode]: the node has no
    [highlightIndex] property, [undefined !== null] holds, and the branch
    then reads [node.attributes[attr]] or calls the method that only
    element nodes have. *)
Definition text_node_failure (includeAttributes : list string) : JSError :=
  match includeAttributes with
  | attr :: _ =>
      TypeError ("Cannot read properties of undefined (reading '" +:+ attr +:+ "')")
  | [] => TypeError "node.getAllTextTillNextClickableElement is not a function"
  end.

(** The inner [traverse] of [clickableElementsToString]; [elements] is the
    array being filled. *)
Fixpoint traverse_clickable (includeAttributes : list string) (node : DOMBaseNode)
    (elements : list string) : Outcome (list string) :=
  match node with
  | DOMTextNode _ _ => Thrown (text_node_failure includeAttributes)
  | DOMElementNode fields children =>
      let elements :=
        match highlightIndex fields with
        | Some i => elements ++ [element_line includeAttributes fields children i]
        | None => elements
        end in
      (fix each (cs : list DOMBaseNode) (elements : list string) : Outcome (list string) :=
         match cs with
         | [] => Returned elements
         | child :: cs' =>
             match traverse_clickable includeAttributes child elements with
             | Returned elements' => each cs' elements'
             | Thrown e => Thrown e
             end
         end) children elements
  end.

Definition clickableElementsToString (includeAttributes : list string)
    (this : DOMBaseNode) : Outcome string :=
  match traverse_clickable includeAttributes this [] with
  | Returned elements => Returned (join (String "010" EmptyString) elements)
  | Thrown e => Thrown e
  end.

(** [DomService._createSelectorMap]: [processNode] with the object
    [selectorMap] threaded through. Values are the element nodes. *)
Fixpoint processNode (node : DOMBaseNode) (selectorMap : gmap nat DOMBaseNode)
    : gmap nat DOMBaseNode :=
  match node with
  | DOMTextNode _ _ => selectorMap
  | DOMElementNode fields children =>
      let selectorMap :=
        match highlightIndex fields with
        | Some i => <[i := node]> selectorMap
        | None => selectorMap
        end in
      (fix each (cs : list DOMBaseNode) (selectorMap : gmap nat DOMBaseNode) :=
         match cs with
         | [] => selectorMap
         | child :: cs' => each cs' (processNode child selectorMap)
         end) children selectorMap
  end.

Definition _createSelectorMap (elementTree : DOMBaseNode) : gmap nat DOMBaseNode :=
  processNode elementTree ∅.

(** [DOMState] as returned by [getClickableElements], given the tree that
    [_buildDomTree] produced. *)
Record DOMState : Type := mkDOMState {
  elementTree : DOMBaseNode;
  selectorMap : gmap nat DOMBaseNode
}.

Definition getClickableElements (tree : DOMBaseNode) : DOMState :=
  {| elementTree := tree; selectorMap := _createSelectorMap tree |}.

(** *** Vocabulary of the statements *)

(** The element nodes reachable from a node through [children], the node
    itself included, in document order. *)
Fixpoint element_nodes (node : DOMBaseNode) : list DOMBaseNode :=
  match node with
  | DOMTextNode _ _ => []
  | DOMElementNode _ children =>
      node :: (fix each (cs : list DOMBaseNode) : list DOMBaseNode :=
                 match cs with
                 | [] => []
                 | child :: cs' => element_nodes child ++ each cs'
                 end) children
  end.

Definition node_index (node : DOMBaseNode) : option nat :=
  match node with
  | DOMTextNode _ _ => None
  | DOMElementNode fields _ => highlightIndex fields
  end.

(** What [processNode] does for one element node. *)
Definition record_node (selectorMap : gmap nat DOMBaseNode) (node : DOMBaseNode)
    : gmap nat DOMBaseNode :=
  match node_index node with
  | Some i => <[i := node]> selectorMap
  | None => selectorMap
  end.

(** The non-null highlight indices met in the tree, with repetitions. *)
Definition highlight_indices (root : DOMBaseNode) : list nat :=
  omap node_index (element_nodes root).

(** *** Sample trees *)

Definition plain (tag : string) : ElementFields :=
  {| tagName := tag; xpath := "/" +:+ tag; attributes := [];
     isVisible := true; isInteractive := false; isTopElement := true;
     highlightIndex := None; shadowRoot := false |}.

Definition clickable (tag : string) (attrs : list (string * string)) (i : nat) : ElementFields :=
  {| tagName := tag; xpath := "/" +:+ tag; attributes := attrs;
     isVisible := true; isInteractive := true; isTopElement := true;
     highlightIndex := Some i; shadowRoot := false |}.

(** [<button id="go">Go</button>] as the root, interactive, index 0. *)
Definition button_go : DOMBaseNode :=
  DOMElementNode (clickable "button" [("id", "go")] 0%nat) [DOMTextNode "Go" true].

(** The same button without its text child. *)
Definition button_empty : DOMBaseNode :=
  DOMElementNode (clickable "button" [("id", "go")] 0%nat) [].

(** [<html><body><a>Home</a><button>Go</button></body></html>] *)
Definition sample_page : DOMBaseNode :=
  DOMElementNode (plain "html")
    [DOMElementNode (plain "body")
       [DOMElementNode (clickable "a" [("href", "/")] 0%nat) [DOMTextNode "Home" true];
        DOMElementNode (clickable "button" [] 1%nat) [DOMTextNode "Go" true]]].

End Dom.

(* ===================================================================== *)
(** ** HistoryTreeProcessor: branch paths and hashes *)
(* ===================================================================== *)

Module HistoryTree.
Import Dom.

(** An element object seen through its [parent] back-reference: its own
    fields and the parent element ([null] at the root). *)
Inductive LinkedElement : Type :=
| Linked (fields : ElementFields) (parent : option LinkedElement).

Definition fields_of (e : LinkedElement) : ElementFields :=
  match e with Linked fields _ => fields end.

Definition parent_of (e : LinkedElement) : option LinkedElement :=
  match e with Linked _ parent => parent end.

(** The element object that [DomService._parseNode] builds at the position
    [path] (child positions from the root): every element receives the
    enclosing element as [parent], the root receives [null]. *)
Fixpoint element_at (node : DOMBaseNode) (parent : option LinkedElement)
    (path : list nat) : option LinkedElement :=
  match node with
  | DOMTextNode _ _ => None
  | DOMElementNode fields children =>
      let elementNode := Linked fields parent in
      match path with
      | [] => Some elementNode
      | i :: path' =>
          match nth_error children i with
          | Some child => element_at child (Some elementNode) path'
          | None => None
          end
      end
  end.

(** The [while (currentElement.parent)] loop of [_getParentBranchPath]. *)
Fixpoint collect_parents (currentElement : LinkedElement)
    (parents : list LinkedElement) : list LinkedElement :=
  match currentElement with
  | Linked _ (Some parent) => collect_parents parent (parents ++ [currentElement])
  | Linked _ None => parents
  end.

Definition _getParentBranchPath (domElement : LinkedElement) : list string :=
  List.map (fun parent => tagName (fields_of parent))
    (rev (collect_parents domElement [])).

Record DOMHistoryElement : Type := mkDOMHistoryElement {
  he_tagName : string;
  he_xpath : string;
  he_highlightIndex : option nat;
  entireParentBranchPath : list string;
  he_attributes : list (string * string);
  he_shadowRoot : bool
}.

Definition convertDomElementToHistoryElement (domElement : LinkedElement)
    : DOMHistoryElement :=
  let parentBranchPath := _getParentBranchPath domElement in
  {| he_tagName := tagName (fields_of domElement);
     he_xpath := xpath (fields_of domElement);
     he_highlightIndex := highlightIndex (fields_of domElement);
     entireParentBranchPath := parentBranchPath;
     he_attributes := attributes (fields_of domElement);
     he_shadowRoot := shadowRoot (fields_of domElement) |}.

Record HashedDomElement : Type := mkHashedDomElement {
  branchPathHash : string;
  attributesHash : string
}.

(** The string handed to the digest by [_parentBranchPathHash]. *)
Definition parentBranchPathString (parentBranchPath : list string) : string :=
  join "/" parentBranchPath.

(** The string handed to the digest by [_attributesHash]:
    [Object.entries(attributes).map(([key, value]) => `${key}=${value}`).join('')]. *)
Definition attributesString (attributes : list (string * string)) : string :=
  join "" (List.map (fun '(key, value) => key +:+ "=" +:+ value) attributes).

Section Hashing.

(** [createHash('sha256').update(s).digest('hex')] of the platform's
    [crypto] module. *)
Variable sha256_hex : string -> string.

Definition _parentBranchPathHash (parentBranchPath : list string) : string :=
  sha256_hex (parentBranchPathString parentBranchPath).

Definition _attributesHash (attributes : list (string * string)) : string :=
  sha256_hex (attributesString attributes).

Definition _hashDomHistoryElement (domHistoryElement : DOMHistoryElement)
    : HashedDomElement :=
  {| branchPathHash := _parentBranchPathHash (entireParentBranchPath domHistoryElement);
     attributesHash := _attributesHash (he_attributes domHistoryElement) |}.

Definition _hashDomElement (domElement : LinkedElement) : HashedDomElement :=
  let parentBranchPath := _getParentBranchPath domElement in
  {| branchPathHash := _parentBranchPathHash parentBranchPath;
     attributesHash := _attributesHash (attributes (fields_of domElement)) |}.

Definition compareHistoryElementAndDomElement (domHistoryElement : DOMHistoryElement)
    (domElement : LinkedElement) : bool :=
  let hashedDomHistoryElement := _hashDomHistoryElement domHistoryElement in
  let hashedDomElement := _hashDomElement domElement in
  (String.eqb (branchPathHash hashedDomHistoryElement) (branchPathHash hashedDomElement) &&
   String.eqb (attributesHash hashedDomHistoryElement) (attributesHash hashedDomElement))%bool.

End Hashing.

(** *** Vocabulary of the statements *)

(** The chain of element objects from the root of the tree down to the
    element, both included. *)
Fixpoint root_to_element (e : LinkedElement) : list LinkedElement :=
  match e with
  | Linked _ (Some parent) => root_to_element parent ++ [e]
  | Linked _ None => [e]
  end.

(** The ordered ancestor-tag path from the root down to the element. *)
Definition full_tag_path (e : LinkedElement) : list string :=
  List.map (fun a => tagName (fields_of a)) (root_to_element e).

Fixpoint root_of (e : LinkedElement) : LinkedElement :=
  match e with
  | Linked _ (Some parent) => root_of parent
  | Linked _ None => e
  end.

(** *** Sample elements *)

Definition html_root : LinkedElement := Linked (plain "html") None.

Definition body_element : LinkedElement := Linked (plain "body") (Some html_root).

(** [<div class="btn" id="go">] under [html > body] *)
Definition div_two_attributes : LinkedElement :=
  Linked (clickable "div" [("class", "btn"); ("id", "go")] 0%nat) (Some body_element).

(** [<div class="btnid=go">] under [html > body] *)
Definition div_one_attribute : LinkedElement :=
  Linked (clickable "div" [("class", "btnid=go")] 0%nat) (Some body_element).

(** The first [div] again in a later snapshot: another index, not
    interactive any more, same ancestors and attributes. *)
Definition div_two_attributes_later : LinkedElement :=
  Linked {| tagName := "div"; xpath := "/html/body/div[2]";
            attributes := [("class", "btn"); ("id", "go")];
            isVisible := true; isInteractive := false; isTopElement := false;
            highlightIndex := Some 7%nat; shadowRoot := false |}
         (Some body_element).

(** A stand-in for the digest where a statement is instantiated. *)
Definition plain_digest (s : string) : string := s.

End HistoryTree.
(* ===================================================================== *)
(** ** controller/views.js: action results and parameter models *)
(* ===================================================================== *)

Module Views.

(** [ActionResult]: every property is optional. *)
Record ActionResult : Type := mkActionResult {
  error : option string;
  extractedContent : option string;
  includeInMemory : option bool;
  isDone : option bool
}.

(** The values that travel as action parameters. [JSNumber] carries the
    integers; [JSNonInteger] stands for any other number. *)
Inductive JSValue : Type :=
| JSUndefined
| JSNull
| JSBoolean (b : bool)
| JSNumber (z : Z)
| JSNonInteger
| JSString (s : string)
| JSObject (entries : list (string * JSValue)).

(** [value[key]] for an own property. *)
Definition prop (value : JSValue) (key : string) : JSValue :=
  match value with
  | JSObject entries =>
      (fix find (es : list (string * JSValue)) : JSValue :=
         match es with
         | [] => JSUndefined
         | (k, v) :: rest => if String.eqb k key then v else find rest
         end) entries
  | _ => JSUndefined
  end.

(** A parameter model class: [new paramModel(params)] yields the instance,
    [validate] is its method. *)
Record ParamModel : Type := mkParamModel {
  construct : JSValue -> JSValue;
  validate : JSValue -> bool
}.

Definition is_string (v : JSValue) : bool :=
  match v with JSString _ => true | _ => false end.

Definition is_nonempty_string (v : JSValue) : bool :=
  match v with JSString s => 0 <? slen s | _ => false end.

(** [Number.isInteger(v) && v >= bound] *)
Definition is_integer_from (bound : Z) (v : JSValue) : bool :=
  match v with JSNumber z => bound <=? z | _ => false end.

Definition is_integer (v : JSValue) : bool :=
  match v with JSNumber _ => true | _ => false end.

(** A constructor parameter with a default: [undefined] takes the default. *)
Definition or_default (default v : JSValue) : JSValue :=
  match v with JSUndefined => default | _ => v end.

Section Models.

(** Whether [new URL(s)] succeeds, for the platform's URL parser. *)
Variable URL_parses : string -> bool.

Definition url_ok (v : JSValue) : bool :=
  match v with JSString s => URL_parses s | _ => false end.

Definition SearchGoogleAction : ParamModel :=
  {| construct := fun query => JSObject [("query", query)];
     validate := fun this => is_nonempty_string (prop this "query") |}.

Definition GoToUrlAction : ParamModel :=
  {| construct := fun url => JSObject [("url", url)];
     validate := fun this => url_ok (prop this "url") |}.

Definition ClickElementAction : ParamModel :=
  {| construct := fun index => JSObject [("index", index)];
     validate := fun this => is_integer_from 0 (prop this "index") |}.

(** The instance is built by [new paramModel(params)]: one argument, so
    [text] is [undefined]. *)
Definition InputTextAction : ParamModel :=
  {| construct := fun index => JSObject [("index", index); ("text", JSUndefined)];
     validate := fun this =>
       (is_integer_from 0 (prop this "index") && is_string (prop this "text"))%bool |}.

Definition SwitchTabAction : ParamModel :=
  {| construct := fun pageId => JSObject [("pageId", pageId)];
     validate := fun this => is_integer (prop this "pageId") |}.

Definition OpenTabAction : ParamModel :=
  {| construct := fun url => JSObject [("url", url)];
     validate := fun this => url_ok (prop this "url") |}.

Definition ExtractPageContentAction : ParamModel :=
  {| construct := fun value => JSObject [("value", or_default (JSString "text") value)];
     validate := fun this =>
       match prop this "value" with
       | JSString s => (String.eqb s "text" || String.eqb s "markdown")%bool
       | _ => false
       end |}.

Definition DoneAction : ParamModel :=
  {| construct := fun text => JSObject [("text", text)];
     validate := fun this => is_string (prop this "text") |}.

Definition ScrollAction : ParamModel :=
  {| construct := fun amount => JSObject [("amount", or_default JSNull amount)];
     validate := fun this =>
       match prop this "amount" with
       | JSNull => true
       | v => is_integer_from 1 v
       end |}.

Definition SendKeysAction : ParamModel :=
  {| construct := fun keys => JSObject [("keys", keys)];
     validate := fun this => is_nonempty_string (prop this "keys") |}.

End Models.

End Views.

(* ===================================================================== *)
(** ** controller: Registry and Controller *)
(* ===================================================================== *)

Module Controller.
Import Views.

(** One entry of the list handed to [multiAct]: the object
    [{ actionName: params }] that the planner emits. *)
Record Action : Type := mkAction {
  actionName : string;
  params : JSValue
}.

Section Dispatch.

(** The browser context object passed to the actions. *)
Variable Browser : Type.

(** Everything the action implementations act on (pages, tabs, console). *)
Variable World : Type.

Record RegisteredAction : Type := mkRegisteredAction {
  name : string;
  description : string;
  function : JSValue -> option Browser -> M World ActionResult;
  paramModel : ParamModel;
  requiresBrowser : bool
}.

(** [Registry.action(description, paramModel, requiresBrowser)(func)]:
    the entry is stored under [func.name], which is not [__proto__] for
    any function of the sources (an assignment to that name would set the
    prototype of the object). Every registration in the sources passes a
    parameter model. *)
Definition action (description : string) (paramModel : ParamModel)
    (requiresBrowser : bool) (func_name : string)
    (func : JSValue -> option Browser -> M World ActionResult)
    (actions : gmap string RegisteredAction) : gmap string RegisteredAction :=
  <[func_name := {| name := func_name; description := description; function := func;
                    paramModel := paramModel; requiresBrowser := requiresBrowser |}]> actions.

(** [Registry.executeAction]. [actions] holds the own properties of
    [this.registry.actions], a plain object: for a name that is no own
    property but a member of [Object.prototype], the [in] test holds too,
    and [action] is that member, which has no [paramModel]. *)
Definition executeAction (actions : gmap string RegisteredAction)
    (actionName : string) (params : JSValue) (browser : option Browser)
    : M World ActionResult :=
  let rethrow (error : JSError) : M World ActionResult :=
    throw (Error ("Error executing action " +:+ actionName +:+ ": " +:+ message error)) in
  match actions !! actionName with
  | None =>
      if inherited actionName
      then try_catch (throw (TypeError "action.paramModel is not a constructor")) rethrow
      else throw (Error ("Action " +:+ actionName +:+ " not found"))
  | Some action =>
      try_catch
        (let validatedParams := construct (paramModel action) params in
         if negb (validate (paramModel action) validatedParams)
         then throw (Error ("Invalid parameters for action " +:+ actionName))
         else if requiresBrowser action
         then match browser with
              | None => throw (Error ("Action " +:+ actionName +:+
                                      " requires browser but none provided"))
              | Some _ => function action validatedParams browser
              end
         else function action validatedParams None)
        rethrow
  end.

(** [Controller._executeWithResult] *)
Definition _executeWithResult (action : M World ActionResult) : M World ActionResult :=
  try_catch action
    (fun error =>
       ret {| error := Some (message error); extractedContent := None;
              includeInMemory := None; isDone := None |}).

(** The controller as it runs: the world of the implementations, and a
    record of the actions handed to [act], in call order. The record is
    only written by [act]; nothing reads it. *)
Record Machine : Type := mkMachine {
  world : World;
  invoked : list Action
}.

Definition in_world {A} (c : M World A) : M Machine A :=
  fun m => let '(o, w) := c (world m) in
           (o, {| world := w; invoked := invoked m |}).

Definition record_call (a : Action) : M Machine unit :=
  modify (fun m => {| world := world m; invoked := invoked m ++ [a] |}).

Variable registry : gmap string RegisteredAction.

(** [Controller.act] *)
Definition act (action : Action) (browser : option Browser) : M Machine ActionResult :=
  record_call action ;;
  in_world (executeAction registry (actionName action) (params action) browser).

(** The [for ... of] loop of [multiAct]; [results] is the array built so far. *)
Fixpoint multiAct_loop (actions : list Action) (browser : option Browser)
    (results : list ActionResult) : M Machine (list ActionResult) :=
  match actions with
  | [] => ret results
  | action :: rest =>
      let* result := act action browser in
      let results := results ++ [result] in
      if (truthy_string (error result) || truthy_bool (isDone result))%bool
      then ret results
      else multiAct_loop rest browser results
  end.

(** [Controller.multiAct] *)
Definition multiAct (actions : list Action) (browser : option Browser)
    : M Machine (list ActionResult) :=
  multiAct_loop actions browser [].

(** *** Vocabulary of the statements *)

(** The test that ends the loop: [result.error || result.isDone]. *)
Definition stops (result : ActionResult) : bool :=
  (truthy_string (error result) || truthy_bool (isDone result))%bool.

(** [act] applied to each action of a list in the caller's order, each one
    in the state left by the previous one, with no early exit. *)
Fixpoint act_in_order (actions : list Action) (browser : option Browser)
    : M Machine (list ActionResult) :=
  match actions with
  | [] => ret []
  | action :: rest =>
      let* result := act action browser in
      let* results := act_in_order rest browser in
      ret (result :: results)
  end.

(** An action that [executeAction] hands to an implementation running
    under [_executeWithResult]: its name is registered, its parameters pass
    the model, and a browser is there when the entry requires one. *)
Definition dispatchable (browser : option Browser) (a : Action) : Prop :=
  exists entry body,
    registry !! actionName a = Some entry /\
    validate (paramModel entry) (construct (paramModel entry) (params a)) = true /\
    (requiresBrowser entry = true -> browser <> None) /\
    (forall p b, function entry p b = _executeWithResult (body p b)).

(** The index (from 1) of the first result that ends the loop. *)
Fixpoint first_stop (results : list ActionResult) : option nat :=
  match results with
  | [] => None
  | r :: rest => if stops r then Some 1%nat else option_map S (first_stop rest)
  end.

End Dispatch.

Arguments name {Browser World} r.
Arguments description {Browser World} r.
Arguments function {Browser World} r.
Arguments paramModel {Browser World} r.
Arguments requiresBrowser {Browser World} r.
Arguments mkMachine {World} world invoked.
Arguments world {World} m.
Arguments invoked {World} m.

Section Defaults.

Variable Browser : Type.
Variable World : Type.
Variable URL_parses : string -> bool.

(** The bodies handed to [_executeWithResult] by the default actions. *)
Inductive DefaultBody : Type :=
| SearchGoogle | GoToUrl | ClickElement | InputText | SwitchTab | OpenTab
| ExtractPageContent | ScrollDown | ScrollUp | SendKeys.

(** What a body does with the page, the session and the console. *)
Variable body : DefaultBody -> JSValue -> Browser -> M World ActionResult.

(** [(params, browser) => this._executeWithResult(async () => { ... })];
    the registry only calls it with a browser. *)
Definition wrapped (b : DefaultBody) (params : JSValue) (browser : option Browser)
    : M World ActionResult :=
  match browser with
  | Some br => _executeWithResult World (body b params br)
  | None => _executeWithResult World
              (throw (TypeError "Cannot read properties of undefined"))
  end.

(** [params => ({ isDone: true, extractedContent: params.text })] *)
Definition done (params : JSValue) (browser : option Browser) : M World ActionResult :=
  ret {| error := None;
         extractedContent :=
           match prop params "text" with JSString s => Some s | _ => None end;
         includeInMemory := None;
         isDone := Some true |}.

(** [Controller._registerDefaultActions]. Every function is an arrow
    function written in argument position, so its [name] is the empty
    string. *)
Definition _registerDefaultActions (actions : gmap string (RegisteredAction Browser World))
    : gmap string (RegisteredAction Browser World) :=
  let actions := action Browser World "Search Google in the current tab"
                   SearchGoogleAction true "" (wrapped SearchGoogle) actions in
  let actions := action Browser World "Navigate to URL in the current tab"
                   (GoToUrlAction URL_parses) true "" (wrapped GoToUrl) actions in
  let actions := action Browser World "Click element"
                   ClickElementAction true "" (wrapped ClickElement) actions in
  let actions := action Browser World "Input text into a input interactive element"
                   InputTextAction true "" (wrapped InputText) actions in
  let actions := action Browser World "Switch tab"
                   SwitchTabAction true "" (wrapped SwitchTab) actions in
  let actions := action Browser World "Open url in new tab"
                   (OpenTabAction URL_parses) true "" (wrapped OpenTab) actions in
  let actions := action Browser World "Extract page content to get the text or markdown"
                   ExtractPageContentAction true "" (wrapped ExtractPageContent) actions in
  let actions := action Browser World "Complete task"
                   DoneAction false "" done actions in
  let actions := action Browser World
                   "Scroll down the page by pixel amount - if no amount is specified, scroll down one page"
                   ScrollAction true "" (wrapped ScrollDown) actions in
  let actions := action Browser World
                   "Scroll up the page by pixel amount - if no amount is specified, scroll up one page"
                   ScrollAction true "" (wrapped ScrollUp) actions in
  let actions := action Browser World
                   "Send strings of special keys like Backspace, Insert, PageDown, Delete, Enter, Shortcuts such as `Control+o`, `Control+Shift+T` are supported as well."
                   SendKeysAction true "" (wrapped SendKeys) actions in
  actions.

(** The registry of [new Controller()]. *)
Definition default_registry : gmap string (RegisteredAction Browser World) :=
  _registerDefaultActions ∅.

End Defaults.

End Controller.

(* ===================================================================== *)
(** ** agent/prompts.js and agent/message_manager/service.js *)
(* ===================================================================== *)

Module MessageManager.
Import Views Dom.

Inductive Role : Type := system | user | assistant.

(** One item of an array-valued [content]: [{type: 'text', text}] or
    [{type: 'image_url', image_url: {url}}]. *)
Inductive ContentPart : Type :=
| TextPart (text : string)
| ImagePart (url : string).

Inductive Content : Type :=
| Text (s : string)
| Parts (items : list ContentPart).

Record Message : Type := mkMessage {
  role : Role;
  content : Content
}.

Record MessageMetadata : Type := mkMessageMetadata {
  inputTokens : Z
}.

(** One element of [history.messages]: [{ message, metadata }]. *)
Record ManagedMessage : Type := mkManagedMessage {
  message : Message;
  metadata : MessageMetadata
}.

Record MessageHistory : Type := mkMessageHistory {
  messages : list ManagedMessage;
  totalTokens : Z
}.

(** The language-model client as far as token counting uses it: which
    class it is an instance of, and what its counting method does. *)
Inductive LLM : Type :=
| OpenAI (tokenCount : string -> Outcome Z)
| Anthropic (countTokens : string -> Outcome Z)
| OtherClient.

Record MessageManager : Type := mkMessageManager {
  llm : LLM;
  maxInputTokens : Z;
  history : MessageHistory;
  task : string;
  actionDescriptions : string;
  ESTIMATED_TOKENS_PER_CHARACTER : Z;
  IMG_TOKENS : Z;
  includeAttributes : list string;
  maxErrorLength : Z;
  systemPrompt : Message
}.

Definition set_history (h : MessageHistory) (this : MessageManager) : MessageManager :=
  {| llm := llm this; maxInputTokens := maxInputTokens this; history := h;
     task := task this; actionDescriptions := actionDescriptions this;
     ESTIMATED_TOKENS_PER_CHARACTER := ESTIMATED_TOKENS_PER_CHARACTER this;
     IMG_TOKENS := IMG_TOKENS this; includeAttributes := includeAttributes this;
     maxErrorLength := maxErrorLength this; systemPrompt := systemPrompt this |}.

Definition set_maxInputTokens (n : Z) (this : MessageManager) : MessageManager :=
  {| llm := llm this; maxInputTokens := n; history := history this;
     task := task this; actionDescriptions := actionDescriptions this;
     ESTIMATED_TOKENS_PER_CHARACTER := ESTIMATED_TOKENS_PER_CHARACTER this;
     IMG_TOKENS := IMG_TOKENS this; includeAttributes := includeAttributes this;
     maxErrorLength := maxErrorLength this; systemPrompt := systemPrompt this |}.

(** [_countTextTokens]: the client's counter when it has one and it does
    not throw, else [Math.floor(text.length / ESTIMATED_TOKENS_PER_CHARACTER)]
    (the ratio is a positive integer). *)
Definition _countTextTokens (this : MessageManager) (text : string) : Z :=
  let fallback := slen text / ESTIMATED_TOKENS_PER_CHARACTER this in
  match llm this with
  | OpenAI tokenCount =>
      match tokenCount text with Returned n => n | Thrown _ => fallback end
  | Anthropic countTokens =>
      match countTokens text with Returned n => n | Thrown _ => fallback end
  | OtherClient => fallback
  end.

(** [_countTokens] *)
Definition _countTokens (this : MessageManager) (message : Message) : Z :=
  match content message with
  | Parts items =>
      fold_left (fun tokens item =>
                   match item with
                   | ImagePart _ => tokens + IMG_TOKENS this
                   | TextPart text => tokens + _countTextTokens this text
                   end) items 0
  | Text s => 0 + _countTextTokens this s
  end.

(** [_addMessageWithTokens] *)
Definition _addMessageWithTokens (message : Message) : M MessageManager unit :=
  fun this =>
    let tokenCount := _countTokens this message in
    let metadata := {| inputTokens := tokenCount |} in
    (Returned tt,
     set_history
       {| messages := messages (history this) ++ [{| message := message; metadata := metadata |}];
          totalTokens := totalTokens (history this) + tokenCount |} this).

(** [array[index]]: [undefined] outside [0 .. length - 1], negative
    indices included. *)
Definition element {A} (l : list A) (index : Z) : option A :=
  if index <? 0 then None else nth_error l (Z.to_nat index).

(** [array.splice(index, 1)] for an index inside the array. *)
Definition splice1 {A} (l : list A) (index : Z) : list A :=
  firstn (Z.to_nat index) l ++ skipn (S (Z.to_nat index)) l.

(** [_removeMessage(index = -1)]: reading [msg.metadata] of an
    [undefined] [msg] raises before anything is written. *)
Definition _removeMessage (index : Z) : M MessageManager unit :=
  fun this =>
    match element (messages (history this)) index with
    | None =>
        (Thrown (TypeError "Cannot read properties of undefined (reading 'metadata')"), this)
    | Some msg =>
        (Returned tt,
         set_history
           {| messages := splice1 (messages (history this)) index;
              totalTokens := totalTokens (history this) - inputTokens (metadata msg) |} this)
    end.

(** The argument that [_removeMessage()] receives when called without one. *)
Definition default_index : Z := -1.

(** [_removeLastStateMessage] *)
Definition _removeLastStateMessage : M MessageManager unit :=
  fun this =>
    let msgs := messages (history this) in
    match last msgs with
    | Some lastRecord =>
        if ((2 <? Z.of_nat (List.length msgs)) &&
            match role (message lastRecord) with user => true | _ => false end)%bool
        then _removeMessage default_index this
        else (Returned tt, this)
    | None => (Returned tt, this)
    end.

(** [addModelOutput]; [modelOutput_json] is [JSON.stringify(modelOutput)]. *)
Definition addModelOutput (modelOutput_json : string) : M MessageManager unit :=
  let msg := {| role := assistant; content := Text modelOutput_json |} in
  _addMessageWithTokens msg.

(** [diff / tokens > 0.99], the quotient taken as a rational number; a
    zero divisor gives an infinity of the sign of [diff]. *)
Definition proportion_exceeds (diff tokens : Z) : bool :=
  if tokens =? 0 then 0 <? diff
  else if 0 <? tokens then 99 * tokens <? 100 * diff
  else 100 * diff <? 99 * tokens.

(** The error of the overflow branch, with [proportionToRemove] as the
    template literal renders it. *)
Definition overflow_error (diff tokens : Z) : JSError :=
  Error ("Max token limit reached - history is too long - reduce the system prompt or task less tasks or remove old messages. "
         +:+ "proportion_to_remove: " +:+ string_of_quotient diff tokens).

(** The [for ... of] loop over the items of the last message: each image
    item takes [IMG_TOKENS] off the record and off the total, each text
    item is appended to [text]. *)
Fixpoint drop_images (IMG : Z) (items : list ContentPart)
    (text : string) (lastTokens total : Z) : string * Z * Z :=
  match items with
  | [] => (text, lastTokens, total)
  | ImagePart _ :: rest => drop_images IMG rest text (lastTokens - IMG) (total - IMG)
  | TextPart t :: rest => drop_images IMG rest (text +:+ t) lastTokens total
  end.

(** [history.messages[history.messages.length - 1] = lastMsg] *)
Definition set_last {A} (l : list A) (x : A) : list A :=
  match l with
  | [] => [x]
  | _ => removelast l ++ [x]
  end.

(** [cutMessages] *)
Definition cutMessages : M MessageManager unit :=
  fun this =>
    let diff := totalTokens (history this) - maxInputTokens this in
    if diff <=? 0 then (Returned tt, this) else
    match last (messages (history this)) with
    | None =>
        (Thrown (TypeError "Cannot read properties of undefined (reading 'message')"), this)
    | Some lastMsg =>
        (* Remove image if present *)
        let '(lastMsg, this) :=
          match content (message lastMsg) with
          | Parts items =>
              let '(text, lastTokens, total) :=
                drop_images (IMG_TOKENS this) items ""
                  (inputTokens (metadata lastMsg)) (totalTokens (history this)) in
              let lastMsg :=
                {| message := {| role := role (message lastMsg); content := Text text |};
                   metadata := {| inputTokens := lastTokens |} |} in
              (lastMsg,
               set_history {| messages := set_last (messages (history this)) lastMsg;
                              totalTokens := total |} this)
          | Text _ => (lastMsg, this)
          end in
        if totalTokens (history this) - maxInputTokens this <=? 0
        then (Returned tt, this) else
        (* Remove text proportionally if still over limit *)
        let tokens := inputTokens (metadata lastMsg) in
        if proportion_exceeds diff tokens
        then (Thrown (overflow_error diff tokens), this) else
        let content :=
          match content (message lastMsg) with Text s => s | Parts _ => "" end in
        let charactersToRemove := (slen content * diff) / tokens in
        let newContent := slice content 0 (- charactersToRemove) in
        (* Remove old message and add trimmed version *)
        (_removeMessage default_index ;;
         _addMessageWithTokens {| role := user; content := Text newContent |}) this
    end.

(** [getMessages] *)
Definition getMessages : M MessageManager (list Message) :=
  cutMessages ;;
  let* this := get in
  ret (map message (messages (history this))).

(** *** agent/prompts.js *)

Record AgentStepInfo : Type := mkAgentStepInfo {
  stepNumber : Z;
  maxSteps : Z
}.

(** The state object of the browser context; [tabs] is
    [JSON.stringify(state.tabs, null, 2)]. *)
Record BrowserState : Type := mkBrowserState {
  url : string;
  title : string;
  tabs : string;
  elementTree : DOMBaseNode;
  selectorMap : gmap nat DOMBaseNode;
  screenshot : option string
}.

Definition nl : string := String "010" EmptyString.

(** The [forEach] of [getUserMessage] over the previous results; [i] is
    the index of the head of [rest], [n] the length of the whole array. *)
Fixpoint describe_results (maxErrorLength : Z) (rest : list ActionResult)
    (i n : Z) (stateDescription : string) : string :=
  match rest with
  | [] => stateDescription
  | result :: rest' =>
      let stateDescription :=
        if truthy_string (extractedContent result)
        then stateDescription +:+ nl +:+ "Result of action " +:+ string_of_Z (i + 1) +:+ "/"
             +:+ string_of_Z n +:+ ": " +:+ default "" (extractedContent result)
        else stateDescription in
      let stateDescription :=
        if truthy_string (error result)
        then
          let error := slice_from (default "" (error result)) (- maxErrorLength) in
          stateDescription +:+ nl +:+ "Error of action " +:+ string_of_Z (i + 1) +:+ "/"
          +:+ string_of_Z n +:+ ": ..." +:+ error
        else stateDescription in
      describe_results maxErrorLength rest' (i + 1) n stateDescription
  end.

(** [new AgentMessagePrompt(state, result, includeAttributes,
    maxErrorLength, stepInfo).getUserMessage()] *)
Definition getUserMessage (state : BrowserState) (result : option (list ActionResult))
    (includeAttributes : list string) (maxErrorLength : Z)
    (stepInfo : option AgentStepInfo) : Outcome Message :=
  let stepInfoDescription :=
    match stepInfo with
    | Some info => "Current step: " +:+ string_of_Z (stepNumber info + 1) +:+ "/"
                   +:+ string_of_Z (maxSteps info)
    | None => ""
    end in
  match clickableElementsToString includeAttributes (elementTree state) with
  | Thrown e => Thrown e
  | Returned elements =>
      let stateDescription :=
        nl +:+ stepInfoDescription +:+ nl +:+ "Current url: " +:+ url state +:+ nl
        +:+ "Available tabs:" +:+ nl +:+ tabs state +:+ nl
        +:+ "Interactive elements:" +:+ nl +:+ elements +:+ nl +:+ "    " in
      let stateDescription :=
        match result with
        | Some results =>
            describe_results maxErrorLength results 0 (Z.of_nat (List.length results))
              stateDescription
        | None => stateDescription
        end in
      if truthy_string (screenshot state)
      then Returned {| role := user;
                       content := Parts [TextPart stateDescription;
                                         ImagePart ("data:image/png;base64," +:+
                                                    default "" (screenshot state))] |}
      else Returned {| role := user; content := Text stateDescription |}
  end.

(** The first loop of [addStateMessage]: [result] is the variable that the
    loop body sets to [null]; the iteration goes on over the array. *)
Fixpoint remember_results (rest : list ActionResult)
    (result : option (list ActionResult)) : M MessageManager (option (list ActionResult)) :=
  match rest with
  | [] => ret result
  | r :: rest' =>
      if truthy_bool (includeInMemory r)
      then
        (if truthy_string (extractedContent r)
         then _addMessageWithTokens
                {| role := user; content := Text (default "" (extractedContent r)) |}
         else ret tt) ;;
        (if truthy_string (error r)
         then (let* this := get in
               _addMessageWithTokens
                 {| role := user;
                    content := Text (slice_from (default "" (error r))
                                                (- maxErrorLength this)) |})
         else ret tt) ;;
        remember_results rest' None
      else remember_results rest' result
  end.

(** The identifier [AgentMessagePrompt] as the module of [MessageManager]
    evaluates it: the module imports [OpenAI] and [Anthropic] and nothing
    else, and declares no such name; the class lives in agent/prompts.js. *)
Definition AgentMessagePrompt_identifier : Outcome unit :=
  Thrown (ReferenceError "AgentMessagePrompt is not defined").

(** [addStateMessage]: the loop over the previous results, then
    [new AgentMessagePrompt(...).getUserMessage()], whose callee is
    evaluated first. *)
Definition addStateMessage (state : BrowserState) (result : option (list ActionResult))
    (stepInfo : option AgentStepInfo) : M MessageManager unit :=
  let* result :=
    match result with
    | Some results => remember_results results result
    | None => ret result
    end in
  let* this := get in
  match AgentMessagePrompt_identifier with
  | Thrown e => throw e
  | Returned _ =>
      match getUserMessage state result (includeAttributes this) (maxErrorLength this)
              stepInfo with
      | Thrown e => throw e
      | Returned stateMessage => _addMessageWithTokens stateMessage
      end
  end.

(** The options of the constructor, with the defaults of the source. *)
Record Options : Type := mkOptions {
  opt_maxInputTokens : Z;
  opt_estimatedTokensPerCharacter : Z;
  opt_imageTokens : Z;
  opt_includeAttributes : list string;
  opt_maxErrorLength : Z
}.

Definition default_options : Options :=
  {| opt_maxInputTokens := 128000; opt_estimatedTokensPerCharacter := 3;
     opt_imageTokens := 800; opt_includeAttributes := []; opt_maxErrorLength := 400 |}.

(** [new MessageManager(llm, task, actionDescriptions, systemPromptClass,
    options)]; [systemMessage] is what
    [new systemPromptClass(...).getSystemMessage()] returns. *)
Definition constructor (llm : LLM) (task actionDescriptions : string)
    (systemMessage : Message) (options : Options) : MessageManager :=
  let this :=
    {| llm := llm; maxInputTokens := opt_maxInputTokens options;
       history := {| messages := []; totalTokens := 0 |};
       task := task; actionDescriptions := actionDescriptions;
       ESTIMATED_TOKENS_PER_CHARACTER := opt_estimatedTokensPerCharacter options;
       IMG_TOKENS := opt_imageTokens options;
       includeAttributes := opt_includeAttributes options;
       maxErrorLength := opt_maxErrorLength options;
       systemPrompt := systemMessage |} in
  let this := snd (_addMessageWithTokens systemMessage this) in
  let taskMessage := {| role := user; content := Text ("Your task is: " +:+ task) |} in
  snd (_addMessageWithTokens taskMessage this).

(** *** Vocabulary of the statements *)



(** The operations of the manager, with their arguments. *)
Inductive Operation : Type :=
| AddStateMessage (state : BrowserState) (result : option (list ActionResult))
    (stepInfo : option AgentStepInfo)
| AddModelOutput (modelOutput_json : string)
| RemoveLastStateMessage
| RemoveMessage (index : Z)
| AddMessageWithTokens (message : Message)
| CutMessages
| GetMessages.

(** The manager after an operation, whether it returned or threw. *)
Definition after (op : Operation) (this : MessageManager) : MessageManager :=
  match op with
  | AddStateMessage state result stepInfo => snd (addStateMessage state result stepInfo this)
  | AddModelOutput json => snd (addModelOutput json this)
  | RemoveLastStateMessage => snd (_removeLastStateMessage this)
  | RemoveMessage index => snd (_removeMessage index this)
  | AddMessageWithTokens message => snd (_addMessageWithTokens message this)
  | CutMessages => snd (cutMessages this)
  | GetMessages => snd (getMessages this)
  end.

(** The guard of [_removeLastStateMessage]: more than two messages, the
    last one of role [user]. *)
Definition last_is_state_message (this : MessageManager) : bool :=
  match last (messages (history this)) with
  | Some lastRecord =>
      ((2 <? Z.of_nat (List.length (messages (history this)))) &&
       match role (message lastRecord) with user => true | _ => false end)%bool
  | None => false
  end.


(** Whether the error is the one of the overflow branch of [cutMessages]. *)
Definition is_overflow_error (e : JSError) : bool :=
  (String.eqb (JS.name e) "Error" && includes (JS.message e) "Max token limit reached")%bool.

End MessageManager.

(* ===================================================================== *)
(** ** agent/service.js: the step of the orchestrator *)
(* ===================================================================== *)

Module Agent.
Import Views Dom MessageManager.

(** The parsed planner output: [action] is the action array,
    [output_json] is [JSON.stringify] of the whole object. *)
Record AgentOutput : Type := mkAgentOutput {
  output_json : string;
  action : list Controller.Action
}.

(** The state kept in a history item. *)
Record StateHistory : Type := mkStateHistory {
  sh_url : string;
  sh_title : string;
  sh_tabs : string;
  interactedElements : list (option DOMBaseNode);
  sh_screenshot : option string
}.

Record AgentHistory : Type := mkAgentHistory {
  modelOutput : option AgentOutput;
  result : list ActionResult;
  state : StateHistory
}.

(** The fields of an [Agent] that a step reads or writes. The constructor
    asks the registry of its controller for [createActionModel],
    [createOutputModel] and [getPromptDescription]: an agent is one made
    with a controller whose registry has the three. *)
Record Agent : Type := mkAgent {
  useVision : bool;
  lastResult : option (list ActionResult);
  maxActionsPerStep : Z;
  maxInputTokens : Z;
  messageManager : MessageManager;
  history : list AgentHistory;
  nSteps : Z;
  consecutiveFailures : Z;
  maxFailures : Z;
  retryDelay : Z
}.

Definition set_messageManager (mm : MessageManager) (this : Agent) : Agent :=
  {| useVision := useVision this; lastResult := lastResult this;
     maxActionsPerStep := maxActionsPerStep this; maxInputTokens := maxInputTokens this;
     messageManager := mm; history := history this; nSteps := nSteps this;
     consecutiveFailures := consecutiveFailures this; maxFailures := maxFailures this;
     retryDelay := retryDelay this |}.

Definition set_lastResult (r : option (list ActionResult)) (this : Agent) : Agent :=
  {| useVision := useVision this; lastResult := r;
     maxActionsPerStep := maxActionsPerStep this; maxInputTokens := maxInputTokens this;
     messageManager := messageManager this; history := history this; nSteps := nSteps this;
     consecutiveFailures := consecutiveFailures this; maxFailures := maxFailures this;
     retryDelay := retryDelay this |}.

Definition set_consecutiveFailures (n : Z) (this : Agent) : Agent :=
  {| useVision := useVision this; lastResult := lastResult this;
     maxActionsPerStep := maxActionsPerStep this; maxInputTokens := maxInputTokens this;
     messageManager := messageManager this; history := history this; nSteps := nSteps this;
     consecutiveFailures := n; maxFailures := maxFailures this;
     retryDelay := retryDelay this |}.

Definition set_history (h : list AgentHistory) (this : Agent) : Agent :=
  {| useVision := useVision this; lastResult := lastResult this;
     maxActionsPerStep := maxActionsPerStep this; maxInputTokens := maxInputTokens this;
     messageManager := messageManager this; history := h; nSteps := nSteps this;
     consecutiveFailures := consecutiveFailures this; maxFailures := maxFailures this;
     retryDelay := retryDelay this |}.

(** What one step meets outside the agent: the browser context, the
    language model, the controller, [chrome.storage.local] (what
    [get('anonymousId')] finds under that key, and [set]), [uuidv4],
    [fetch] with the event name, the error and the user id of the event
    it posts, and the [debugEnabled] property of the console. *)
Record Environment : Type := mkEnvironment {
  getState : bool -> Outcome BrowserState;
  llm_response : list Message -> Outcome AgentOutput;
  _saveConversation : list Message -> AgentOutput -> Outcome unit;
  multiAct : list Controller.Action -> Outcome (list ActionResult);
  storage_get : Outcome (option string);
  uuidv4 : string;
  storage_set : string -> Outcome unit;
  fetch : string -> string -> string -> Outcome unit;
  debugEnabled : bool
}.

(** [_captureTelemetry(eventName, { agentId, error })]: a failure of
    [fetch] is caught and logged. *)
Definition _captureTelemetry (env : Environment) (eventName error : string)
    : Outcome unit :=
  match storage_get env with
  | Thrown e => Thrown e
  | Returned anonymousId =>
      let userId :=
        if truthy_string anonymousId then default "" anonymousId else uuidv4 env in
      match (if truthy_string anonymousId then Returned tt else storage_set env userId) with
      | Thrown e => Thrown e
      | Returned _ =>
          match fetch env eventName error userId with
          | Returned _ => Returned tt
          | Thrown _ => Returned tt
          end
      end
  end.

Definition external {S A} (o : Outcome A) : M S A := fun s => (o, s).

Definition in_manager {A} (c : M MessageManager A) : M Agent A :=
  fun this => let '(o, mm) := c (messageManager this) in (o, set_messageManager mm this).

(** [_formatError]: [error.message || String(error)], with the stack on
    request. *)
Definition _formatError (error : JSError) (includeTrace : bool) : string :=
  let message := if String.eqb (JS.message error) "" then JS.name error else JS.message error in
  if includeTrace then message +:+ nl +:+ stack error else message.

Definition increment_failures : M Agent unit :=
  modify (fun this => set_consecutiveFailures (consecutiveFailures this + 1) this).

(** [_handleStepError] *)
Definition _handleStepError (env : Environment) (error : JSError)
    : M Agent (list ActionResult) :=
  let includeTrace := debugEnabled env in
  let errorMsg := _formatError error includeTrace in
  (if includes (JS.message error) "validation failed"
   then
     (if includes (JS.message error) "Max token limit reached"
      then
        let* this := get in
        in_manager (modify (set_maxInputTokens (maxInputTokens this - 500))) ;;
        in_manager cutMessages
      else ret tt) ;;
     increment_failures
   else if String.eqb (JS.name error) "RateLimitError"
   then increment_failures
   else increment_failures) ;;
  ret [{| error := Some errorMsg; extractedContent := None;
          includeInMemory := Some true; isDone := None |}].

(** [getNextAction]: the reply of the model, parsed, with [action] cut to
    [maxActionsPerStep]. *)
Definition getNextAction (env : Environment) (inputMessages : list Message)
    : M Agent AgentOutput :=
  let* response := external (llm_response env inputMessages) in
  let* this := get in
  ret {| output_json := output_json response;
         action := firstn (Z.to_nat (rel_index (Z.of_nat (List.length (action response)))
                                               (maxActionsPerStep this)))
                          (action response) |}.

(** [_getInteractedElements]; the planner's indices are numbers. *)
Fixpoint _getInteractedElements (actions : list Controller.Action)
    (selectorMap : gmap nat DOMBaseNode) : list (option DOMBaseNode) :=
  match actions with
  | [] => []
  | a :: rest =>
      match prop (Controller.params a) "index" with
      | JSNumber z =>
          if 0 <? z then
            match selectorMap !! Z.to_nat z with
            | Some node => Some node :: _getInteractedElements rest selectorMap
            | None => _getInteractedElements rest selectorMap
            end
          else _getInteractedElements rest selectorMap
      | _ => _getInteractedElements rest selectorMap
      end
  end.

(** [_makeHistoryItem] *)
Definition _makeHistoryItem (modelOutput : option AgentOutput)
    (state : BrowserState) (result : list ActionResult) : M Agent unit :=
  let interactedElements :=
    match modelOutput with
    | Some output => _getInteractedElements (action output) (selectorMap state)
    | None => [None]
    end in
  let stateHistory :=
    {| sh_url := url state; sh_title := title state; sh_tabs := tabs state;
       interactedElements := interactedElements; sh_screenshot := screenshot state |} in
  let historyItem :=
    {| modelOutput := modelOutput; result := result; state := stateHistory |} in
  modify (fun this => set_history (history this ++ [historyItem]) this).

(** The [let] variables of [step]. *)
Record Locals : Type := mkLocals {
  l_state : option BrowserState;
  l_modelOutput : option AgentOutput;
  l_result : list ActionResult
}.

(** Their values at the start of [step]. *)
Definition initial_locals : Locals :=
  {| l_state := None; l_modelOutput := None; l_result := [] |}.

Definition in_agent {A} (c : M Agent A) : M (Agent * Locals) A :=
  fun s => let '(o, this) := c (fst s) in (o, (this, snd s)).

Definition set_locals (f : Locals -> Locals) : M (Agent * Locals) unit :=
  modify (fun s => (fst s, f (snd s))).

(** The [try] block of [step]. *)
Definition step_try (env : Environment) (stepInfo : option AgentStepInfo)
    : M (Agent * Locals) unit :=
  let* this := in_agent get in
  let* state := external (getState env (useVision this)) in
  set_locals (fun l => {| l_state := Some state; l_modelOutput := l_modelOutput l;
                          l_result := l_result l |}) ;;
  in_agent (in_manager (addStateMessage state (lastResult this) stepInfo)) ;;
  let* inputMessages := in_agent (in_manager getMessages) in
  let* modelOutput := in_agent (getNextAction env inputMessages) in
  set_locals (fun l => {| l_state := l_state l; l_modelOutput := Some modelOutput;
                          l_result := l_result l |}) ;;
  external (_saveConversation env inputMessages modelOutput) ;;
  in_agent (in_manager _removeLastStateMessage) ;;
  in_agent (in_manager (addModelOutput (output_json modelOutput))) ;;
  let* result := external (multiAct env (action modelOutput)) in
  set_locals (fun l => {| l_state := l_state l; l_modelOutput := l_modelOutput l;
                          l_result := result |}) ;;
  in_agent (modify (set_lastResult (Some result))) ;;
  in_agent (modify (set_consecutiveFailures 0)).

(** The [catch] block of [step]. *)
Definition step_catch (env : Environment) (error : JSError) : M (Agent * Locals) unit :=
  let* result := in_agent (_handleStepError env error) in
  set_locals (fun l => {| l_state := l_state l; l_modelOutput := l_modelOutput l;
                          l_result := result |}) ;;
  in_agent (modify (set_lastResult (Some result))).

(** The telemetry loop of the [finally] block. *)
Fixpoint report_errors (env : Environment) (results : list ActionResult) : M Agent unit :=
  match results with
  | [] => ret tt
  | r :: rest =>
      (if truthy_string (error r)
       then external (_captureTelemetry env "agent_step_error" (default "" (error r)))
       else ret tt) ;;
      report_errors env rest
  end.

(** [step]: [try { ... } catch (error) { ... } finally { ... }]. The
    [return] of the [finally] block replaces whatever completion the
    [try] and [catch] blocks left, a pending exception included; when the
    [finally] block runs to its end, that completion stands. *)
Definition step (env : Environment) (stepInfo : option AgentStepInfo) : M Agent unit :=
  fun this =>
    let '(completion, (this, locals)) :=
      try_catch (step_try env stepInfo) (step_catch env) (this, initial_locals) in
    match l_result locals with
    | [] => (Returned tt, this)
    | _ =>
        let finally :=
          report_errors env (l_result locals) ;;
          match l_state locals with
          | Some state => _makeHistoryItem (l_modelOutput locals) state (l_result locals)
          | None => ret tt
          end in
        match finally this with
        | (Returned _, this) => (completion, this)
        | (Thrown e, this) => (Thrown e, this)
        end
    end.

(** *** Vocabulary of the statements *)

(** The completion of the [try] block of a step and the state it leaves. *)
Definition try_completion (env : Environment) (stepInfo : option AgentStepInfo)
    (this : Agent) : Outcome unit :=
  fst (step_try env stepInfo (this, initial_locals)).

(** A computation of the [try] block that leaves the failure counter
    alone, however it ends. *)
Definition keeps_counter {A} (c : M (Agent * Locals) A) : Prop :=
  forall s, consecutiveFailures (fst (snd (c s))) = consecutiveFailures (fst s).

(** A computation that leaves the counter alone when it throws and at
    zero when it returns. *)
Definition resets_counter_on_return {A} (c : M (Agent * Locals) A) : Prop :=
  forall s,
    match fst (c s) with
    | Thrown _ => consecutiveFailures (fst (snd (c s))) = consecutiveFailures (fst s)
    | Returned _ => consecutiveFailures (fst (snd (c s))) = 0
    end.

(** A computation of the [try] block that leaves [lastResult] and the
    local [result] alone, however it ends. *)
Definition keeps_results {A} (c : M (Agent * Locals) A) : Prop :=
  forall s,
    lastResult (fst (snd (c s))) = lastResult (fst s)
    /\ l_result (snd (snd (c s))) = l_result (snd s).

(** A computation that leaves them alone when it throws. *)
Definition keeps_results_on_throw {A} (c : M (Agent * Locals) A) : Prop :=
  forall s,
    match fst (c s) with
    | Thrown _ =>
        lastResult (fst (snd (c s))) = lastResult (fst s)
        /\ l_result (snd (snd (c s))) = l_result (snd s)
    | Returned _ => True
    end.

(** Whether [_handleStepError] reaches its call of [cutMessages]. *)
Definition retrims (error : JSError) : bool :=
  (includes (JS.message error) "validation failed" &&
   includes (JS.message error) "Max token limit reached")%bool.

(** A list made of exactly one result, with [error] set and
    [includeInMemory] true. *)
Definition single_error_result (results : option (list ActionResult)) : Prop :=
  exists msg, results = Some [{| error := Some msg; extractedContent := None;
                                 includeInMemory := Some true; isDone := None |}].

End Agent.

(* ===================================================================== *)
(** ** Sample registries, histories and agents *)
(* ===================================================================== *)

Module Samples.
Import Views Dom MessageManager.

(** *** Controller *)

Definition result_with (content : string) : ActionResult :=
  {| error := None; extractedContent := Some content;
     includeInMemory := Some true; isDone := None |}.

(** What [done] returns. *)
Definition result_done (text : string) : ActionResult :=
  {| error := None; extractedContent := Some text;
     includeInMemory := None; isDone := Some true |}.

(** A registry filled through [Registry.action] with named functions; the
    world counts the clicks and key strokes. *)
Definition click_element (params : JSValue) (browser : option unit) : M Z ActionResult :=
  Controller._executeWithResult Z (fun clicks => (Returned (result_with "clicked"), clicks + 1)).

Definition send_keys (params : JSValue) (browser : option unit) : M Z ActionResult :=
  Controller._executeWithResult Z (fun n => (Thrown (Error "page closed"), n)).

Definition finish (params : JSValue) (browser : option unit) : M Z ActionResult :=
  Controller._executeWithResult Z (Controller.done unit Z params browser).

Definition named_registry : gmap string (Controller.RegisteredAction unit Z) :=
  Controller.action unit Z "Click element" ClickElementAction true "click_element" click_element
    (Controller.action unit Z "Send keys" SendKeysAction true "send_keys" send_keys
       (Controller.action unit Z "Complete task" DoneAction false "done" finish ∅)).

Definition click (i : Z) : Controller.Action :=
  {| Controller.actionName := "click_element"; Controller.params := JSNumber i |}.

Definition say_done (text : string) : Controller.Action :=
  {| Controller.actionName := "done"; Controller.params := JSString text |}.

Definition press (keys : string) : Controller.Action :=
  {| Controller.actionName := "send_keys"; Controller.params := JSString keys |}.

Definition fresh_machine : Controller.Machine Z :=
  Controller.mkMachine 0 [].

(** The registry of [new Controller()] over a page whose every body
    succeeds. *)
Definition calm_page (b : Controller.DefaultBody) (params : JSValue) (browser : unit)
    : M unit ActionResult :=
  ret (result_with "ok").

Definition controller_registry : gmap string (Controller.RegisteredAction unit unit) :=
  Controller.default_registry unit unit (fun _ => true) calm_page.

(** [{ click_element: { index: 0 } }], as the planner writes it. *)
Definition planner_click : Controller.Action :=
  {| Controller.actionName := "click_element";
     Controller.params := JSObject [("index", JSNumber 0)] |}.

Definition idle_machine : Controller.Machine unit :=
  Controller.mkMachine tt [].

(** *** MessageManager *)

Definition system_message : Message :=
  {| role := system;
     content := Text "You are a precise browser automation agent that interacts with websites through structured commands. Analyze the provided webpage elements and structure, plan a sequence of actions to accomplish the given task, and respond with valid JSON containing your action sequence and state assessment. Use the done action last." |}.

(** A page without text nodes: [<html><body><button id="go"></button></body></html>]. *)
Definition bare_page : DOMBaseNode :=
  DOMElementNode (plain "html")
    [DOMElementNode (plain "body") [button_empty]].

Definition bare_state (shot : option string) : BrowserState :=
  {| url := "https://example.com/"; title := "Example"; tabs := "[]";
     elementTree := bare_page; selectorMap := _createSelectorMap bare_page;
     screenshot := shot |}.

(** A client whose [countTokens] answers 1000 for every text. *)
Definition flat_client : LLM := Anthropic (fun _ => Returned 1000).

(** System and task message of 1000 tokens each against a budget of 1900. *)
Definition over_budget_manager : MessageManager :=
  constructor flat_client "buy milk" "" system_message
    {| opt_maxInputTokens := 1900; opt_estimatedTokensPerCharacter := 3;
       opt_imageTokens := 800; opt_includeAttributes := []; opt_maxErrorLength := 400 |}.

(** [_addMessageWithTokens] on what [getUserMessage] returns for a
    state. *)
Definition with_state_message (state : BrowserState) (this : MessageManager)
    : MessageManager :=
  match getUserMessage state None (includeAttributes this) (maxErrorLength this) None with
  | Returned stateMessage => snd (_addMessageWithTokens stateMessage this)
  | Thrown _ => this
  end.

(** The same two messages and a state message with a screenshot: text
    1000, image 800, against a budget of 2800. *)
Definition screenshot_manager : MessageManager :=
  with_state_message (bare_state (Some "iVBORw0KGgo="))
    (constructor flat_client "buy milk" "" system_message
       {| opt_maxInputTokens := 2800; opt_estimatedTokensPerCharacter := 3;
          opt_imageTokens := 800; opt_includeAttributes := []; opt_maxErrorLength := 400 |}).

(** A manager after construction and one [addStateMessage] that had a
    result to remember, counted by characters, well inside the default
    budget. *)
Definition stepping_manager : MessageManager :=
  snd (addStateMessage (bare_state None) (Some [result_with "clicked"]) None
         (constructor OtherClient "buy milk" "" system_message default_options)).

(** *** Agent *)

Definition new_agent (budget : Z) : Agent.Agent :=
  {| Agent.useVision := false; Agent.lastResult := None;
     Agent.maxActionsPerStep := 10; Agent.maxInputTokens := budget;
     Agent.messageManager :=
       constructor OtherClient "buy milk" "" system_message
         {| opt_maxInputTokens := budget; opt_estimatedTokensPerCharacter := 3;
            opt_imageTokens := 800; opt_includeAttributes := []; opt_maxErrorLength := 400 |};
     Agent.history := []; Agent.nSteps := 1; Agent.consecutiveFailures := 0;
     Agent.maxFailures := 5; Agent.retryDelay := 10 |}.

Definition planner_done : Agent.AgentOutput :=
  {| Agent.output_json := "{}"; Agent.action := [say_done "bought"] |}.

(** The browser context rejects [getState] with the given error;
    everything else succeeds. *)
Definition rejecting (e : JSError) : Agent.Environment :=
  {| Agent.getState := fun _ => Thrown e;
     Agent.llm_response := fun _ => Returned planner_done;
     Agent._saveConversation := fun _ _ => Returned tt;
     Agent.multiAct := fun _ => Returned [];
     Agent.storage_get := Returned (Some "4f1c0d2e");
     Agent.uuidv4 := "9b2e6a70";
     Agent.storage_set := fun _ => Returned tt;
     Agent.fetch := fun _ _ _ => Returned tt;
     Agent.debugEnabled := false |}.

(** Every collaborator succeeds. *)
Definition cooperative : Agent.Environment :=
  {| Agent.getState := fun _ => Returned (bare_state None);
     Agent.llm_response := fun _ => Returned planner_done;
     Agent._saveConversation := fun _ _ => Returned tt;
     Agent.multiAct := fun _ => Returned [result_with "bought"];
     Agent.storage_get := Returned (Some "4f1c0d2e");
     Agent.uuidv4 := "9b2e6a70";
     Agent.storage_set := fun _ => Returned tt;
     Agent.fetch := fun _ _ _ => Returned tt;
     Agent.debugEnabled := false |}.

Definition overflow_validation_error : JSError :=
  Error "validation failed: Max token limit reached".

(** The agent as the [catch] block of the rejected step finds it. *)
Definition agent_at_the_catch : Agent.Agent :=
  fst (snd (Agent.step_try (rejecting overflow_validation_error) None
              (new_agent 600, Agent.initial_locals))).

(** The rejected step as a whole. *)
Definition rejected_step : Outcome unit * Agent.Agent :=
  Agent.step (rejecting overflow_validation_error) None (new_agent 600).

End Samples.
(* ===================================================================== *)
(** ** Document order, and the search of HistoryTreeProcessor *)
(* ===================================================================== *)

Module DomOrder.
Import Dom.

(** Whether a text node is reachable from the node through [children]. *)
Fixpoint has_text_node (node : DOMBaseNode) : bool :=
  match node with
  | DOMTextNode _ _ => true
  | DOMElementNode _ children =>
      (fix any (cs : list DOMBaseNode) : bool :=
         match cs with
         | [] => false
         | child :: cs' => (has_text_node child || any cs')%bool
         end) children
  end.

(** The line of an element node that has a highlight index. *)
Definition indexed_line (includeAttributes : list string) (node : DOMBaseNode)
    : option string :=
  match node with
  | DOMElementNode fields children =>
      option_map (element_line includeAttributes fields children) (highlightIndex fields)
  | DOMTextNode _ _ => None
  end.

(** The lines of the indexed elements of a tree, in document order. *)
Definition indexed_lines (includeAttributes : list string) (root : DOMBaseNode)
    : list string :=
  omap (indexed_line includeAttributes) (element_nodes root).

(** All the nodes reachable from a node, the node first, in document order. *)
Fixpoint document_order (node : DOMBaseNode) : list DOMBaseNode :=
  match node with
  | DOMTextNode _ _ => [node]
  | DOMElementNode _ children =>
      node :: (fix each (cs : list DOMBaseNode) : list DOMBaseNode :=
                 match cs with
                 | [] => []
                 | child :: cs' => document_order child ++ each cs'
                 end) children
  end.

(** An element that is interactive and has a highlight index. *)
Definition is_clickable (node : DOMBaseNode) : bool :=
  match node with
  | DOMElementNode fields _ =>
      (isInteractive fields && bool_decide (highlightIndex fields <> None))%bool
  | DOMTextNode _ _ => false
  end.

(** The nodes of a list that come before its first clickable element. *)
Fixpoint until_clickable (nodes : list DOMBaseNode) : list DOMBaseNode :=
  match nodes with
  | [] => []
  | node :: rest => if is_clickable node then [] else node :: until_clickable rest
  end.

Definition text_of (node : DOMBaseNode) : option string :=
  match node with
  | DOMTextNode text _ => Some text
  | DOMElementNode _ _ => None
  end.

(** The tags met when descending from a node along child positions, the
    node's own tag first. *)
Fixpoint tags_along (node : DOMBaseNode) (path : list nat) : option (list string) :=
  match node with
  | DOMTextNode _ _ => None
  | DOMElementNode fields children =>
      match path with
      | [] => Some [tagName fields]
      | i :: path' =>
          match nth_error children i with
          | Some child => option_map (cons (tagName fields)) (tags_along child path')
          | None => None
          end
      end
  end.

End DomOrder.

Module HistorySearch.
Import Dom HistoryTree.

(** The identifier [DOMElementNode] as the module of
    [HistoryTreeProcessor] evaluates it: the module imports [createHash]
    and nothing else, and declares no such name. *)
Definition DOMElementNode_identifier : Outcome unit :=
  Thrown (ReferenceError "DOMElementNode is not defined").

Section Search.

Variable sha256_hex : string -> string.

(** The inner [processNode] of [findHistoryElementInTree]; [parent] is the
    element object that [node.parent] refers to. A text node has no
    [highlightIndex] property, so the test passes for it and hashing its
    missing attribute object raises. *)
Fixpoint processNode (hashedDomHistoryElement : HashedDomElement)
    (node : DOMBaseNode) (parent : option LinkedElement) : Outcome (option LinkedElement) :=
  match node with
  | DOMTextNode _ _ =>
      Thrown (TypeError "Cannot convert undefined or null to object")
  | DOMElementNode fields children =>
      let this := Linked fields parent in
      let hashedNode := _hashDomElement sha256_hex this in
      if (bool_decide (highlightIndex fields <> None) &&
          String.eqb (branchPathHash hashedNode) (branchPathHash hashedDomHistoryElement) &&
          String.eqb (attributesHash hashedNode) (attributesHash hashedDomHistoryElement))%bool
      then Returned (Some this)
      else
        (fix each (cs : list DOMBaseNode) : Outcome (option LinkedElement) :=
           match cs with
           | [] => Returned None
           | child :: cs' =>
               match DOMElementNode_identifier with
               | Thrown e => Thrown e
               | Returned _ =>
                   match child with
                   | DOMElementNode _ _ =>
                       match processNode hashedDomHistoryElement child (Some this) with
                       | Returned (Some result) => Returned (Some result)
                       | Returned None => each cs'
                       | Thrown e => Thrown e
                       end
                   | DOMTextNode _ _ => each cs'
                   end
               end
           end) children
  end.

(** [findHistoryElementInTree]; [parent] is the parent of [tree], [null]
    for the root of a snapshot. *)
Definition findHistoryElementInTree (domHistoryElement : DOMHistoryElement)
    (tree : DOMBaseNode) (parent : option LinkedElement) : Outcome (option LinkedElement) :=
  let hashedDomHistoryElement := _hashDomHistoryElement sha256_hex domHistoryElement in
  processNode hashedDomHistoryElement tree parent.

End Search.

End HistorySearch.

(* ===================================================================== *)
(** ** controller/messages.js: the background handler *)
(* ===================================================================== *)

Module Messages.
Import Views.

(** [{ type: 'ACTION', action, params }] *)
Record ActionMessage : Type := mkActionMessage {
  msg_type : string;
  msg_action : string;
  msg_params : JSValue
}.

(** [{ type: 'ACTION_RESULT', result }] or [{ type: 'ACTION_RESULT', error }] *)
Inductive ActionResponse : Type :=
| ResultResponse (result : ActionResult)
| ErrorResponse (error : string).

Section Background.

Variable Browser World : Type.
Variable registry : gmap string (Controller.RegisteredAction Browser World).

(** [BackgroundMessageHandler.handleActionMessage]; [sender_tab] is
    [sender.tab]. *)
Definition handleActionMessage (message : ActionMessage) (sender_tab : option Browser)
    : M (Controller.Machine World) ActionResponse :=
  try_catch
    (let* result :=
       Controller.act Browser World registry
         {| Controller.actionName := msg_action message;
            Controller.params := msg_params message |} sender_tab in
     ret (ResultResponse result))
    (fun error => ret (ErrorResponse (JS.message error))).

End Background.

(** The parameter model classes of controller/views.js. *)
Definition parameter_models (URL_parses : string -> bool) : list ParamModel :=
  [SearchGoogleAction; GoToUrlAction URL_parses; ClickElementAction; InputTextAction;
   SwitchTabAction; OpenTabAction URL_parses; ExtractPageContentAction; DoneAction;
   ScrollAction; SendKeysAction].

End Messages.

(* ===================================================================== *)
(** ** The message history over a run of operations *)
(* ===================================================================== *)

Module HistoryOrder.
Import Views Dom MessageManager.

(** The text items of an array-valued content, concatenated, and the
    number of its image items. *)
Fixpoint text_items (items : list ContentPart) : string :=
  match items with
  | [] => ""
  | TextPart t :: rest => t +:+ text_items rest
  | ImagePart _ :: rest => text_items rest
  end.

Fixpoint image_items (items : list ContentPart) : Z :=
  match items with
  | [] => 0
  | TextPart _ :: rest => image_items rest
  | ImagePart _ :: rest => 1 + image_items rest
  end.

(** The record that the image loop of [cutMessages] leaves in the place
    of a record. *)
Definition without_images (IMG : Z) (r : ManagedMessage) : ManagedMessage :=
  match content (message r) with
  | Parts items =>
      let '(text, lastTokens, _) :=
        drop_images IMG items "" (inputTokens (metadata r)) 0 in
      {| message := {| role := role (message r); content := Text text |};
         metadata := {| inputTokens := lastTokens |} |}
  | Text _ => r
  end.

Definition same_or_without_images (IMG : Z) (old new : ManagedMessage) : Prop :=
  new = old \/ new = without_images IMG old.

(** [after] holds every record of [before], in place and in order, each
    as it was or without its images, and possibly more records behind
    them. *)
Definition extends (IMG : Z) (before after : list ManagedMessage) : Prop :=
  exists kept tail,
    after = kept ++ tail /\ Forall2 (same_or_without_images IMG) before kept.

(** The record that [_addMessageWithTokens] makes for a message. *)
Definition record_of (this : MessageManager) (m : Message) : ManagedMessage :=
  {| message := m; metadata := {| inputTokens := _countTokens this m |} |}.

(** The messages that the first loop of [addStateMessage] adds for the
    previous results, in order. *)
Fixpoint remembered (maxErrorLength : Z) (results : list ActionResult) : list Message :=
  match results with
  | [] => []
  | r :: rest =>
      (if truthy_bool (includeInMemory r)
       then (if truthy_string (extractedContent r)
             then [{| role := user; content := Text (default "" (extractedContent r)) |}]
             else [])
            ++ (if truthy_string (error r)
                then [{| role := user;
                         content := Text (slice_from (default "" (error r))
                                                     (- maxErrorLength)) |}]
                else [])
       else [])
      ++ remembered maxErrorLength rest
  end.

(** The tokens that [_countTokens] counts for a list of messages. *)
Definition tokens_of (this : MessageManager) (ms : list Message) : Z :=
  fold_right Z.add 0 (map (_countTokens this) ms).

(** The operations other than [_removeMessage] with an index inside the
    array; the source calls [_removeMessage] without an argument only. *)
Definition keeps_records (op : Operation) : bool :=
  match op with
  | RemoveMessage index => index <? 0
  | _ => true
  end.

(** The manager after a sequence of operations. *)
Definition run (ops : list Operation) (this : MessageManager) : MessageManager :=
  fold_left (fun this op => after op this) ops this.

(** A computation that writes the history only, and extends it. *)
Definition grows {A} (c : M MessageManager A) : Prop :=
  forall this,
    exists h,
      snd (c this) = set_history h this
      /\ extends (IMG_TOKENS this) (messages (history this)) (messages h).

End HistoryOrder.

(* ===================================================================== *)
(** ** A step of the orchestrator and its collaborators *)
(* ===================================================================== *)

Module AgentRun.
Import Views Dom MessageManager Agent.

(** The environment with another controller. *)
Definition with_multiAct (controller : list Controller.Action -> Outcome (list ActionResult))
    (env : Environment) : Environment :=
  {| getState := getState env; llm_response := llm_response env;
     _saveConversation := _saveConversation env; multiAct := controller;
     storage_get := storage_get env; uuidv4 := uuidv4 env;
     storage_set := storage_set env; fetch := fetch env;
     debugEnabled := debugEnabled env |}.

(** A computation of a step that leaves the run history alone, however it
    ends. *)
Definition keeps_history {A} (c : M (Agent * Locals) A) : Prop :=
  forall s, Agent.history (fst (snd (c s))) = Agent.history (fst s).

(** A computation that, when it returns, leaves the local [result] as
    [lastResult]. *)
Definition records_on_return {A} (c : M (Agent * Locals) A) : Prop :=
  forall s,
    match fst (c s) with
    | Returned _ => lastResult (fst (snd (c s))) = Some (l_result (snd (snd (c s))))
    | Thrown _ => True
    end.

End AgentRun.

(* ===================================================================== *)
(** ** browser/context.js: the browser context over the debugger *)
(* ===================================================================== *)

Module BrowserContext.

(** A cookie object, as the debugger hands it out. *)
Definition Cookie : Type := string.

(** The second argument of [sendCommand]: none, the device metrics
    ([deviceScaleFactor: 1], [mobile: false]), or a cookie. *)
Inductive CommandParams : Type :=
| NoParams
| DeviceMetrics (width height : Z)
| CookieParams (cookie : Cookie).

(** The calls that leave the context, in the order they are made. *)
Inductive Call : Type :=
| Attach (tabId : Z)
| Detach
| SendCommand (method : string) (params : CommandParams)
| TabsCreate (url : string)
| TabsUpdate (tabId : Z)
| StorageSet (key : string) (cookies : option (list Cookie))
| StorageGet (key : string).

(** What [sendCommand] resolves to: [undefined], or an object with or
    without [cookies]. *)
Inductive Reply : Type :=
| NoReply
| ReplyObject (cookies : option (list Cookie)).

Record TabInfo : Type := mkTabInfo {
  tab_url : string;
  tab_title : string
}.

(** The fields of [config] that the methods read. *)
Record Config : Type := mkConfig {
  cookiesFile : option string;
  browserWindowSize_width : Z;
  browserWindowSize_height : Z
}.

(** [cdp] is [null] or a [CDPService]. *)
Record BrowserContext : Type := mkBrowserContext {
  config : Config;
  cdp : bool;
  currentTabId : option Z;
  tabs : gmap Z TabInfo
}.

(** [new BrowserContext(config)] *)
Definition constructor (config : Config) : BrowserContext :=
  {| config := config; cdp := false; currentTabId := None; tabs := ∅ |}.

Definition set_cdp (b : bool) (this : BrowserContext) : BrowserContext :=
  {| config := config this; cdp := b; currentTabId := currentTabId this; tabs := tabs this |}.

Section Chrome.

(** The debugger service, [chrome.tabs] and [chrome.storage.local], over
    a world of their own. [tabs_create] yields the id of the tab passed
    to the callback, if a tab is. *)
Variable World : Type.

Record Chrome : Type := mkChrome {
  cdp_attach : Z -> M World unit;
  cdp_detach : M World unit;
  cdp_sendCommand : string -> CommandParams -> M World Reply;
  tabs_create : string -> M World (option Z);
  tabs_update : Z -> M World unit;
  storage_set : string -> option (list Cookie) -> M World unit;
  storage_get : string -> M World (option (list Cookie))
}.

Variable chrome : Chrome.

(** The context as it runs: its fields, the world outside, and the calls
    made so far. *)
Record Session : Type := mkSession {
  context : BrowserContext;
  outside : World;
  calls : list Call
}.

Definition call {A} (c : Call) (oracle : M World A) : M Session A :=
  fun s =>
    let '(o, w) := oracle (outside s) in
    (o, {| context := context s; outside := w; calls := calls s ++ [c] |}).

Definition update (f : BrowserContext -> BrowserContext) : M Session unit :=
  modify (fun s => {| context := f (context s); outside := outside s; calls := calls s |}).

Definition read : M Session BrowserContext :=
  fun s => (Returned (context s), s).

(** [this.cdp.<method>(...)]: reading a property of [null] throws. *)
Definition on_cdp {A} (method : string) (k : M Session A) : M Session A :=
  let* this := read in
  if cdp this then k
  else throw (TypeError ("Cannot read properties of null (reading '" +:+ method +:+ "')")).

(** [initialize] *)
Definition initialize (tabId : Z) : M Session unit :=
  update (fun this => if cdp this then this else set_cdp true this) ;;
  call (Attach tabId) (cdp_attach chrome tabId) ;;
  update (fun this =>
            {| config := config this; cdp := cdp this; currentTabId := Some tabId;
               tabs := <[tabId := {| tab_url := ""; tab_title := "" |}]> (tabs this) |}) ;;
  (* Enable necessary domains *)
  call (SendCommand "Page.enable" NoParams) (cdp_sendCommand chrome "Page.enable" NoParams) ;;
  call (SendCommand "Network.enable" NoParams)
    (cdp_sendCommand chrome "Network.enable" NoParams) ;;
  call (SendCommand "DOM.enable" NoParams) (cdp_sendCommand chrome "DOM.enable" NoParams) ;;
  (* Set window size *)
  let* this := read in
  let metrics :=
    DeviceMetrics (browserWindowSize_width (config this))
      (browserWindowSize_height (config this)) in
  call (SendCommand "Emulation.setDeviceMetricsOverride" metrics)
    (cdp_sendCommand chrome "Emulation.setDeviceMetricsOverride" metrics) ;;
  ret tt.

(** [switchToTab] *)
Definition switchToTab (tabId : Z) : M Session unit :=
  let* this := read in
  if bool_decide (currentTabId this = Some tabId) then ret tt else
  on_cdp "detach" (call Detach (cdp_detach chrome)) ;;
  initialize tabId ;;
  call (TabsUpdate tabId) (tabs_update chrome tabId).

(** [createNewTab] *)
Definition createNewTab (url : string) : M Session Z :=
  let* tab := call (TabsCreate url) (tabs_create chrome url) in
  on_cdp "detach" (call Detach (cdp_detach chrome)) ;;
  match tab with
  | None => throw (TypeError "Cannot read properties of undefined (reading 'id')")
  | Some id => initialize id ;; ret id
  end.

(** [saveCookies] *)
Definition saveCookies : M Session unit :=
  let* this := read in
  match cookiesFile (config this) with
  | None => ret tt
  | Some file =>
      if String.eqb file "" then ret tt else
      let* reply :=
        on_cdp "sendCommand"
          (call (SendCommand "Network.getAllCookies" NoParams)
             (cdp_sendCommand chrome "Network.getAllCookies" NoParams)) in
      match reply with
      | NoReply =>
          throw (TypeError "Cannot destructure property 'cookies' of '(intermediate value)' as it is undefined.")
      | ReplyObject cookies => call (StorageSet file cookies) (storage_set chrome file cookies)
      end
  end.

(** The loop of [loadCookies] over the stored cookies. *)
Fixpoint set_cookies (cookies : list Cookie) : M Session unit :=
  match cookies with
  | [] => ret tt
  | cookie :: rest =>
      on_cdp "sendCommand"
        (call (SendCommand "Network.setCookie" (CookieParams cookie))
           (cdp_sendCommand chrome "Network.setCookie" (CookieParams cookie))) ;;
      set_cookies rest
  end.

(** [loadCookies]; [storage_get] yields [result[this.config.cookiesFile]]. *)
Definition loadCookies : M Session unit :=
  let* this := read in
  match cookiesFile (config this) with
  | None => ret tt
  | Some file =>
      if String.eqb file "" then ret tt else
      let* cookies := call (StorageGet file) (storage_get chrome file) in
      match cookies with
      | Some (cookie :: rest) => set_cookies (cookie :: rest)
      | _ => ret tt
      end
  end.

(** [close] *)
Definition close : M Session unit :=
  let* this := read in
  (if cdp this
   then saveCookies ;;
        on_cdp "detach" (call Detach (cdp_detach chrome)) ;;
        update (set_cdp false)
   else ret tt) ;;
  update (fun this =>
            {| config := config this; cdp := cdp this; currentTabId := None; tabs := ∅ |}).

(** *** Vocabulary of the statements *)

(** The methods, with their arguments. *)
Inductive Operation : Type :=
| Initialize (tabId : Z)
| SwitchToTab (tabId : Z)
| CreateNewTab (url : string)
| SaveCookies
| LoadCookies
| Close.

Definition perform (op : Operation) : M Session unit :=
  match op with
  | Initialize tabId => initialize tabId
  | SwitchToTab tabId => switchToTab tabId
  | CreateNewTab url => createNewTab url ;; ret tt
  | SaveCookies => saveCookies
  | LoadCookies => loadCookies
  | Close => close
  end.

(** The session after a sequence of method calls, whether they returned
    or threw. *)
Definition run (ops : list Operation) (s : Session) : Session :=
  fold_left (fun s op => snd (perform op s)) ops s.

(** A session around a context fresh from the constructor. *)
Definition fresh (config : Config) (w : World) : Session :=
  {| context := constructor config; outside := w; calls := [] |}.

(** The current tab is a known tab, and where there is a current tab or
    a known tab there is a debugger service. *)
Definition consistent (this : BrowserContext) : Prop :=
  (forall tabId, currentTabId this = Some tabId -> is_Some (tabs this !! tabId))
  /\ (tabs this <> ∅ -> cdp this = true).

(** The ways a method moves the context: not at all, by creating the
    debugger service, by attaching to a tab, by clearing. *)
Inductive transition : BrowserContext -> BrowserContext -> Prop :=
| serves (this : BrowserContext) : transition this (set_cdp true this)
| attaches (this : BrowserContext) (tabId : Z) :
    transition this
      {| config := config this; cdp := true; currentTabId := Some tabId;
         tabs := <[tabId := {| tab_url := ""; tab_title := "" |}]> (tabs this) |}
| clears (this : BrowserContext) :
    transition this
      {| config := config this; cdp := false; currentTabId := None; tabs := ∅ |}.

(** A computation that moves the context along such steps, however it
    ends. *)
Definition moves {A} (c : M Session A) : Prop :=
  forall s, rtc transition (context s) (context (snd (c s))).

(** The calls of a returned [initialize]. *)
Definition initialize_calls (this : BrowserContext) (tabId : Z) : list Call :=
  [Attach tabId;
   SendCommand "Page.enable" NoParams;
   SendCommand "Network.enable" NoParams;
   SendCommand "DOM.enable" NoParams;
   SendCommand "Emulation.setDeviceMetricsOverride"
     (DeviceMetrics (browserWindowSize_width (config this))
        (browserWindowSize_height (config this)))].

End Chrome.

Arguments context {World} s.
Arguments outside {World} s.
Arguments calls {World} s.

End BrowserContext.

Module BrowserSamples.
Import BrowserContext.

(** A debugger, tabs and a storage that accept everything; the world
    counts the calls. *)
Definition accepting_browser : Chrome Z :=
  {| cdp_attach := fun _ n => (Returned tt, n + 1);
     cdp_detach := fun n => (Returned tt, n + 1);
     cdp_sendCommand := fun _ _ n => (Returned NoReply, n + 1);
     tabs_create := fun _ n => (Returned (Some n), n + 1);
     tabs_update := fun _ n => (Returned tt, n + 1);
     storage_set := fun _ _ n => (Returned tt, n + 1);
     storage_get := fun _ n => (Returned None, n + 1) |}.

Definition default_config : Config :=
  {| cookiesFile := None; browserWindowSize_width := 1280;
     browserWindowSize_height := 1100 |}.

(** The session after [initialize(1)], and after [switchToTab(2)] then. *)
Definition on_the_first_tab : Session Z :=
  snd (initialize Z accepting_browser 1 (fresh Z default_config 0)).

Definition on_the_second_tab : Session Z :=
  snd (switchToTab Z accepting_browser 2 on_the_first_tab).

End BrowserSamples.

(* ===================================================================== *)
(** ** browser/context.js: waiting for network idle *)
(* ===================================================================== *)

Module NetworkIdle.

(** What happens while [waitForNetworkIdle] waits: the debugger events
    that its listener receives, and the two timers firing. *)
Inductive Event : Type :=
| RequestWillBeSent (requestId : string)
| LoadingFinished (requestId : string)
| LoadingFailed (requestId : string)
| OtherMethod (method : string)
| IdleTimeout
| MaximumTimeout.

(** The variables of the call: [pendingRequests]; whether [timeoutId]
    names a timer that has neither fired nor been cleared; whether
    [idlePromise] and [timeoutPromise] are resolved. *)
Record Waiting : Type := mkWaiting {
  pendingRequests : gset string;
  timeoutId : bool;
  idlePromise : bool;
  timeoutPromise : bool
}.

(** [resetTimeout]: the timer before, if any, is cleared and a new one
    set. *)
Definition resetTimeout (w : Waiting) : Waiting :=
  {| pendingRequests := pendingRequests w; timeoutId := true;
     idlePromise := idlePromise w; timeoutPromise := timeoutPromise w |}.

Definition requestListener (requestId : string) (w : Waiting) : Waiting :=
  resetTimeout
    {| pendingRequests := pendingRequests w ∪ {[ requestId ]}; timeoutId := timeoutId w;
       idlePromise := idlePromise w; timeoutPromise := timeoutPromise w |}.

Definition responseListener (requestId : string) (w : Waiting) : Waiting :=
  let w' :=
    {| pendingRequests := pendingRequests w ∖ {[ requestId ]}; timeoutId := timeoutId w;
       idlePromise := idlePromise w; timeoutPromise := timeoutPromise w |} in
  if bool_decide (size (pendingRequests w') = 0%nat) then resetTimeout w' else w'.

(** The callback of the timer of [resetTimeout]; it runs when that timer
    fires, which a timer that is not set, or was cleared, does not. *)
Definition idle_callback (w : Waiting) : Waiting :=
  {| pendingRequests := pendingRequests w; timeoutId := false;
     idlePromise := (idlePromise w || bool_decide (size (pendingRequests w) = 0%nat))%bool;
     timeoutPromise := timeoutPromise w |}.

Definition handle (e : Event) (w : Waiting) : Waiting :=
  match e with
  | RequestWillBeSent requestId => requestListener requestId w
  | LoadingFinished requestId | LoadingFailed requestId => responseListener requestId w
  | OtherMethod _ => w
  | IdleTimeout => if timeoutId w then idle_callback w else w
  | MaximumTimeout =>
      {| pendingRequests := pendingRequests w; timeoutId := timeoutId w;
         idlePromise := idlePromise w; timeoutPromise := true |}
  end.

(** The call once its listener is installed and [timeoutPromise] set up. *)
Definition started : Waiting :=
  {| pendingRequests := ∅; timeoutId := false; idlePromise := false;
     timeoutPromise := false |}.

Definition run (events : list Event) (w : Waiting) : Waiting :=
  fold_left (fun w e => handle e w) events w.

(** [Promise.race([idlePromise, timeoutPromise])] is settled. *)
Definition settled (w : Waiting) : bool := (idlePromise w || timeoutPromise w)%bool.

(** *** Vocabulary of the statements *)

Definition is_network_event (e : Event) : bool :=
  match e with
  | RequestWillBeSent _ | LoadingFinished _ | LoadingFailed _ => true
  | _ => false
  end.

Definition is_maximum_timeout (e : Event) : bool :=
  match e with
  | MaximumTimeout => true
  | _ => false
  end.

(** The event ends the request. *)
Definition answers (requestId : string) (e : Event) : bool :=
  match e with
  | LoadingFinished requestId' | LoadingFailed requestId' => String.eqb requestId requestId'
  | _ => false
  end.

End NetworkIdle.

(* ===================================================================== *)
(** ** utils/singleton.js *)
(* ===================================================================== *)

Module Singleton.

Section Class.

(** [new Class(...args)], over a world of its own. *)
Variables World Args Instance : Type.
Variable Class : Args -> M World Instance.

(** The closure of the returned function: [instance], the world outside,
    and the arguments the constructor has been called with. *)
Record Closure : Type := mkClosure {
  instance : option Instance;
  outside : World;
  constructed : list Args
}.

(** [singleton(Class)] *)
Definition singleton (w : World) : Closure :=
  {| instance := None; outside := w; constructed := [] |}.

(** The function that [singleton(Class)] returns. *)
Definition factory (args : Args) : M Closure Instance :=
  fun s =>
    match instance s with
    | None =>
        match Class args (outside s) with
        | (Returned i, w) =>
            (Returned i,
             {| instance := Some i; outside := w; constructed := constructed s ++ [args] |})
        | (Thrown e, w) =>
            (Thrown e,
             {| instance := None; outside := w; constructed := constructed s ++ [args] |})
        end
    | Some i => (Returned i, s)
    end.

(** One call after the other, each with its arguments. *)
Fixpoint calls (argss : list Args) (s : Closure) : list (Outcome Instance) * Closure :=
  match argss with
  | [] => ([], s)
  | args :: rest =>
      let '(o, s1) := factory args s in
      let '(os, s2) := calls rest s1 in
      (o :: os, s2)
  end.

Definition is_thrown (o : Outcome Instance) : Prop :=
  match o with
  | Thrown _ => True
  | Returned _ => False
  end.

End Class.

Arguments instance {World Args Instance} c.
Arguments outside {World Args Instance} c.
Arguments constructed {World Args Instance} c.

End Singleton.

Module StepSamples.
Import Views MessageManager.

(** The extension context is gone: [chrome.storage.local.get] rejects;
    everything else succeeds. *)
Definition offline : Agent.Environment :=
  {| Agent.getState := fun _ => Returned (Samples.bare_state None);
     Agent.llm_response := fun _ => Returned Samples.planner_done;
     Agent._saveConversation := fun _ _ => Returned tt;
     Agent.multiAct := fun _ => Returned [];
     Agent.storage_get := Thrown (Error "Extension context invalidated.");
     Agent.uuidv4 := "9b2e6a70";
     Agent.storage_set := fun _ => Returned tt;
     Agent.fetch := fun _ _ _ => Returned tt;
     Agent.debugEnabled := false |}.

(** A state message with a screenshot, as [getUserMessage] builds it. *)
Definition state_message (text screenshot : string) : Message :=
  {| role := user;
     content := Parts [TextPart text;
                       ImagePart ("data:image/png;base64," +:+ screenshot)] |}.

(** The text of the state message of [Samples.screenshot_manager]. *)
Definition screenshot_text : string :=
  match last (messages (history Samples.screenshot_manager)) with
  | Some r =>
      match content (message r) with
      | Parts (TextPart text :: _) => text
      | _ => ""
      end
  | None => ""
  end.

End StepSamples.

(* ===================================================================== *)
(** * Properties *)
(* ===================================================================== *)

(** ** The selector map *)

Section SelectorMap.
Import Dom.

(** Induction over a tree: the children of an element satisfy the
    property. *)
Lemma DOMBaseNode_tree_ind (P : DOMBaseNode -> Prop) :
  (forall text visible, P (DOMTextNode text visible)) ->
  (forall fields children, Forall P children -> P (DOMElementNode fields children)) ->
  forall node, P node.
Proof.
  intros Htext Helement.
  fix IH 1.
  intros [text visible | fields children].
  - apply Htext.
  - apply Helement.
    induction children as [| child rest IHrest].
    + constructor.
    + constructor; [apply IH | exact IHrest].
Qed.

(** [processNode] records the element nodes of the subtree in document
    order. *)
Lemma processNode_element_nodes (node : DOMBaseNode) :
  forall selectorMap,
    processNode node selectorMap = fold_left record_node (element_nodes node) selectorMap.
Proof.
  induction node as [text visible | fields children IH] using DOMBaseNode_tree_ind;
    intros selectorMap.
  - reflexivity.
  - cbn [processNode element_nodes fold_left].
    change (record_node selectorMap (DOMElementNode fields children))
      with (match highlightIndex fields with
            | Some i => <[i := DOMElementNode fields children]> selectorMap
            | None => selectorMap
            end).
    generalize (match highlightIndex fields with
                | Some i => <[i := DOMElementNode fields children]> selectorMap
                | None => selectorMap
                end) as m.
    induction IH as [| child rest Hchild _ IHrest]; intros m.
    + reflexivity.
    + rewrite fold_left_app, <- Hchild. apply IHrest.
Qed.

Lemma record_nodes_dom (nodes : list DOMBaseNode) :
  forall selectorMap : gmap nat DOMBaseNode,
    dom (fold_left record_node nodes selectorMap)
    = dom selectorMap ∪ list_to_set (omap node_index nodes).
Proof.
  induction nodes as [| node rest IH]; intros selectorMap; cbn [fold_left].
  - cbn. set_solver.
  - rewrite IH. unfold record_node. simpl (omap _ _).
    destruct (node_index node) as [i |]; cbn [list_to_set].
    + rewrite dom_insert_L. set_solver.
    + reflexivity.
Qed.

Lemma record_nodes_other (nodes : list DOMBaseNode) (i : nat) :
  forall selectorMap : gmap nat DOMBaseNode,
    i ∉ omap node_index nodes ->
    fold_left record_node nodes selectorMap !! i = selectorMap !! i.
Proof.
  induction nodes as [| node rest IH]; intros selectorMap Hfresh; cbn [fold_left].
  - reflexivity.
  - simpl (omap _ _) in Hfresh. unfold record_node at 2.
    destruct (node_index node) as [j |] eqn:Hj.
    + rewrite IH by set_solver.
      apply lookup_insert_ne. set_solver.
    + apply IH. exact Hfresh.
Qed.

Lemma record_nodes_sound (nodes : list DOMBaseNode) (i : nat) (n : DOMBaseNode) :
  forall selectorMap : gmap nat DOMBaseNode,
    fold_left record_node nodes selectorMap !! i = Some n ->
    selectorMap !! i = Some n \/ (n ∈ nodes /\ node_index n = Some i).
Proof.
  induction nodes as [| node rest IH]; intros selectorMap Hlookup; cbn [fold_left] in Hlookup.
  - left. exact Hlookup.
  - destruct (IH _ Hlookup) as [Hhere | [Hin Hindex]].
    + unfold record_node in Hhere.
      destruct (node_index node) as [j |] eqn:Hj.
      * destruct (decide (j = i)) as [-> | Hne].
        -- rewrite lookup_insert_eq in Hhere. injection Hhere as <-.
           right. split; [left | exact Hj].
        -- rewrite lookup_insert_ne in Hhere by exact Hne. left. exact Hhere.
      * left. exact Hhere.
    + right. split; [right; exact Hin | exact Hindex].
Qed.

Lemma record_nodes_complete (nodes : list DOMBaseNode) (i : nat) (n : DOMBaseNode) :
  forall selectorMap : gmap nat DOMBaseNode,
    NoDup (omap node_index nodes) ->
    n ∈ nodes -> node_index n = Some i ->
    fold_left record_node nodes selectorMap !! i = Some n.
Proof.
  induction nodes as [| node rest IH]; intros selectorMap Hunique Hin Hindex.
  - inversion Hin.
  - cbn [fold_left]. simpl (omap _ _) in Hunique.
    apply elem_of_cons in Hin as [<- | Hin].
    + rewrite Hindex in Hunique. apply NoDup_cons in Hunique as [Hfresh _].
      rewrite record_nodes_other by exact Hfresh.
      unfold record_node. rewrite Hindex. apply lookup_insert_eq.
    + apply IH; [| exact Hin | exact Hindex].
      destruct (node_index node); [apply NoDup_cons in Hunique as [_ ?] |]; assumption.
Qed.

(** C5. For every tree, the selector map of the DOM state built from it
    has as its key set exactly the set of non-null highlight indices of the
    element nodes reachable from the root; every value stored under a key
    is an element node of the tree carrying that index; and, the indices
    of one snapshot being unique, every indexed element is stored under
    its index. *)
Theorem selector_map_keys_are_highlight_indices (tree : DOMBaseNode) :
  let state := getClickableElements tree in
  dom (selectorMap state) = list_to_set (highlight_indices (elementTree state))
  /\ (forall i n, selectorMap state !! i = Some n ->
                  n ∈ element_nodes (elementTree state) /\ node_index n = Some i)
  /\ (NoDup (highlight_indices (elementTree state)) ->
      forall i n, n ∈ element_nodes (elementTree state) -> node_index n = Some i ->
                  selectorMap state !! i = Some n).
Proof.
  cbn [getClickableElements selectorMap elementTree]. unfold _createSelectorMap.
  rewrite processNode_element_nodes. split; [| split].
  - rewrite record_nodes_dom. unfold highlight_indices. set_solver.
  - intros i n Hlookup.
    destruct (record_nodes_sound _ _ _ _ Hlookup) as [Hempty | Hfound];
      [rewrite lookup_empty in Hempty; discriminate | exact Hfound].
  - intros Hunique i n Hin Hindex.
    apply record_nodes_complete; assumption.
Qed.

(** The sample page instantiates C5: its two indices are distinct, and the
    button is found under index 1. *)
Lemma selector_map_of_sample_page :
  let button := DOMElementNode (clickable "button" [] 1%nat) [DOMTextNode "Go" true] in
  dom (_createSelectorMap sample_page) = ({[0%nat; 1%nat]} : gset nat)
  /\ _createSelectorMap sample_page !! 1%nat = Some button.
Proof.
  destruct (selector_map_keys_are_highlight_indices sample_page) as (Hkeys & _ & Hcomplete).
  cbn zeta in *. split.
  - cbn [getClickableElements selectorMap elementTree] in Hkeys. rewrite Hkeys.
    vm_compute. reflexivity.
  - apply Hcomplete.
    + vm_compute. apply NoDup_cons_2; [| apply NoDup_singleton].
      intros Hin. apply list_elem_of_singleton in Hin. discriminate Hin.
    + vm_compute. repeat constructor.
    + reflexivity.
Defined.

End SelectorMap.

(** ** The serialization of interactive elements *)

Section Serialization.
Import Dom.

(** The inner traversal starts at the element itself, so an interactive
    element with an index stops it before any text is collected. *)
Lemma inline_text_of_indexed_interactive_element (fields : ElementFields)
    (children : list DOMBaseNode) (i : nat) :
  isInteractive fields = true -> highlightIndex fields = Some i ->
  getAllTextTillNextClickableElement (DOMElementNode fields children) = "".
Proof.
  intros Hinteractive Hindex. unfold getAllTextTillNextClickableElement.
  cbn [traverse_text]. rewrite Hinteractive, Hindex.
  rewrite bool_decide_true by discriminate. reflexivity.
Qed.

(** The serializer raises as soon as its traversal reaches a text node. *)
Lemma text_child_makes_serialization_throw (includeAttributes : list string)
    (fields : ElementFields) (text : string) (visible : bool) (rest : list DOMBaseNode) :
  clickableElementsToString includeAttributes
    (DOMElementNode fields (DOMTextNode text visible :: rest))
  = Thrown (text_node_failure includeAttributes).
Proof. reflexivity. Qed.

(** C6, at the scenario of the specification: for the root button
    [<button id="go">Go</button>] with index 0 the serializer does not
    return [0[:]<button>Go</button>]: it raises a [TypeError] at the text
    child, the inline text of the button is empty, and the button without
    its text child serializes to [0[:]<button></button>]. *)
Theorem button_go_is_not_serialized_with_its_text :
  clickableElementsToString [] button_go
  = Thrown (TypeError "node.getAllTextTillNextClickableElement is not a function")
  /\ getAllTextTillNextClickableElement button_go = ""
  /\ clickableElementsToString [] button_empty = Returned "0[:]<button></button>".
Proof. repeat split; vm_compute; reflexivity. Qed.

End Serialization.

(** ** Branch paths and hashes *)


(** ** Branch paths and hashes *)

Section BranchPath.
Import Dom HistoryTree.

(** Induction along the [parent] references. *)
Lemma LinkedElement_parent_ind (P : LinkedElement -> Prop) :
  (forall fields, P (Linked fields None)) ->
  (forall fields parent, P parent -> P (Linked fields (Some parent))) ->
  forall e, P e.
Proof.
  intros Hroot Hchild.
  fix IH 1.
  intros [fields [parent |]].
  - apply Hchild, IH.
  - apply Hroot.
Qed.

Lemma collect_parents_app (e : LinkedElement) :
  forall parents, collect_parents e parents = parents ++ collect_parents e [].
Proof.
  induction e as [fields | fields parent IH] using LinkedElement_parent_ind;
    intros parents; cbn [collect_parents].
  - symmetry. apply app_nil_r.
  - rewrite (IH (parents ++ _)), (IH ([] ++ _)).
    rewrite <- app_assoc. reflexivity.
Qed.

(** The loop gathers the chain from the element up to, and without, the
    root. *)
Lemma root_to_element_collect_parents (e : LinkedElement) :
  root_to_element e = root_of e :: rev (collect_parents e []).
Proof.
  induction e as [fields | fields parent IH] using LinkedElement_parent_ind.
  - reflexivity.
  - cbn [root_to_element root_of collect_parents].
    rewrite collect_parents_app, rev_app_distr, IH. reflexivity.
Qed.

(** The element object found at a position of a tree has the root element
    of the tree at the end of its [parent] chain. *)
Lemma element_at_root (path : list nat) :
  forall node parent e,
    element_at node parent path = Some e ->
    root_of e = match parent with
                | Some p => root_of p
                | None => match node with
                          | DOMElementNode fields _ => Linked fields None
                          | DOMTextNode _ _ => e
                          end
                end.
Proof.
  induction path as [| i path IH]; intros [text visible | fields children] parent e Hat;
    cbn [element_at] in Hat; try discriminate.
  - injection Hat as <-. destruct parent; reflexivity.
  - destruct (nth_error children i) as [child |]; [| discriminate].
    rewrite (IH _ _ _ Hat). destruct parent; reflexivity.
Qed.

Lemma full_tag_path_getParentBranchPath (domElement : LinkedElement) :
  full_tag_path domElement
  = tagName (fields_of (root_of domElement)) :: _getParentBranchPath domElement.
Proof.
  unfold full_tag_path, _getParentBranchPath.
  rewrite root_to_element_collect_parents. reflexivity.
Qed.

(** C8, as the code has it: for every element, the branch path recorded
    in its History Element is the ancestor-tag path from the root to the
    element with the first entry, the root's tag name, left out. *)
Theorem recorded_branch_path_omits_the_root (domElement : LinkedElement) :
  full_tag_path domElement
  = tagName (fields_of (root_of domElement))
    :: entireParentBranchPath (convertDomElementToHistoryElement domElement).
Proof. apply full_tag_path_getParentBranchPath. Qed.

(** The button of the sample page, at child positions 0 then 1. *)
Lemma branch_path_of_the_sample_button :
  option_map (fun e => entireParentBranchPath (convertDomElementToHistoryElement e))
    (element_at sample_page None [0; 1]%nat) = Some ["body"; "button"]
  /\ option_map full_tag_path (element_at sample_page None [0; 1]%nat)
     = Some ["html"; "body"; "button"]
  /\ entireParentBranchPath (convertDomElementToHistoryElement html_root) = [].
Proof. repeat split. Qed.

(** C7, as the code has it: two elements with the same ordered
    ancestor-tag path and the same attribute entries in the same order
    have equal hashes, and the History Element of one matches the other,
    whatever the digest. *)
Theorem equal_paths_and_attributes_give_equal_hashes
    (sha256_hex : string -> string) (elementA elementB : LinkedElement) :
  full_tag_path elementA = full_tag_path elementB ->
  attributes (fields_of elementA) = attributes (fields_of elementB) ->
  _hashDomElement sha256_hex elementA = _hashDomElement sha256_hex elementB
  /\ compareHistoryElementAndDomElement sha256_hex
       (convertDomElementToHistoryElement elementA) elementB = true.
Proof.
  intros Hpath Hattributes.
  rewrite !full_tag_path_getParentBranchPath in Hpath.
  injection Hpath as _ Hbranch.
  unfold compareHistoryElementAndDomElement, _hashDomHistoryElement, _hashDomElement.
  cbn [entireParentBranchPath he_attributes convertDomElementToHistoryElement
       branchPathHash attributesHash].
  rewrite Hbranch, Hattributes, !String.eqb_refl. split; reflexivity.
Qed.

Lemma equal_hashes_across_snapshots :
  _hashDomElement plain_digest div_two_attributes
  = _hashDomElement plain_digest div_two_attributes_later
  /\ compareHistoryElementAndDomElement plain_digest
       (convertDomElementToHistoryElement div_two_attributes) div_two_attributes_later = true.
Proof.
  apply (equal_paths_and_attributes_give_equal_hashes plain_digest
           div_two_attributes div_two_attributes_later); reflexivity.
Defined.

(** C7 fails from right to left: the entries [key=value] are concatenated
    with no separator, so [class="btn" id="go"] and [class="btnid=go"]
    give the same string and, under every digest, the same hashes, while
    the attribute maps differ. *)
Lemma distinct_attribute_maps_with_equal_hashes :
  (forall sha256_hex : string -> string,
     _hashDomElement sha256_hex div_two_attributes
     = _hashDomElement sha256_hex div_one_attribute)
  /\ full_tag_path div_two_attributes = full_tag_path div_one_attribute
  /\ attributes (fields_of div_two_attributes) <> attributes (fields_of div_one_attribute).
Proof.
  split; [| split].
  - intros sha256_hex. reflexivity.
  - reflexivity.
  - discriminate.
Qed.

End BranchPath.

(** ** The dispatcher *)

Section Dispatcher.
Import Views Controller.

Variable Browser World : Type.
Variable registry : gmap string (RegisteredAction Browser World).

Abbreviation act := (Controller.act Browser World registry).
Abbreviation act_in_order := (Controller.act_in_order Browser World registry).
Abbreviation multiAct_loop := (Controller.multiAct_loop Browser World registry).
Abbreviation multiAct := (Controller.multiAct Browser World registry).
Abbreviation executeAction := (Controller.executeAction Browser World registry).
Abbreviation dispatchable := (Controller.dispatchable Browser World registry).

(** [act] writes the action into the call record and touches nothing else
    of it. *)
Lemma act_invoked (a : Action) (browser : option Browser) (m m' : Machine World)
    (o : Outcome ActionResult) :
  act a browser m = (o, m') -> invoked m' = invoked m ++ [a].
Proof.
  unfold Controller.act, record_call, in_world, bind, modify. cbn.
  destruct (Controller.executeAction _ _ _ _ _ _ _) as [o' w'].
  intros [= _ <-]. reflexivity.
Qed.

Lemma act_in_order_invoked (actions : list Action) (browser : option Browser) :
  forall (m m' : Machine World) (results : list ActionResult),
    act_in_order actions browser m = (Returned results, m') ->
    invoked m' = invoked m ++ actions /\ length results = length actions.
Proof.
  induction actions as [| a rest IH]; intros m m' results Hrun;
    cbn [Controller.act_in_order] in Hrun.
  - injection Hrun as <- <-. split; [symmetry; apply app_nil_r | reflexivity].
  - unfold bind at 1 in Hrun.
    destruct (act a browser m) as [[r | e] m1] eqn:Hact; [| discriminate].
    unfold bind at 1 in Hrun.
    destruct (act_in_order rest browser m1) as [[rs | e] m2] eqn:Hrest; [| discriminate].
    injection Hrun as <- <-.
    destruct (IH _ _ _ Hrest) as [Hlog Hlen].
    rewrite Hlog, (act_invoked _ _ _ _ _ Hact), <- app_assoc.
    split; [reflexivity | cbn; rewrite Hlen; reflexivity].
Qed.

(** The loop, started with [acc] already collected. *)
Lemma multiAct_loop_first_stop (actions : list Action) (browser : option Browser) :
  forall (k : nat) (results acc : list ActionResult) (m m' : Machine World),
    act_in_order (firstn k actions) browser m = (Returned results, m') ->
    first_stop results = Some k ->
    multiAct_loop actions browser acc m = (Returned (acc ++ results), m').
Proof.
  induction actions as [| a rest IH]; intros k results acc m m' Hrun Hfirst.
  - rewrite firstn_nil in Hrun. injection Hrun as <- <-. discriminate Hfirst.
  - destruct k as [| k].
    + injection Hrun as <- <-. discriminate Hfirst.
    + cbn [firstn Controller.act_in_order] in Hrun.
      cbn [Controller.multiAct_loop].
      unfold bind at 1 in Hrun. unfold bind at 1.
      destruct (act a browser m) as [[r | e] m1] eqn:Hact; [| discriminate].
      unfold bind at 1 in Hrun.
      destruct (act_in_order (firstn k rest) browser m1) as [[rs | e] m2] eqn:Hrest;
        [| discriminate].
      injection Hrun as <- <-.
      cbn [first_stop] in Hfirst. unfold stops in Hfirst.
      destruct (truthy_string (error r) || truthy_bool (isDone r))%bool.
      * injection Hfirst as <-.
        injection Hrest as <- <-. reflexivity.
      * destruct (first_stop rs) as [j |] eqn:Hj; [| discriminate].
        injection Hfirst as ->.
        rewrite (IH _ _ (acc ++ [r]) _ _ Hrest Hj), <- app_assoc. reflexivity.
Qed.

(** C1. When the first [k] actions, run in the caller's order, return
    [results] and the [k]-th of them is the first that carries [error] or
    [isDone], [multiAct] returns exactly those [k] results in that order
    and leaves the state in which the [k]-th action left it: the actions
    handed to [act] are the first [k], in the caller's order, and none
    after them. *)
Theorem multiAct_returns_up_to_the_first_stop (actions : list Action)
    (browser : option Browser) (k : nat) (results : list ActionResult)
    (m m' : Machine World) :
  act_in_order (firstn k actions) browser m = (Returned results, m') ->
  first_stop results = Some k ->
  multiAct actions browser m = (Returned results, m')
  /\ length results = k
  /\ (k <= length actions)%nat
  /\ invoked m' = invoked m ++ firstn k actions.
Proof.
  intros Hrun Hfirst.
  destruct (act_in_order_invoked _ _ _ _ _ Hrun) as [Hlog Hlen].
  assert (Hk : (k <= length results)%nat).
  { clear -Hfirst. revert k Hfirst.
    induction results as [| r rs IH]; intros k Hfirst; cbn [first_stop] in Hfirst.
    - discriminate.
    - destruct (stops r).
      + injection Hfirst as <-. cbn. lia.
      + destruct (first_stop rs) as [j |]; [| discriminate].
        injection Hfirst as <-. specialize (IH j eq_refl). cbn. lia. }
  rewrite length_firstn in Hlen.
  split; [| split; [lia | split; [lia | exact Hlog]]].
  unfold Controller.multiAct.
  exact (multiAct_loop_first_stop _ _ _ _ [] _ _ Hrun Hfirst).
Qed.

(** When no result carries [error] or [isDone], every action is run. *)
Lemma multiAct_loop_no_stop (actions : list Action) (browser : option Browser) :
  forall (results acc : list ActionResult) (m m' : Machine World),
    act_in_order actions browser m = (Returned results, m') ->
    first_stop results = None ->
    multiAct_loop actions browser acc m = (Returned (acc ++ results), m').
Proof.
  induction actions as [| a rest IH]; intros results acc m m' Hrun Hfirst;
    cbn [Controller.act_in_order] in Hrun; cbn [Controller.multiAct_loop].
  - injection Hrun as <- <-. rewrite app_nil_r. reflexivity.
  - unfold bind at 1 in Hrun. unfold bind at 1.
    destruct (act a browser m) as [[r | e] m1] eqn:Hact; [| discriminate].
    unfold bind at 1 in Hrun.
    destruct (act_in_order rest browser m1) as [[rs | e] m2] eqn:Hrest; [| discriminate].
    injection Hrun as <- <-.
    cbn [first_stop] in Hfirst. unfold stops in Hfirst.
    destruct (truthy_string (error r) || truthy_bool (isDone r))%bool; [discriminate |].
    destruct (first_stop rs) as [j |] eqn:Hj; [discriminate |].
    rewrite (IH _ (acc ++ [r]) _ _ Hrest Hj), <- app_assoc. reflexivity.
Qed.

(** [_executeWithResult] turns an exception of the implementation into a
    result and never throws. *)
Lemma _executeWithResult_captures (body : M World ActionResult) (w w' : World) (e : JSError) :
  body w = (Thrown e, w') ->
  _executeWithResult World body w
  = (Returned {| error := Some (JS.message e); extractedContent := None;
                 includeInMemory := None; isDone := None |}, w').
Proof. intros Hbody. unfold _executeWithResult, try_catch. rewrite Hbody. reflexivity. Qed.

Lemma _executeWithResult_returns (body : M World ActionResult) (w : World) :
  exists r w', _executeWithResult World body w = (Returned r, w').
Proof.
  unfold _executeWithResult, try_catch.
  destruct (body w) as [[r | e] w']; eauto.
Qed.

Lemma dispatchable_act_returns (browser : option Browser) (a : Action) (m : Machine World) :
  dispatchable browser a -> exists r m', act a browser m = (Returned r, m').
Proof.
  intros (entry & body & Hentry & Hvalid & Hbrowser & Hwrapped).
  unfold Controller.act, record_call, in_world, bind, modify. cbn.
  unfold Controller.executeAction. rewrite Hentry.
  unfold try_catch. rewrite Hvalid. cbn [negb].
  destruct (requiresBrowser entry) eqn:Hrequires.
  - destruct browser as [b |]; [| exfalso; apply (Hbrowser eq_refl); reflexivity].
    rewrite Hwrapped.
    destruct (_executeWithResult_returns (body (construct (paramModel entry) (params a)) (Some b))
                (world m)) as (r & w' & ->).
    eauto.
  - rewrite Hwrapped.
    destruct (_executeWithResult_returns (body (construct (paramModel entry) (params a)) None)
                (world m)) as (r & w' & ->).
    eauto.
Qed.

(** Whatever the loop returns starts with the results it was given. *)
Lemma multiAct_loop_returned_from (actions : list Action) (browser : option Browser) :
  forall (acc results : list ActionResult) (m m' : Machine World),
    multiAct_loop actions browser acc m = (Returned results, m') ->
    exists later, results = acc ++ later.
Proof.
  induction actions as [| a rest IH]; intros acc results m m' Hrun;
    cbn [Controller.multiAct_loop] in Hrun.
  - injection Hrun as <- <-. exists []. symmetry. apply app_nil_r.
  - unfold bind at 1 in Hrun.
    destruct (act a browser m) as [[r | e] m1]; [| discriminate].
    destruct (truthy_string (error r) || truthy_bool (isDone r))%bool.
    + injection Hrun as <- <-. eauto.
    + destruct (IH _ _ _ _ Hrun) as [later ->]. exists (r :: later).
      rewrite <- app_assoc. reflexivity.
Qed.

Lemma multiAct_loop_returns (actions : list Action) (browser : option Browser) :
  Forall (dispatchable browser) actions ->
  forall acc m, exists results m', multiAct_loop actions browser acc m = (Returned results, m').
Proof.
  induction 1 as [| a rest Ha _ IH]; intros acc m; cbn [Controller.multiAct_loop].
  - unfold ret. eauto.
  - unfold bind.
    destruct (dispatchable_act_returns browser a m Ha) as (r & m1 & ->).
    destruct (truthy_string (error r) || truthy_bool (isDone r))%bool.
    + unfold ret. eauto.
    + apply IH.
Qed.

(** [act] on an action that [executeAction] hands to an implementation
    running under [_executeWithResult]. *)
Lemma act_on_a_wrapped_implementation (browser : option Browser) (a : Action)
    (m : Machine World) (entry : RegisteredAction Browser World)
    (body : JSValue -> option Browser -> M World ActionResult) :
  registry !! actionName a = Some entry ->
  validate (paramModel entry) (construct (paramModel entry) (params a)) = true ->
  (requiresBrowser entry = true -> browser <> None) ->
  (forall p b, function entry p b = _executeWithResult World (body p b)) ->
  act a browser m
  = (fst (_executeWithResult World
            (body (construct (paramModel entry) (params a))
               (if requiresBrowser entry then browser else None)) (world m)),
     {| world := snd (_executeWithResult World
                        (body (construct (paramModel entry) (params a))
                           (if requiresBrowser entry then browser else None)) (world m));
        invoked := invoked m ++ [a] |}).
Proof.
  intros Hentry Hvalid Hbrowser Hwrapped.
  unfold Controller.act, record_call, in_world, bind, modify. cbn.
  unfold Controller.executeAction. rewrite Hentry.
  unfold try_catch at 1. rewrite Hvalid. cbn [negb].
  destruct (requiresBrowser entry) eqn:Hrequires.
  - destruct browser as [b |]; [| exfalso; apply (Hbrowser eq_refl); reflexivity].
    rewrite Hwrapped.
    destruct (_executeWithResult_returns
                (body (construct (paramModel entry) (params a)) (Some b)) (world m))
      as (r & w' & ->).
    reflexivity.
  - rewrite Hwrapped.
    destruct (_executeWithResult_returns
                (body (construct (paramModel entry) (params a)) None) (world m))
      as (r & w' & ->).
    reflexivity.
Qed.

(** The loop, past the actions whose results do not end it. *)
Lemma multiAct_loop_past (before rest : list Action) (browser : option Browser) :
  forall (results acc : list ActionResult) (m m1 : Machine World),
    act_in_order before browser m = (Returned results, m1) ->
    first_stop results = None ->
    multiAct_loop (before ++ rest) browser acc m
    = multiAct_loop rest browser (acc ++ results) m1.
Proof.
  induction before as [| a before IH]; intros results acc m m1 Hrun Hfirst;
    cbn [Controller.act_in_order] in Hrun; cbn [app Controller.multiAct_loop].
  - injection Hrun as <- <-. rewrite app_nil_r. reflexivity.
  - unfold bind at 1 in Hrun. unfold bind at 1.
    destruct (act a browser m) as [[r | e] m0] eqn:Hact; [| discriminate].
    unfold bind at 1 in Hrun.
    destruct (act_in_order before browser m0) as [[rs | e] m2] eqn:Hrest; [| discriminate].
    injection Hrun as <- <-.
    cbn [first_stop] in Hfirst. unfold stops in Hfirst.
    destruct (truthy_string (error r) || truthy_bool (isDone r))%bool; [discriminate |].
    destruct (first_stop rs) as [j |] eqn:Hj; [discriminate |].
    rewrite (IH _ (acc ++ [r]) _ _ Hrest Hj), <- app_assoc. reflexivity.
Qed.

(** C2, as the code has it. A list in which every action is registered,
    passes its parameter model, has the browser its entry requires and
    runs under [_executeWithResult] never makes [multiAct] throw. When
    the implementation of such an action throws, at whatever place of
    the list the loop reaches, [multiAct] returns the results so far
    followed by the result whose [error] is the message of the
    exception, there the list ends when the message is not empty, and
    the actions behind it are not run. A name that is neither registered
    nor inherited from [Object.prototype], an inherited name, parameters
    that fail the model and a missing required browser make
    [executeAction] throw, and [multiAct] passes the exception on to its
    caller. *)
Theorem multiAct_throws_only_what_executeAction_throws (browser : option Browser) :
  (forall actions m,
     Forall (dispatchable browser) actions ->
     exists results m', multiAct actions browser m = (Returned results, m'))
  /\ (forall before a after m results m1 entry body e w',
        act_in_order before browser m = (Returned results, m1) ->
        first_stop results = None ->
        registry !! actionName a = Some entry ->
        validate (paramModel entry) (construct (paramModel entry) (params a)) = true ->
        (requiresBrowser entry = true -> browser <> None) ->
        (forall p b, function entry p b = _executeWithResult World (body p b)) ->
        body (construct (paramModel entry) (params a))
          (if requiresBrowser entry then browser else None) (world m1)
        = (Thrown e, w') ->
        (JS.message e <> "" ->
         multiAct (before ++ a :: after) browser m
         = (Returned (results ++ [{| error := Some (JS.message e); extractedContent := None;
                                     includeInMemory := None; isDone := None |}]),
            {| world := w'; invoked := invoked m ++ before ++ [a] |}))
        /\ (Forall (dispatchable browser) after ->
            exists later m',
              multiAct (before ++ a :: after) browser m
              = (Returned (results ++ {| error := Some (JS.message e);
                                         extractedContent := None;
                                         includeInMemory := None; isDone := None |}
                                      :: later), m')))
  /\ (forall body w w' e,
        body w = (Thrown e, w') ->
        _executeWithResult World body w
        = (Returned {| error := Some (JS.message e); extractedContent := None;
                       includeInMemory := None; isDone := None |}, w'))
  /\ (forall a rest m,
        registry !! actionName a = None ->
        fst (multiAct (a :: rest) browser m)
        = Thrown (Error (if inherited (actionName a)
                         then "Error executing action " +:+ actionName a +:+ ": " +:+
                              "action.paramModel is not a constructor"
                         else "Action " +:+ actionName a +:+ " not found")))
  /\ (forall a rest m entry,
        registry !! actionName a = Some entry ->
        validate (paramModel entry) (construct (paramModel entry) (params a)) = false ->
        fst (multiAct (a :: rest) browser m)
        = Thrown (Error ("Error executing action " +:+ actionName a +:+ ": " +:+
                         "Invalid parameters for action " +:+ actionName a)))
  /\ (forall a rest m entry,
        registry !! actionName a = Some entry ->
        validate (paramModel entry) (construct (paramModel entry) (params a)) = true ->
        requiresBrowser entry = true -> browser = None ->
        fst (multiAct (a :: rest) browser m)
        = Thrown (Error ("Error executing action " +:+ actionName a +:+ ": " +:+
                         "Action " +:+ actionName a +:+ " requires browser but none provided"))).
Proof.
  split; [| split; [| split; [| split; [| split]]]].
  - intros actions m Hall. apply multiAct_loop_returns. exact Hall.
  - intros before a after m results m1 entry body e w' Hrun Hfirst Hentry Hvalid Hbrowser
      Hwrapped Hbody.
    destruct (act_in_order_invoked _ _ _ _ _ Hrun) as [Hlog _].
    assert (Hact : act a browser m1
                   = (Returned {| error := Some (JS.message e); extractedContent := None;
                                  includeInMemory := None; isDone := None |},
                      {| world := w'; invoked := invoked m ++ before ++ [a] |})).
    { rewrite (act_on_a_wrapped_implementation browser a m1 entry body
                 Hentry Hvalid Hbrowser Hwrapped).
      rewrite (_executeWithResult_captures _ _ _ _ Hbody). cbn [fst snd].
      rewrite Hlog, <- app_assoc. reflexivity. }
    assert (Hloop :
      multiAct (before ++ a :: after) browser m
      = (if negb (String.eqb (JS.message e) "")
         then ret (results ++ [{| error := Some (JS.message e); extractedContent := None;
                                  includeInMemory := None; isDone := None |}])
         else multiAct_loop after browser
                (results ++ [{| error := Some (JS.message e); extractedContent := None;
                                includeInMemory := None; isDone := None |}]))
          {| world := w'; invoked := invoked m ++ before ++ [a] |}).
    { unfold Controller.multiAct.
      rewrite (multiAct_loop_past before (a :: after) browser results [] m m1 Hrun Hfirst).
      cbn [app Controller.multiAct_loop]. unfold bind at 1. rewrite Hact.
      cbn [error isDone truthy_string truthy_bool]. rewrite orb_false_r. reflexivity. }
    rewrite Hloop. clear Hloop.
    split.
    + intros Hmessage. apply String.eqb_neq in Hmessage. rewrite Hmessage. reflexivity.
    + intros Hafter. destruct (String.eqb (JS.message e) ""); cbn [negb].
      * destruct (multiAct_loop_returns after browser Hafter
                    (results ++ [{| error := Some (JS.message e); extractedContent := None;
                                    includeInMemory := None; isDone := None |}])
                    {| world := w'; invoked := invoked m ++ before ++ [a] |})
          as (all & m' & Hall).
        destruct (multiAct_loop_returned_from after browser _ _ _ _ Hall) as [later ->].
        exists later, m'. rewrite Hall, <- app_assoc. reflexivity.
      * exists [], {| world := w'; invoked := invoked m ++ before ++ [a] |}. reflexivity.
  - exact _executeWithResult_captures.
  - intros a rest m Hunknown.
    unfold Controller.multiAct. cbn [Controller.multiAct_loop].
    unfold bind, Controller.act, record_call, in_world, modify, bind. cbn.
    unfold Controller.executeAction. rewrite Hunknown.
    destruct (inherited (actionName a)); reflexivity.
  - intros a rest m entry Hentry Hinvalid.
    unfold Controller.multiAct. cbn [Controller.multiAct_loop].
    unfold bind, Controller.act, record_call, in_world, modify, bind. cbn.
    unfold Controller.executeAction. rewrite Hentry.
    unfold try_catch. rewrite Hinvalid. reflexivity.
  - intros a rest m entry Hentry Hvalid Hrequires ->.
    unfold Controller.multiAct. cbn [Controller.multiAct_loop].
    unfold bind, Controller.act, record_call, in_world, modify, bind. cbn.
    unfold Controller.executeAction. rewrite Hentry.
    unfold try_catch. rewrite Hvalid, Hrequires. reflexivity.
Qed.

End Dispatcher.

(** C1 on the sample registry: a click, then [done], then a click that is
    never run. *)
Lemma multiAct_stops_at_done :
  Controller.multiAct unit Z Samples.named_registry
    [Samples.click 1; Samples.say_done "ok"; Samples.click 2] (Some tt) Samples.fresh_machine
  = (Returned [Samples.result_with "clicked";
               {| Views.error := None; Views.extractedContent := Some "ok";
                  Views.includeInMemory := None; Views.isDone := Some true |}],
     Controller.mkMachine 1 [Samples.click 1; Samples.say_done "ok"]).
Proof.
  apply (multiAct_returns_up_to_the_first_stop unit Z Samples.named_registry
           [Samples.click 1; Samples.say_done "ok"; Samples.click 2]
           (Some tt) 2%nat).
  - vm_compute. reflexivity.
  - vm_compute. reflexivity.
Defined.

(** C2 on the sample registry: the key press fails inside its
    implementation after a click; [multiAct] returns the result of the
    click and the captured failure, and the second click is not run. *)
Lemma multiAct_returns_on_a_failing_implementation :
  Controller.multiAct unit Z Samples.named_registry
    ([Samples.click 1] ++ Samples.press "Enter" :: [Samples.click 2]) (Some tt)
    Samples.fresh_machine
  = (Returned ([Samples.result_with "clicked"]
               ++ [{| Views.error := Some (JS.message (Error "page closed"));
                      Views.extractedContent := None;
                      Views.includeInMemory := None; Views.isDone := None |}]),
     {| Controller.world := 1;
        Controller.invoked :=
          Controller.invoked Samples.fresh_machine
          ++ [Samples.click 1] ++ [Samples.press "Enter"] |}).
Proof.
  apply (proj1 (proj1 (proj2 (multiAct_throws_only_what_executeAction_throws unit Z
                                Samples.named_registry (Some tt)))
                  [Samples.click 1] (Samples.press "Enter") [Samples.click 2]
                  Samples.fresh_machine [Samples.result_with "clicked"]
                  (Controller.mkMachine 1 [Samples.click 1])
                  {| Controller.name := "send_keys"; Controller.description := "Send keys";
                     Controller.function := Samples.send_keys;
                     Controller.paramModel := Views.SendKeysAction;
                     Controller.requiresBrowser := true |}
                  (fun _ _ n => (Thrown (Error "page closed"), n))
                  (Error "page closed") 1
                  eq_refl eq_refl eq_refl eq_refl
                  (fun _ H => match H with end)
                  (fun _ _ => eq_refl) eq_refl)).
  discriminate.
Defined.

(** C2 fails: on the registry of [new Controller()] the planner's
    [{ click_element: { index: 0 } }] makes [multiAct] throw, with a
    browser supplied; on the sample registry, where [click_element] is
    registered, an index that is not an integer and a missing browser make
    it throw as well, the second after the first action has run. *)
Lemma multiAct_throws_past_its_caller :
  Controller.multiAct unit unit Samples.controller_registry
    [Samples.planner_click] (Some tt) Samples.idle_machine
  = (Thrown (Error "Action click_element not found"),
     Controller.mkMachine tt [Samples.planner_click])
  /\ fst (Controller.multiAct unit Z Samples.named_registry
            [Samples.click 1;
             {| Controller.actionName := "click_element";
                Controller.params := Views.JSString "first" |}]
            (Some tt) Samples.fresh_machine)
     = Thrown (Error "Error executing action click_element: Invalid parameters for action click_element")
  /\ fst (Controller.multiAct unit Z Samples.named_registry
            [Samples.click 1] None Samples.fresh_machine)
     = Thrown (Error "Error executing action click_element: Action click_element requires browser but none provided").
Proof. repeat split; vm_compute; reflexivity. Qed.

(** The registry of [new Controller()] holds one entry, under the empty
    name: the last one registered. *)
Lemma controller_registry_has_one_entry (Browser World : Type)
    (URL_parses : string -> bool)
    (body : Controller.DefaultBody -> Views.JSValue -> Browser -> M World Views.ActionResult) :
  dom (Controller.default_registry Browser World URL_parses body) = ({[ ""%string ]} : gset string).
Proof.
  unfold Controller.default_registry, Controller._registerDefaultActions, Controller.action.
  rewrite !dom_insert_L, dom_empty_L. set_solver.
Qed.

(** ** The message history *)

Section History.
Import Views Dom MessageManager.





















End History.

(** ** Trimming and dropping the state message *)

Section Trimming.
Import Views Dom MessageManager.

(** No array has an element at the default index. *)
Lemma no_element_at_default_index {A} (l : list A) : element l default_index = None.
Proof. reflexivity. Qed.

Lemma _removeMessage_default_throws (this : MessageManager) :
  _removeMessage default_index this
  = (Thrown (TypeError "Cannot read properties of undefined (reading 'metadata')"), this).
Proof. reflexivity. Qed.

(** C10, as the code has it: whenever the history has more than two
    messages and the last one has role [user], dropping the last state
    message raises a [TypeError] and removes nothing; otherwise it returns
    and removes nothing. The manager is the same afterwards in both cases. *)
Theorem _removeLastStateMessage_removes_nothing (this : MessageManager) :
  _removeLastStateMessage this
  = (if last_is_state_message this
     then Thrown (TypeError "Cannot read properties of undefined (reading 'metadata')")
     else Returned tt,
     this).
Proof.
  unfold _removeLastStateMessage, last_is_state_message.
  destruct (last (messages (history this))) as [lastRecord |]; [| reflexivity].
  destruct (_ && _)%bool; reflexivity.
Qed.

(** After the system message, the task message and the remembered result
    of an action, the guard holds and the call throws. *)
Lemma dropping_the_state_message_of_a_step_throws :
  map (fun m => role (message m)) (messages (history Samples.stepping_manager))
  = [system; user; user]
  /\ _removeLastStateMessage Samples.stepping_manager
     = (Thrown (TypeError "Cannot read properties of undefined (reading 'metadata')"),
        Samples.stepping_manager).
Proof. split; vm_compute; reflexivity. Qed.

(** [cutMessages] returns only through one of its two budget tests. *)
Lemma cutMessages_returns_within_budget (this : MessageManager) :
  fst (cutMessages this) = Returned tt ->
  totalTokens (history (snd (cutMessages this))) <= maxInputTokens (snd (cutMessages this)).
Proof.
  unfold cutMessages.
  destruct (totalTokens (history this) - maxInputTokens this <=? 0) eqn:Hdiff.
  - intros _. cbn [snd]. lia.
  - destruct (last (messages (history this))) as [lastMsg |]; [| discriminate].
    destruct (match content (message lastMsg) with
              | Text _ => (lastMsg, this)
              | Parts items => _
              end) as [lastMsg' this'].
    destruct (totalTokens (history this') - maxInputTokens this' <=? 0) eqn:Hdiff'.
    + intros _. cbn [snd]. lia.
    + cbn zeta. destruct (proportion_exceeds _ _); [discriminate |].
      unfold bind. rewrite _removeMessage_default_throws. discriminate.
Qed.

(** Over budget with a text-only newest message that could absorb the
    cut, trimming raises a [TypeError] and trims nothing. *)
Lemma cutMessages_never_trims_text (this : MessageManager) (lastMsg : ManagedMessage)
    (s : string) :
  0 < totalTokens (history this) - maxInputTokens this ->
  last (messages (history this)) = Some lastMsg ->
  content (message lastMsg) = Text s ->
  proportion_exceeds (totalTokens (history this) - maxInputTokens this)
    (inputTokens (metadata lastMsg)) = false ->
  cutMessages this
  = (Thrown (TypeError "Cannot read properties of undefined (reading 'metadata')"), this).
Proof.
  intros Hover Hlast Htext Hfits. unfold cutMessages.
  destruct (Z.leb_spec (totalTokens (history this) - maxInputTokens this) 0); [lia |].
  rewrite Hlast, Htext.
  destruct (Z.leb_spec (totalTokens (history this) - maxInputTokens this) 0); [lia |].
  cbn zeta. rewrite Hfits. reflexivity.
Qed.

(** C3, at the scenario of the specification and at a message with a
    screenshot. With 2000 tokens against a budget of 1900 and a newest
    message of 1000 text tokens, [getMessages] fails with a [TypeError],
    not with the overflow error, and leaves the history at 2000. With
    3800 tokens against 2800 and a newest message of 1000 text tokens and
    an 800-token image, the image is dropped, 200 tokens of overshoot
    remain, a fifth of the newest message, and [getMessages] fails with
    the overflow error all the same. *)
Theorem getMessages_over_budget_fails_without_trimming :
  (totalTokens (history Samples.over_budget_manager) = 2000
   /\ maxInputTokens Samples.over_budget_manager = 1900
   /\ getMessages Samples.over_budget_manager
      = (Thrown (TypeError "Cannot read properties of undefined (reading 'metadata')"),
         Samples.over_budget_manager)
   /\ is_overflow_error
        (TypeError "Cannot read properties of undefined (reading 'metadata')") = false)
  /\ (totalTokens (history Samples.screenshot_manager) = 3800
      /\ maxInputTokens Samples.screenshot_manager = 2800
      /\ fst (getMessages Samples.screenshot_manager) = Thrown (overflow_error 1000 1000)
      /\ totalTokens (history (snd (getMessages Samples.screenshot_manager))) = 3000
      /\ option_map (fun m => inputTokens (metadata m))
           (last (messages (history (snd (getMessages Samples.screenshot_manager)))))
         = Some 1000
      /\ proportion_exceeds (3000 - 2800) 1000 = false).
Proof. repeat split; vm_compute; reflexivity. Qed.

End Trimming.

(** ** The step of the orchestrator *)

Section Step.
Import Views Dom MessageManager Agent.

Lemma keeps_counter_in_manager {A} (c : M MessageManager A) :
  keeps_counter (in_agent (in_manager c)).
Proof.
  intros [this locals]. unfold in_agent, in_manager. cbn [fst].
  destruct (c (messageManager this)) as [o mm]. reflexivity.
Qed.

Lemma keeps_counter_external {A} (o : Outcome A) : keeps_counter (external o).
Proof. intros s. reflexivity. Qed.

Lemma keeps_counter_set_locals (f : Locals -> Locals) : keeps_counter (set_locals f).
Proof. intros s. reflexivity. Qed.

Lemma keeps_counter_get : keeps_counter (in_agent get).
Proof. intros s. reflexivity. Qed.

Lemma keeps_counter_getNextAction (env : Environment) (inputMessages : list Message) :
  keeps_counter (in_agent (getNextAction env inputMessages)).
Proof.
  intros [this locals]. unfold in_agent, getNextAction, external, bind, get, ret. cbn [fst].
  destruct (llm_response env inputMessages); reflexivity.
Qed.

Lemma keeps_counter_set_lastResult (r : option (list ActionResult)) :
  keeps_counter (in_agent (modify (set_lastResult r))).
Proof. intros s. reflexivity. Qed.

Lemma resets_counter_bind {A B} (c : M (Agent * Locals) A) (k : A -> M (Agent * Locals) B) :
  keeps_counter c -> (forall a, resets_counter_on_return (k a)) ->
  resets_counter_on_return (bind c k).
Proof.
  intros Hc Hk s. unfold bind. specialize (Hc s).
  destruct (c s) as [[a | e] s1]; cbn [fst snd] in *.
  - specialize (Hk a s1). destruct (fst (k a s1)); congruence.
  - exact Hc.
Qed.

(** The [try] block leaves the counter alone when it throws and at zero
    when it runs to its end. *)
Lemma step_try_resets_counter (env : Environment) (stepInfo : option AgentStepInfo) :
  resets_counter_on_return (step_try env stepInfo).
Proof.
  unfold step_try.
  apply resets_counter_bind; [apply keeps_counter_get | intros this].
  apply resets_counter_bind; [apply keeps_counter_external | intros state].
  apply resets_counter_bind; [apply keeps_counter_set_locals | intros _].
  apply resets_counter_bind; [apply keeps_counter_in_manager | intros _].
  apply resets_counter_bind; [apply keeps_counter_in_manager | intros inputMessages].
  apply resets_counter_bind; [apply keeps_counter_getNextAction | intros modelOutput].
  apply resets_counter_bind; [apply keeps_counter_set_locals | intros _].
  apply resets_counter_bind; [apply keeps_counter_external | intros _].
  apply resets_counter_bind; [apply keeps_counter_in_manager | intros _].
  apply resets_counter_bind; [apply keeps_counter_in_manager | intros _].
  apply resets_counter_bind; [apply keeps_counter_external | intros result].
  apply resets_counter_bind; [apply keeps_counter_set_locals | intros _].
  apply resets_counter_bind; [apply keeps_counter_set_lastResult | intros _].
  intros s. reflexivity.
Qed.

(** The telemetry loop does not touch the agent. *)
Lemma report_errors_state (env : Environment) (results : list ActionResult) (this : Agent) :
  snd (report_errors env results this) = this.
Proof.
  induction results as [| r rest IH]; cbn [report_errors]; [reflexivity |].
  unfold bind.
  destruct (truthy_string (error r)).
  - unfold external. destruct (_captureTelemetry env _); [exact IH | reflexivity].
  - exact IH.
Qed.

(** The [finally] block, once past its [return], changes the history of
    the agent at most. *)
Lemma finally_keeps_result_and_counter (env : Environment) (locals : Locals) (this : Agent) :
  let finally :=
    report_errors env (l_result locals) ;;
    match l_state locals with
    | Some state => _makeHistoryItem (l_modelOutput locals) state (l_result locals)
    | None => ret tt
    end in
  lastResult (snd (finally this)) = lastResult this
  /\ consecutiveFailures (snd (finally this)) = consecutiveFailures this.
Proof.
  cbn zeta. unfold bind.
  pose proof (report_errors_state env (l_result locals) this) as Hstate.
  destruct (report_errors env (l_result locals) this) as [[[] | e] this']; cbn [snd] in *;
    subst this'; [| split; reflexivity].
  destruct (l_state locals); split; reflexivity.
Qed.

Lemma step_state (env : Environment) (stepInfo : option AgentStepInfo) (this : Agent) :
  let '(_, (this', locals)) :=
    try_catch (step_try env stepInfo) (step_catch env)
      (this, initial_locals) in
  lastResult (snd (step env stepInfo this)) = lastResult this'
  /\ consecutiveFailures (snd (step env stepInfo this)) = consecutiveFailures this'.
Proof.
  unfold step.
  destruct (try_catch _ _ _) as [completion [this' locals]].
  destruct (l_result locals) as [| r rs] eqn:Hresult; [split; reflexivity |].
  pose proof (finally_keeps_result_and_counter env locals this') as Hfinally.
  cbn zeta in Hfinally. rewrite Hresult in Hfinally.
  cbn zeta.
  match type of Hfinally with
  | context [snd ?t] => destruct t as [[[] | e] this'']
  end; exact Hfinally.
Qed.

(** A step whose [try] block completes without exception leaves the
    counter at zero. *)
Lemma step_without_exception_resets_the_counter (env : Environment)
    (stepInfo : option AgentStepInfo) (this : Agent) :
  try_completion env stepInfo this = Returned tt ->
  consecutiveFailures (snd (step env stepInfo this)) = 0.
Proof.
  unfold try_completion. intros Htry.
  pose proof (step_state env stepInfo this) as Hstate.
  pose proof (step_try_resets_counter env stepInfo
                (this, initial_locals)) as Hreset.
  unfold try_catch in Hstate.
  destruct (step_try env stepInfo _) as [[[] | e] [this' locals]]; cbn [fst snd] in *;
    [| discriminate].
  destruct Hstate as [_ ->]. exact Hreset.
Qed.

(** Unless it reaches its call of [cutMessages], the handler returns one
    error result and adds one to the counter. *)
Lemma _handleStepError_without_retrim (env : Environment) (error : JSError) (this : Agent) :
  retrims error = false ->
  _handleStepError env error this
  = (Returned [{| Views.error := Some (_formatError error (debugEnabled env));
                  extractedContent := None; includeInMemory := Some true; isDone := None |}],
     set_consecutiveFailures (consecutiveFailures this + 1) this).
Proof.
  unfold retrims, _handleStepError. intros Hretrim.
  destruct (includes (JS.message error) "validation failed"); cbn [andb] in Hretrim.
  - rewrite Hretrim. reflexivity.
  - destruct (String.eqb (JS.name error) "RateLimitError"); reflexivity.
Qed.

(** A step whose [try] block throws an error that does not send the
    handler into [cutMessages] ends with exactly one error result as its
    result and with the counter one higher. *)
Lemma step_failure_is_recorded (env : Environment) (stepInfo : option AgentStepInfo)
    (this : Agent) (error : JSError) :
  try_completion env stepInfo this = Thrown error ->
  retrims error = false ->
  lastResult (snd (step env stepInfo this))
  = Some [{| Views.error := Some (_formatError error (debugEnabled env));
             extractedContent := None; includeInMemory := Some true; isDone := None |}]
  /\ consecutiveFailures (snd (step env stepInfo this)) = consecutiveFailures this + 1.
Proof.
  unfold try_completion. intros Htry Hretrim.
  pose proof (step_state env stepInfo this) as Hstate.
  pose proof (step_try_resets_counter env stepInfo
                (this, initial_locals)) as Hkeep.
  unfold try_catch in Hstate.
  destruct (step_try env stepInfo _) as [[[] | e] [this1 locals1]]; cbn [fst snd] in *;
    [discriminate |].
  injection Htry as ->.
  unfold step_catch, bind, in_agent in Hstate. cbn [fst snd] in Hstate.
  rewrite (_handleStepError_without_retrim env error this1 Hretrim) in Hstate.
  cbn in Hstate. destruct Hstate as [-> ->]. split; [reflexivity | lia].
Qed.

Lemma keeps_results_in_manager {A} (c : M MessageManager A) :
  keeps_results (in_agent (in_manager c)).
Proof.
  intros [this locals]. unfold in_agent, in_manager. cbn [fst snd].
  destruct (c (messageManager this)) as [o mm]. split; reflexivity.
Qed.

Lemma keeps_results_external {A} (o : Outcome A) : keeps_results (external o).
Proof. intros s. split; reflexivity. Qed.

Lemma keeps_results_get : keeps_results (in_agent get).
Proof. intros s. split; reflexivity. Qed.

Lemma keeps_results_getNextAction (env : Environment) (inputMessages : list Message) :
  keeps_results (in_agent (getNextAction env inputMessages)).
Proof.
  intros [this locals]. unfold in_agent, getNextAction, external, bind, get, ret. cbn [fst].
  destruct (llm_response env inputMessages); split; reflexivity.
Qed.

Lemma keeps_results_on_throw_bind {A B} (c : M (Agent * Locals) A)
    (k : A -> M (Agent * Locals) B) :
  keeps_results c -> (forall a, keeps_results_on_throw (k a)) ->
  keeps_results_on_throw (bind c k).
Proof.
  intros Hc Hk s. unfold bind. specialize (Hc s).
  destruct (c s) as [[a | e] s1]; cbn [fst snd] in *.
  - specialize (Hk a s1). revert Hk.
    destruct (fst (k a s1)); intros Hk; [exact I |].
    destruct Hc as [Hc1 Hc2], Hk as [Hk1 Hk2]. split; congruence.
  - exact Hc.
Qed.

(** The [try] block writes [result] and [lastResult] only after its last
    statement that can throw. *)
Lemma step_try_keeps_results_on_throw (env : Environment) (stepInfo : option AgentStepInfo) :
  keeps_results_on_throw (step_try env stepInfo).
Proof.
  unfold step_try.
  apply keeps_results_on_throw_bind; [apply keeps_results_get | intros this].
  apply keeps_results_on_throw_bind; [apply keeps_results_external | intros state].
  apply keeps_results_on_throw_bind; [intros s; split; reflexivity | intros _].
  apply keeps_results_on_throw_bind; [apply keeps_results_in_manager | intros _].
  apply keeps_results_on_throw_bind; [apply keeps_results_in_manager | intros inputMessages].
  apply keeps_results_on_throw_bind; [apply keeps_results_getNextAction | intros modelOutput].
  apply keeps_results_on_throw_bind; [intros s; split; reflexivity | intros _].
  apply keeps_results_on_throw_bind; [apply keeps_results_external | intros _].
  apply keeps_results_on_throw_bind; [apply keeps_results_in_manager | intros _].
  apply keeps_results_on_throw_bind; [apply keeps_results_in_manager | intros _].
  apply keeps_results_on_throw_bind; [apply keeps_results_external | intros result].
  intros s. exact I.
Qed.

(** When the handler reaches [cutMessages] and [cutMessages] throws, the
    handler throws, with the counter not yet incremented. *)
Lemma _handleStepError_with_failing_retrim (env : Environment) (error e : JSError)
    (this : Agent) :
  retrims error = true ->
  fst (cutMessages (set_maxInputTokens (maxInputTokens this - 500) (messageManager this)))
  = Thrown e ->
  fst (_handleStepError env error this) = Thrown e
  /\ lastResult (snd (_handleStepError env error this)) = lastResult this
  /\ consecutiveFailures (snd (_handleStepError env error this)) = consecutiveFailures this.
Proof.
  unfold retrims, _handleStepError. intros Hretrim Hcut.
  apply andb_prop in Hretrim as [-> ->].
  unfold bind, get, in_manager, modify. cbn [messageManager set_messageManager].
  destruct (cutMessages _) as [[[] | e'] mm]; cbn [fst] in Hcut; [discriminate |].
  injection Hcut as ->. repeat split.
Qed.

(** A step whose [try] block throws such an error, with [cutMessages]
    throwing in the handler, ends normally, records no result and leaves
    the counter where it was. *)
Lemma step_with_a_throwing_handler (env : Environment) (stepInfo : option AgentStepInfo)
    (this : Agent) (error e : JSError) :
  try_completion env stepInfo this = Thrown error ->
  retrims error = true ->
  fst (cutMessages
         (set_maxInputTokens
            (maxInputTokens (fst (snd (step_try env stepInfo (this, initial_locals)))) - 500)
            (messageManager (fst (snd (step_try env stepInfo (this, initial_locals)))))))
  = Thrown e ->
  fst (step env stepInfo this) = Returned tt
  /\ lastResult (snd (step env stepInfo this)) = lastResult this
  /\ consecutiveFailures (snd (step env stepInfo this)) = consecutiveFailures this.
Proof.
  unfold try_completion. intros Htry Hretrim Hcut.
  pose proof (step_try_resets_counter env stepInfo (this, initial_locals)) as Hcounter.
  pose proof (step_try_keeps_results_on_throw env stepInfo (this, initial_locals)) as Hresults.
  unfold step, try_catch.
  destruct (step_try env stepInfo (this, initial_locals)) as [[[] | e0] [this1 locals1]];
    cbn [fst snd] in *; [discriminate |].
  injection Htry as ->. destruct Hresults as [HlastResult Hlocal].
  destruct (_handleStepError_with_failing_retrim env error e this1 Hretrim Hcut)
    as (Hthrown & Hlast & Hcount).
  unfold step_catch, bind, in_agent. cbn [fst snd].
  destruct (_handleStepError env error this1) as [[rs | e1] this2]; cbn [fst snd] in *;
    [discriminate |].
  rewrite Hlocal. change (l_result initial_locals) with (@nil ActionResult).
  cbn [fst snd]. repeat split; congruence.
Qed.

(** The quotients of the samples, as a template literal renders them. *)
Lemma string_of_quotient_samples :
  map (fun pq => string_of_quotient (fst pq) (snd pq))
      [(13, 7); (1000, 1000); (1, 3); (1, 10000000); (5, 0)]
  = ["1.8571428571428572"; "1"; "0.3333333333333333"; "1e-7"; "Infinity"]%string.
Proof. vm_compute. reflexivity. Qed.

(** The message of the overflow error of the rejected step. *)
Lemma overflow_error_of_the_rejected_step :
  JS.message (overflow_error 13 7)
  = "Max token limit reached - history is too long - reduce the system prompt or task less tasks or remove old messages. proportion_to_remove: 1.8571428571428572"%string.
Proof. vm_compute. reflexivity. Qed.

(** C9, where the code departs from it: the browser context rejects
    [getState] with an error whose message holds both [validation failed]
    and [Max token limit reached]; the handler lowers the budget to 100
    and calls [cutMessages], which throws on the 113 tokens of the system
    and the task message; the [return] of the [finally] block then ends
    the step normally. The step leaves no result and the counter where it
    was. *)
Theorem step_with_a_failing_handler_records_nothing :
  try_completion (Samples.rejecting Samples.overflow_validation_error) None
    (Samples.new_agent 600)
  = Thrown Samples.overflow_validation_error
  /\ map (fun m => inputTokens (metadata m))
       (messages (MessageManager.history (messageManager Samples.agent_at_the_catch)))
     = [106; 7]
  /\ fst (_handleStepError (Samples.rejecting Samples.overflow_validation_error)
            Samples.overflow_validation_error Samples.agent_at_the_catch)
     = Thrown (overflow_error 13 7)
  /\ fst Samples.rejected_step = Returned tt
  /\ lastResult (snd Samples.rejected_step) = lastResult (Samples.new_agent 600)
  /\ lastResult (snd Samples.rejected_step) = None
  /\ consecutiveFailures (snd Samples.rejected_step)
     = consecutiveFailures (Samples.new_agent 600)
  /\ Agent.history (snd Samples.rejected_step) = []
  /\ MessageManager.maxInputTokens (messageManager (snd Samples.rejected_step)) = 100.
Proof. repeat split; vm_compute; reflexivity. Qed.

(** The rejected step, through the general statement. *)
Lemma rejected_step_records_nothing :
  fst Samples.rejected_step = Returned tt
  /\ lastResult (snd Samples.rejected_step) = lastResult (Samples.new_agent 600)
  /\ consecutiveFailures (snd Samples.rejected_step)
     = consecutiveFailures (Samples.new_agent 600).
Proof.
  apply (step_with_a_throwing_handler
           (Samples.rejecting Samples.overflow_validation_error) None
           (Samples.new_agent 600) Samples.overflow_validation_error
           (overflow_error 13 7));
    vm_compute; reflexivity.
Defined.

(** The same step with a rejection that the handler does not re-trim
    for. *)
Lemma step_with_a_plain_error_records_it :
  lastResult (snd (step (Samples.rejecting (Error "boom")) None (Samples.new_agent 600)))
  = Some [{| Views.error := Some "boom"; extractedContent := None;
             includeInMemory := Some true; isDone := None |}]
  /\ consecutiveFailures
       (snd (step (Samples.rejecting (Error "boom")) None (Samples.new_agent 600))) = 1.
Proof.
  apply (step_failure_is_recorded (Samples.rejecting (Error "boom")) None
           (Samples.new_agent 600) (Error "boom"));
    vm_compute; reflexivity.
Defined.

(** With every collaborator succeeding, the step still fails:
    [addStateMessage] throws, the handler records the [ReferenceError],
    and the controller is not reached. *)
Lemma cooperative_step_fails_at_the_state_message :
  try_completion Samples.cooperative None (Samples.new_agent 600)
  = Thrown (ReferenceError "AgentMessagePrompt is not defined")
  /\ consecutiveFailures (snd (step Samples.cooperative None (Samples.new_agent 600))) = 1.
Proof. split; vm_compute; reflexivity. Qed.

End Step.

(** ** Serialization and inline text in document order *)

Section DocumentOrder.
Import Dom DomOrder.

Lemma traverse_clickable_lines (includeAttributes : list string) (node : DOMBaseNode) :
  forall elements,
    traverse_clickable includeAttributes node elements
    = if has_text_node node
      then Thrown (text_node_failure includeAttributes)
      else Returned (elements ++ indexed_lines includeAttributes node).
Proof.
  induction node as [text visible | fields children IH] using DOMBaseNode_tree_ind;
    intros elements.
  - reflexivity.
  - cbn [traverse_clickable has_text_node]. unfold indexed_lines.
    cbn [element_nodes]. simpl (omap _ (_ :: _)).
    assert (Hgoal : forall acc,
      (fix each (cs : list DOMBaseNode) (elements0 : list string) :=
         match cs with
         | [] => Returned elements0
         | child :: cs' =>
             match traverse_clickable includeAttributes child elements0 with
             | Returned elements' => each cs' elements'
             | Thrown e => Thrown e
             end
         end) children acc
      = if (fix any (cs : list DOMBaseNode) : bool :=
              match cs with
              | [] => false
              | child :: cs' => (has_text_node child || any cs')%bool
              end) children
        then Thrown (text_node_failure includeAttributes)
        else Returned
               (acc ++ omap (indexed_line includeAttributes)
                         ((fix each (cs : list DOMBaseNode) : list DOMBaseNode :=
                             match cs with
                             | [] => []
                             | child :: cs' => element_nodes child ++ each cs'
                             end) children))).
    { induction IH as [| child rest Hchild _ IHrest]; intros acc.
      - cbn. rewrite app_nil_r. reflexivity.
      - rewrite Hchild. destruct (has_text_node child); cbn [orb]; [reflexivity |].
        rewrite IHrest. destruct (_ rest); [reflexivity |].
        unfold indexed_lines. rewrite omap_app, app_assoc. reflexivity. }
    rewrite Hgoal. destruct (_ children); [reflexivity |].
    unfold indexed_line at 1. destruct (highlightIndex fields); cbn [option_map app].
    + rewrite <- app_assoc. reflexivity.
    + reflexivity.
Qed.

(** The serializer returns exactly for the trees without text nodes, and
    then yields the lines of the indexed elements in document order; a
    reachable text node makes it throw. *)
Theorem clickableElementsToString_returns_without_text_nodes
    (includeAttributes : list string) (this : DOMBaseNode) :
  clickableElementsToString includeAttributes this
  = if has_text_node this
    then Thrown (text_node_failure includeAttributes)
    else Returned (join (String "010" EmptyString) (indexed_lines includeAttributes this)).
Proof.
  unfold clickableElementsToString. rewrite traverse_clickable_lines.
  destruct (has_text_node this); reflexivity.
Qed.

Lemma until_clickable_app (l1 l2 : list DOMBaseNode) :
  until_clickable (l1 ++ l2)
  = if existsb is_clickable l1 then until_clickable l1 else l1 ++ until_clickable l2.
Proof.
  induction l1 as [| n l1 IH]; cbn [app until_clickable existsb]; [reflexivity |].
  destruct (is_clickable n); cbn [orb]; [reflexivity |].
  rewrite IH. destruct (existsb is_clickable l1); reflexivity.
Qed.

Lemma until_clickable_none (l : list DOMBaseNode) :
  existsb is_clickable l = false -> until_clickable l = l.
Proof.
  induction l as [| n l IH]; cbn [existsb until_clickable]; [reflexivity |].
  destruct (is_clickable n); cbn [orb]; [discriminate |].
  intros Hnone. rewrite (IH Hnone). reflexivity.
Qed.

Lemma traverse_text_document_order (node : DOMBaseNode) :
  forall texts,
    traverse_text node texts
    = (existsb is_clickable (document_order node),
       texts ++ omap text_of (until_clickable (document_order node))).
Proof.
  induction node as [text visible | fields children IH] using DOMBaseNode_tree_ind;
    intros texts.
  - reflexivity.
  - cbn [traverse_text document_order until_clickable existsb is_clickable].
    destruct (isInteractive fields && bool_decide (highlightIndex fields <> None))%bool;
      cbn [orb].
    + cbn. rewrite app_nil_r. reflexivity.
    + simpl (omap _ (_ :: _)).
      generalize texts.
      induction IH as [| child rest Hchild _ IHrest]; intros acc.
      * cbn. rewrite app_nil_r. reflexivity.
      * rewrite Hchild, existsb_app, until_clickable_app.
        destruct (existsb is_clickable (document_order child)) eqn:Hnone; cbn [orb].
        -- reflexivity.
        -- rewrite IHrest, omap_app, app_assoc, (until_clickable_none _ Hnone).
           reflexivity.
Qed.

(** The inline text of an element is made of the texts that come, in
    document order, before the first interactive element with an index,
    joined by spaces and trimmed; the search for that first element starts
    at the element itself. *)
Theorem inline_text_stops_at_the_first_clickable (this : DOMBaseNode) :
  getAllTextTillNextClickableElement this
  = trim (join " " (omap text_of (until_clickable (document_order this)))).
Proof.
  unfold getAllTextTillNextClickableElement.
  rewrite traverse_text_document_order. reflexivity.
Qed.

End DocumentOrder.

(** ** History elements, positions in the tree and the search *)

Section HistoryRoundTrip.
Import Dom DomOrder HistoryTree HistorySearch.

(** The History Element of an element hashes as the element does, and
    matches it, whatever the digest. *)
Theorem history_element_matches_its_element (sha256_hex : string -> string)
    (domElement : LinkedElement) :
  _hashDomHistoryElement sha256_hex (convertDomElementToHistoryElement domElement)
  = _hashDomElement sha256_hex domElement
  /\ compareHistoryElementAndDomElement sha256_hex
       (convertDomElementToHistoryElement domElement) domElement = true.
Proof.
  split; [reflexivity |].
  unfold compareHistoryElementAndDomElement. rewrite !String.eqb_refl. reflexivity.
Qed.

Lemma element_at_full_tag_path (path : list nat) :
  forall node parent e tags,
    element_at node parent path = Some e ->
    tags_along node path = Some tags ->
    full_tag_path e
    = match parent with Some p => full_tag_path p | None => [] end ++ tags.
Proof.
  induction path as [| i path IH]; intros [text visible | fields children] parent e tags Hat Htags;
    cbn [element_at tags_along] in Hat, Htags; try discriminate.
  - injection Hat as <-. injection Htags as <-.
    unfold full_tag_path. destruct parent; cbn [root_to_element]; [| reflexivity].
    rewrite map_app. reflexivity.
  - destruct (nth_error children i) as [child |]; [| discriminate].
    destruct (tags_along child path) as [tags' |] eqn:Htags'; [| discriminate].
    injection Htags as <-.
    rewrite (IH _ _ _ _ Hat Htags'). cbn [full_tag_path].
    unfold full_tag_path at 1. destruct parent; cbn [root_to_element].
    + rewrite map_app, <- app_assoc. reflexivity.
    + reflexivity.
Qed.

Lemma tags_along_length (path : list nat) :
  forall node tags, tags_along node path = Some tags -> length tags = S (length path).
Proof.
  induction path as [| i path IH]; intros [text visible | fields children] tags Htags;
    cbn [tags_along] in Htags; try discriminate.
  - injection Htags as <-. reflexivity.
  - destruct (nth_error children i) as [child |]; [| discriminate].
    destruct (tags_along child path) as [tags' |] eqn:Htags'; [| discriminate].
    injection Htags as <-. cbn. rewrite (IH _ _ Htags'). reflexivity.
Qed.

Lemma element_at_tags_along (path : list nat) :
  forall node parent e,
    element_at node parent path = Some e -> exists tags, tags_along node path = Some tags.
Proof.
  induction path as [| i path IH]; intros [text visible | fields children] parent e Hat;
    cbn [element_at tags_along] in *; try discriminate.
  - eauto.
  - destruct (nth_error children i) as [child |]; [| discriminate].
    destruct (IH _ _ _ Hat) as [tags ->]. cbn. eauto.
Qed.

(** For the element found at a position of a snapshot, the recorded branch
    path holds the tags met on the way down from the root, the root's own
    tag left out: one entry per step of the position. *)
Theorem branch_path_follows_the_position (tree : DOMBaseNode) (path : list nat)
    (domElement : LinkedElement) :
  element_at tree None path = Some domElement ->
  option_map (fun tags => tl tags) (tags_along tree path)
  = Some (entireParentBranchPath (convertDomElementToHistoryElement domElement))
  /\ length (entireParentBranchPath (convertDomElementToHistoryElement domElement))
     = length path.
Proof.
  intros Hat.
  destruct (element_at_tags_along _ _ _ _ Hat) as [tags Htags].
  pose proof (element_at_full_tag_path _ _ _ _ _ Hat Htags) as Hfull.
  pose proof (tags_along_length _ _ _ Htags) as Hlen.
  rewrite full_tag_path_getParentBranchPath in Hfull. cbn [app] in Hfull.
  rewrite Htags. cbn [option_map convertDomElementToHistoryElement entireParentBranchPath].
  rewrite <- Hfull in *. cbn [tl length] in *. split; [reflexivity | lia].
Qed.

Lemma branch_path_of_the_second_child :
  option_map (fun tags => tl tags) (tags_along sample_page [0; 1]%nat)
  = Some ["body"; "button"].
Proof.
  destruct (element_at sample_page None [0; 1]%nat) as [e |] eqn:Hat;
    [| vm_compute in Hat; discriminate].
  rewrite (proj1 (branch_path_follows_the_position sample_page [0; 1]%nat e Hat)).
  vm_compute in Hat. injection Hat as <-. reflexivity.
Defined.

(** The search never descends: it returns the root when the root has an
    index and both hashes match, [null] when the root has no children,
    and otherwise raises a [ReferenceError] at the first child. *)
Theorem findHistoryElementInTree_looks_at_the_root_only (sha256_hex : string -> string)
    (domHistoryElement : DOMHistoryElement) (fields : ElementFields)
    (children : list DOMBaseNode) (parent : option LinkedElement) :
  findHistoryElementInTree sha256_hex domHistoryElement (DOMElementNode fields children) parent
  = if (bool_decide (highlightIndex fields <> None) &&
        compareHistoryElementAndDomElement sha256_hex domHistoryElement
          (Linked fields parent))%bool
    then Returned (Some (Linked fields parent))
    else match children with
         | [] => Returned None
         | _ :: _ => Thrown (ReferenceError "DOMElementNode is not defined")
         end.
Proof.
  unfold findHistoryElementInTree, compareHistoryElementAndDomElement.
  cbn [processNode].
  rewrite (String.eqb_sym (branchPathHash (_hashDomHistoryElement _ _))),
          (String.eqb_sym (attributesHash (_hashDomHistoryElement _ _))).
  rewrite <- andb_assoc.
  destruct (_ && _)%bool; [reflexivity |].
  destruct children; reflexivity.
Qed.

End HistoryRoundTrip.

(** ** What the dispatcher returns and throws *)

Section DispatcherResults.
Import Views Controller Messages.

Variable Browser World : Type.
Variable registry : gmap string (RegisteredAction Browser World).

Abbreviation act' := (Controller.act Browser World registry).
Abbreviation act_in_order' := (Controller.act_in_order Browser World registry).
Abbreviation multiAct_loop' := (Controller.multiAct_loop Browser World registry).
Abbreviation multiAct' := (Controller.multiAct Browser World registry).
Abbreviation executeAction' := (Controller.executeAction Browser World registry).

Lemma multiAct_loop_returned (actions : list Action) (browser : option Browser) :
  forall (acc results : list ActionResult) (m m' : Machine World),
    multiAct_loop' actions browser acc m = (Returned results, m') ->
    exists new,
      results = acc ++ new
      /\ act_in_order' (firstn (length new) actions) browser m = (Returned new, m')
      /\ (length new <= length actions)%nat
      /\ Forall (fun r => stops r = false) (removelast new)
      /\ ((length new < length actions)%nat -> exists r, last new = Some r /\ stops r = true).
Proof.
  induction actions as [| a rest IH]; intros acc results m m' Hrun;
    cbn [Controller.multiAct_loop] in Hrun.
  - injection Hrun as <- <-. exists []. rewrite app_nil_r. cbn.
    split; [reflexivity |]. split; [reflexivity |]. split; [lia |].
    split; [constructor | lia].
  - unfold bind at 1 in Hrun.
    destruct (act' a browser m) as [[r | e] m1] eqn:Hact; [| discriminate].
    destruct (truthy_string (error r) || truthy_bool (isDone r))%bool eqn:Hstop.
    + injection Hrun as <- <-. exists [r]. cbn [length firstn Controller.act_in_order].
      unfold bind. rewrite Hact. cbn.
      split; [reflexivity |]. split; [reflexivity |]. split; [lia |].
      split; [constructor |]. intros _. exists r. split; [reflexivity | exact Hstop].
    + destruct (IH _ _ _ _ Hrun) as (new & -> & Horder & Hlen & Hquiet & Hlast).
      exists (r :: new). cbn [length firstn Controller.act_in_order].
      unfold bind. rewrite Hact, Horder. rewrite <- app_assoc.
      split; [reflexivity |]. split; [reflexivity |]. split; [cbn; lia |]. split.
      * destruct new as [| r' new']; [constructor |].
        change (removelast (r :: r' :: new')) with (r :: removelast (r' :: new')).
        constructor; [exact Hstop | exact Hquiet].
      * intros Hshort. destruct Hlast as (r' & Hr' & Hstops); [cbn in *; lia |].
        exists r'. split; [| exact Hstops].
        destruct new as [| r0 new']; [discriminate | exact Hr'].
Qed.

(** Whenever [multiAct] returns, its results are those of the first
    actions of the list, run in order; no result but the last carries
    [error] or [isDone]; when the list was not run to its end, the last
    result does; and the actions handed to [act] are exactly that initial
    part of the list. *)
Theorem multiAct_returns_a_run_of_a_prefix (actions : list Action)
    (browser : option Browser) (results : list ActionResult) (m m' : Machine World) :
  multiAct' actions browser m = (Returned results, m') ->
  act_in_order' (firstn (length results) actions) browser m = (Returned results, m')
  /\ (length results <= length actions)%nat
  /\ Forall (fun r => stops r = false) (removelast results)
  /\ ((length results < length actions)%nat ->
      exists r, last results = Some r /\ stops r = true)
  /\ invoked m' = invoked m ++ firstn (length results) actions.
Proof.
  unfold Controller.multiAct. intros Hrun.
  destruct (multiAct_loop_returned _ _ _ _ _ _ Hrun) as (new & -> & Horder & Hlen & Hquiet & Hlast).
  cbn [app]. repeat split; try assumption.
  destruct (act_in_order_invoked _ _ _ _ _ _ _ _ Horder) as [Hlog _]. exact Hlog.
Qed.

Lemma multiAct_loop_thrown (actions : list Action) (browser : option Browser) :
  forall (acc : list ActionResult) (m m' : Machine World) (e : JSError),
    multiAct_loop' actions browser acc m = (Thrown e, m') ->
    exists (j : nat) (a : Action) (earlier : list ActionResult) (m1 : Machine World),
      nth_error actions j = Some a
      /\ act_in_order' (firstn j actions) browser m = (Returned earlier, m1)
      /\ Forall (fun r => stops r = false) earlier
      /\ act' a browser m1 = (Thrown e, m').
Proof.
  induction actions as [| a rest IH]; intros acc m m' e Hrun;
    cbn [Controller.multiAct_loop] in Hrun.
  - discriminate.
  - unfold bind at 1 in Hrun.
    destruct (act' a browser m) as [[r | e0] m1] eqn:Hact.
    + destruct (truthy_string (error r) || truthy_bool (isDone r))%bool eqn:Hstop;
        [discriminate |].
      destruct (IH _ _ _ _ Hrun) as (j & a' & earlier & m2 & Hnth & Horder & Hquiet & Hthrow).
      exists (S j), a', (r :: earlier), m2. cbn [nth_error firstn Controller.act_in_order].
      unfold bind. rewrite Hact, Horder.
      split; [exact Hnth |]. split; [reflexivity |].
      split; [constructor; [exact Hstop | exact Hquiet] | exact Hthrow].
    + injection Hrun as <- <-. exists 0%nat, a, [], m. cbn.
      split; [reflexivity |]. split; [reflexivity |]. split; [constructor | exact Hact].
Qed.

(** Whenever [multiAct] throws, the exception is the one of some action of
    the list; the actions before it were run in order and none of their
    results carries [error] or [isDone]; no later action was handed to
    [act]. *)
Theorem multiAct_throws_at_one_action (actions : list Action)
    (browser : option Browser) (m m' : Machine World) (e : JSError) :
  multiAct' actions browser m = (Thrown e, m') ->
  exists (j : nat) (a : Action) (earlier : list ActionResult) (m1 : Machine World),
    nth_error actions j = Some a
    /\ act_in_order' (firstn j actions) browser m = (Returned earlier, m1)
    /\ Forall (fun r => stops r = false) earlier
    /\ act' a browser m1 = (Thrown e, m')
    /\ invoked m' = invoked m ++ firstn (S j) actions.
Proof.
  unfold Controller.multiAct. intros Hrun.
  destruct (multiAct_loop_thrown _ _ _ _ _ _ Hrun)
    as (j & a & earlier & m1 & Hnth & Horder & Hquiet & Hthrow).
  exists j, a, earlier, m1. repeat split; try assumption.
  destruct (act_in_order_invoked _ _ _ _ _ _ _ _ Horder) as [Hlog _].
  rewrite (act_invoked _ _ _ _ _ _ _ _ Hthrow), Hlog, <- app_assoc. f_equal.
  clear -Hnth. revert actions Hnth.
  induction j as [| j IH]; intros [| a0 actions] Hnth; cbn in Hnth; try discriminate.
  - injection Hnth as ->. reflexivity.
  - cbn [firstn app]. f_equal. apply (IH _ Hnth).
Qed.


(** The handler of the background script never throws: it answers with
    the result of the action, or with the message of the exception; for
    a name that is not registered, with the message of [executeAction]
    for it. *)
Theorem handleActionMessage_always_answers (message : ActionMessage)
    (sender_tab : option Browser) (m : Machine World) :
  (exists response m', handleActionMessage Browser World registry message sender_tab m
                       = (Returned response, m'))
  /\ (registry !! msg_action message = None ->
      fst (handleActionMessage Browser World registry message sender_tab m)
      = Returned (ErrorResponse
                    (if inherited (msg_action message)
                     then "Error executing action " +:+ msg_action message +:+ ": " +:+
                          "action.paramModel is not a constructor"
                     else "Action " +:+ msg_action message +:+ " not found")))
  /\ (forall e m1,
        act' {| actionName := msg_action message; params := msg_params message |}
          sender_tab m = (Thrown e, m1) ->
        handleActionMessage Browser World registry message sender_tab m
        = (Returned (ErrorResponse (JS.message e)), m1))
  /\ (forall r m1,
        act' {| actionName := msg_action message; params := msg_params message |}
          sender_tab m = (Returned r, m1) ->
        handleActionMessage Browser World registry message sender_tab m
        = (Returned (ResultResponse r), m1)).
Proof.
  unfold handleActionMessage, try_catch, bind, ret.
  split; [| split; [| split]].
  - destruct (act' _ sender_tab m) as [[r | e] m1]; eauto.
  - intros Hunknown.
    unfold Controller.act, record_call, in_world, bind, modify. cbn.
    unfold Controller.executeAction. rewrite Hunknown.
    destruct (inherited (msg_action message)); reflexivity.
  - intros e m1 ->. reflexivity.
  - intros r m1 ->. reflexivity.
Qed.

End DispatcherResults.

(** The sample click and [done], read back from a returned [multiAct]. *)
Lemma multiAct_sample_is_a_run_of_a_prefix :
  Controller.act_in_order unit Z Samples.named_registry
    (firstn 2 [Samples.click 1; Samples.say_done "ok"; Samples.click 2]) (Some tt)
    Samples.fresh_machine
  = (Returned [Samples.result_with "clicked"; Samples.result_done "ok"],
     Controller.mkMachine 1 [Samples.click 1; Samples.say_done "ok"])
  /\ (2 <= 3)%nat
  /\ Forall (fun r => Controller.stops r = false)
       (removelast [Samples.result_with "clicked"; Samples.result_done "ok"])
  /\ ((2 < 3)%nat ->
      exists r, last [Samples.result_with "clicked"; Samples.result_done "ok"] = Some r
                /\ Controller.stops r = true)
  /\ [Samples.click 1; Samples.say_done "ok"]
     = [] ++ firstn 2 [Samples.click 1; Samples.say_done "ok"; Samples.click 2].
Proof.
  apply (multiAct_returns_a_run_of_a_prefix unit Z Samples.named_registry
           [Samples.click 1; Samples.say_done "ok"; Samples.click 2] (Some tt)
           [Samples.result_with "clicked"; Samples.result_done "ok"]
           Samples.fresh_machine
           (Controller.mkMachine 1 [Samples.click 1; Samples.say_done "ok"])).
  vm_compute. reflexivity.
Defined.

(** The planner's object-valued click throws after a first click has
    run. *)
Lemma multiAct_sample_throws_at_the_second_action :
  exists (j : nat) (a : Controller.Action) (earlier : list Views.ActionResult)
         (m1 : Controller.Machine Z),
    nth_error [Samples.click 1; Samples.planner_click] j = Some a
    /\ Controller.act_in_order unit Z Samples.named_registry
         (firstn j [Samples.click 1; Samples.planner_click]) (Some tt) Samples.fresh_machine
       = (Returned earlier, m1)
    /\ Forall (fun r => Controller.stops r = false) earlier
    /\ Controller.act unit Z Samples.named_registry a (Some tt) m1
       = (Thrown (Error "Error executing action click_element: Invalid parameters for action click_element"),
          Controller.mkMachine 1 [Samples.click 1; Samples.planner_click])
    /\ Controller.invoked (Controller.mkMachine 1 [Samples.click 1; Samples.planner_click])
       = Controller.invoked Samples.fresh_machine
         ++ firstn (S j) [Samples.click 1; Samples.planner_click].
Proof.
  apply (multiAct_throws_at_one_action unit Z Samples.named_registry).
  vm_compute. reflexivity.
Defined.


(** ** The parameter models *)

Section ParameterModels.
Import Views Controller Messages.

Lemma parameter_models_reject_objects (URL_parses : string -> bool) (model : ParamModel)
    (entries : list (string * JSValue)) :
  In model (parameter_models URL_parses) ->
  validate model (construct model (JSObject entries)) = false.
Proof.
  intros Hin. cbn in Hin.
  repeat (destruct Hin as [<- | Hin]; [reflexivity |]). destruct Hin.
Qed.

(** [executeAction] builds the model instance from the whole [params]
    value, which lands in the first field. Hence every model class of
    controller/views.js rejects an object-valued [params], the shape
    [{ index: 3 }] of the planner's actions, and [executeAction] throws
    for it under every registry entry that uses one of these models;
    [InputTextAction], whose second field stays [undefined], rejects every
    value. *)
Theorem object_parameters_never_validate (URL_parses : string -> bool) :
  (forall model entries,
     In model (parameter_models URL_parses) ->
     validate model (construct model (JSObject entries)) = false)
  /\ (forall value, validate InputTextAction (construct InputTextAction value) = false)
  /\ (forall (Browser World : Type) (registry : gmap string (RegisteredAction Browser World))
             actionName entry entries browser w,
        registry !! actionName = Some entry ->
        In (paramModel entry) (parameter_models URL_parses) ->
        executeAction Browser World registry actionName (JSObject entries) browser w
        = (Thrown (Error ("Error executing action " +:+ actionName +:+ ": " +:+
                          "Invalid parameters for action " +:+ actionName)), w)).
Proof.
  split; [| split].
  - intros model entries. apply parameter_models_reject_objects.
  - intros value. cbn. rewrite andb_false_r. reflexivity.
  - intros Browser World registry actionName entry entries browser w Hentry Hmodel.
    unfold executeAction. rewrite Hentry. unfold try_catch.
    rewrite (parameter_models_reject_objects _ _ _ Hmodel). reflexivity.
Qed.

End ParameterModels.

(** ** The message history is append-only *)

Section AppendOnly.
Import Views Dom DomOrder MessageManager HistoryOrder.

Lemma append_empty (s : string) : s +:+ "" = s.
Proof.
  induction s as [| c s IH]; [reflexivity |].
  change (String c (s +:+ "") = String c s). f_equal. exact IH.
Qed.

Lemma append_associative (s1 s2 s3 : string) : (s1 +:+ s2) +:+ s3 = s1 +:+ (s2 +:+ s3).
Proof.
  induction s1 as [| c s1 IH]; [reflexivity |].
  change (String c ((s1 +:+ s2) +:+ s3) = String c (s1 +:+ (s2 +:+ s3))). f_equal. exact IH.
Qed.

(** The image loop, in closed form. *)
Lemma drop_images_items (IMG : Z) (items : list ContentPart) :
  forall text lastTokens total,
    drop_images IMG items text lastTokens total
    = (text +:+ text_items items,
       lastTokens - IMG * image_items items,
       total - IMG * image_items items).
Proof.
  induction items as [| [t | u] items IH]; intros text lastTokens total;
    cbn [drop_images text_items image_items].
  - rewrite append_empty. f_equal; [f_equal |]; lia.
  - rewrite IH, append_associative. reflexivity.
  - rewrite IH. f_equal; [f_equal |]; lia.
Qed.

Lemma without_images_parts (IMG : Z) (r : ManagedMessage) (items : list ContentPart) :
  content (message r) = Parts items ->
  without_images IMG r
  = {| message := {| role := role (message r); content := Text (text_items items) |};
       metadata := {| inputTokens := inputTokens (metadata r) - IMG * image_items items |} |}.
Proof.
  intros Hcontent. unfold without_images. rewrite Hcontent, drop_images_items. reflexivity.
Qed.

Lemma without_images_idempotent (IMG : Z) (r : ManagedMessage) :
  without_images IMG (without_images IMG r) = without_images IMG r.
Proof.
  destruct (content (message r)) as [s | items] eqn:Hcontent.
  - unfold without_images. rewrite Hcontent, Hcontent. reflexivity.
  - rewrite (without_images_parts IMG r items Hcontent). reflexivity.
Qed.

Lemma without_images_role (IMG : Z) (r : ManagedMessage) :
  role (message (without_images IMG r)) = role (message r).
Proof.
  destruct (content (message r)) as [s | items] eqn:Hcontent.
  - unfold without_images. rewrite Hcontent. reflexivity.
  - rewrite (without_images_parts IMG r items Hcontent). reflexivity.
Qed.

Lemma same_or_without_images_trans (IMG : Z) (a b c : ManagedMessage) :
  same_or_without_images IMG a b -> same_or_without_images IMG b c ->
  same_or_without_images IMG a c.
Proof.
  unfold same_or_without_images. intros [-> | ->] [-> | ->]; auto.
  right. apply without_images_idempotent.
Qed.

Lemma kept_trans (IMG : Z) (l1 l2 : list ManagedMessage) :
  Forall2 (same_or_without_images IMG) l1 l2 ->
  forall l3, Forall2 (same_or_without_images IMG) l2 l3 ->
             Forall2 (same_or_without_images IMG) l1 l3.
Proof.
  induction 1 as [| a b l1 l2 Hab _ IH]; intros l3 H23;
    inversion H23 as [| b' c l2' l3' Hbc Hrest]; subst; constructor.
  - exact (same_or_without_images_trans IMG a b c Hab Hbc).
  - apply IH. exact Hrest.
Qed.

Lemma kept_refl (IMG : Z) (l : list ManagedMessage) :
  Forall2 (same_or_without_images IMG) l l.
Proof. induction l; constructor; [left; reflexivity | assumption]. Qed.

Lemma extends_refl (IMG : Z) (l : list ManagedMessage) : extends IMG l l.
Proof. exists l, []. split; [symmetry; apply app_nil_r | apply kept_refl]. Qed.

Lemma extends_app (IMG : Z) (l tail : list ManagedMessage) : extends IMG l (l ++ tail).
Proof. exists l, tail. split; [reflexivity | apply kept_refl]. Qed.

Lemma extends_trans (IMG : Z) (l1 l2 l3 : list ManagedMessage) :
  extends IMG l1 l2 -> extends IMG l2 l3 -> extends IMG l1 l3.
Proof.
  intros (kept1 & tail1 & -> & H1) (kept2 & tail2 & -> & H2).
  apply List.Forall2_app_inv_l in H2 as (k2a & k2b & Ha & Hb & ->).
  exists k2a, (k2b ++ tail2). split; [symmetry; apply app_assoc |].
  exact (kept_trans IMG _ _ H1 _ Ha).
Qed.

Lemma extends_length (IMG : Z) (before after : list ManagedMessage) :
  extends IMG before after -> (length before <= length after)%nat.
Proof.
  intros (kept & tail & -> & Hkept). apply Forall2_length in Hkept.
  rewrite length_app. lia.
Qed.

Lemma extends_roles (IMG : Z) (before after : list ManagedMessage) :
  extends IMG before after ->
  map (fun r => role (message r)) before
  = take (length before) (map (fun r => role (message r)) after).
Proof.
  intros (kept & tail & -> & Hkept).
  rewrite map_app, (Forall2_length _ _ _ Hkept).
  rewrite <- (length_map (fun r => role (message r)) kept), take_app_length.
  induction Hkept as [| a b l1 l2 Hab _ IH]; [reflexivity |].
  cbn [map]. f_equal; [| exact IH].
  destruct Hab as [-> | ->]; [reflexivity | symmetry; apply without_images_role].
Qed.

Lemma set_history_same (this : MessageManager) : set_history (history this) this = this.
Proof. destruct this. reflexivity. Qed.

Lemma set_history_nothing (this : MessageManager) :
  set_history {| messages := messages (history this) ++ [];
                 totalTokens := totalTokens (history this) + 0 |} this
  = this.
Proof.
  rewrite app_nil_r, Z.add_0_r. destruct this as [? ? h ? ? ? ? ? ? ?]; destruct h; reflexivity.
Qed.

Lemma set_last_snoc {A} (l : list A) (a x : A) : set_last (l ++ [a]) x = l ++ [x].
Proof.
  unfold set_last. destruct (l ++ [a]) as [| b l'] eqn:Hl.
  - destruct l; discriminate.
  - rewrite <- Hl, removelast_last. reflexivity.
Qed.

(** What [cutMessages] leaves: the manager as it was, or the manager with
    the images of its newest record dropped. *)
Lemma cutMessages_state (this : MessageManager) :
  snd (cutMessages this) = this
  \/ exists init lastMsg items,
       messages (history this) = init ++ [lastMsg]
       /\ content (message lastMsg) = Parts items
       /\ snd (cutMessages this)
          = set_history
              {| messages := init ++ [without_images (IMG_TOKENS this) lastMsg];
                 totalTokens := totalTokens (history this)
                                - IMG_TOKENS this * image_items items |} this.
Proof.
  unfold cutMessages.
  destruct (_ <=? 0); [left; reflexivity |].
  destruct (last (messages (history this))) as [lastMsg |] eqn:Hlast; [| left; reflexivity].
  assert (Hstep : forall (lastMsg' : ManagedMessage) (this' : MessageManager),
             snd (
               if totalTokens (history this') - maxInputTokens this' <=? 0
               then (Returned tt, this') else
               let tokens := inputTokens (metadata lastMsg') in
               if proportion_exceeds
                    (totalTokens (history this) - maxInputTokens this) tokens
               then (Thrown (overflow_error
                               (totalTokens (history this) - maxInputTokens this) tokens), this')
               else
               let content :=
                 match content (message lastMsg') with Text s => s | Parts _ => "" end in
               let charactersToRemove :=
                 (slen content * (totalTokens (history this) - maxInputTokens this)) / tokens in
               let newContent := slice content 0 (- charactersToRemove) in
               (_removeMessage default_index ;;
                _addMessageWithTokens {| role := user; content := Text newContent |}) this')
             = this').
  { intros lastMsg' this'.
    destruct (_ <=? 0); [reflexivity |].
    cbn zeta. destruct (proportion_exceeds _ _); [reflexivity |].
    unfold bind. rewrite _removeMessage_default_throws. reflexivity. }
  destruct (content (message lastMsg)) as [s | items] eqn:Hcontent.
  - left. apply Hstep.
  - right. apply last_Some in Hlast as [init Hmessages].
    exists init, lastMsg, items. split; [exact Hmessages |]. split; [exact Hcontent |].
    rewrite drop_images_items. rewrite Hstep.
    rewrite (without_images_parts _ _ _ Hcontent), Hmessages, set_last_snoc. reflexivity.
Qed.

(** [cutMessages] removes no record and shortens no text: it leaves the
    manager as it was, or (over budget, with an array-valued newest
    content) replaces the newest record by the record with the same role,
    the concatenated text items as content and [IMG_TOKENS] less per image
    item, and takes the same amount off the total. Whenever it returns,
    the total is within the budget; within the budget it does nothing. *)
Theorem cutMessages_changes_the_newest_record_at_most (this : MessageManager) :
  (snd (cutMessages this) = this
   \/ exists init lastMsg items,
        messages (history this) = init ++ [lastMsg]
        /\ content (message lastMsg) = Parts items
        /\ snd (cutMessages this)
           = set_history
               {| messages :=
                    init ++ [{| message := {| role := role (message lastMsg);
                                              content := Text (text_items items) |};
                                metadata :=
                                  {| inputTokens := inputTokens (metadata lastMsg)
                                                    - IMG_TOKENS this * image_items items |} |}];
                  totalTokens := totalTokens (history this)
                                 - IMG_TOKENS this * image_items items |} this)
  /\ (fst (cutMessages this) = Returned tt ->
      totalTokens (history (snd (cutMessages this)))
      <= maxInputTokens (snd (cutMessages this)))
  /\ (totalTokens (history this) <= maxInputTokens this ->
      cutMessages this = (Returned tt, this)).
Proof.
  split; [| split].
  - destruct (cutMessages_state this) as [Hsame | (init & lastMsg & items & Hm & Hc & Hstate)];
      [left; exact Hsame | right].
    exists init, lastMsg, items. rewrite <- (without_images_parts _ _ _ Hc). auto.
  - apply cutMessages_returns_within_budget.
  - intros Hfits. unfold cutMessages.
    destruct (Z.leb_spec (totalTokens (history this) - maxInputTokens this) 0);
      [reflexivity | lia].
Qed.

Lemma grows_ret {A} (a : A) : grows (ret a).
Proof.
  intros this. exists (history this). split; [symmetry; apply set_history_same |].
  apply extends_refl.
Qed.

Lemma grows_unchanged {A} (c : M MessageManager A) :
  (forall this, snd (c this) = this) -> grows c.
Proof.
  intros Hc this. exists (history this). rewrite Hc.
  split; [symmetry; apply set_history_same | apply extends_refl].
Qed.

Lemma grows_bind {A B} (c : M MessageManager A) (k : A -> M MessageManager B) :
  grows c -> (forall a, grows (k a)) -> grows (bind c k).
Proof.
  intros Hc Hk this. unfold bind.
  destruct (Hc this) as (h1 & Hstate1 & Hext1).
  destruct (c this) as [[a | e] this1]; cbn [snd] in Hstate1; subst this1.
  - destruct (Hk a (set_history h1 this)) as (h2 & Hstate2 & Hext2).
    exists h2. split; [rewrite Hstate2; reflexivity |].
    exact (extends_trans _ _ _ _ Hext1 Hext2).
  - exists h1. split; [reflexivity | exact Hext1].
Qed.

Lemma _addMessageWithTokens_grows (m : Message) : grows (_addMessageWithTokens m).
Proof. intros this. eexists. split; [reflexivity |]. apply extends_app. Qed.

Lemma _removeLastStateMessage_state (this : MessageManager) :
  snd (_removeLastStateMessage this) = this.
Proof.
  unfold _removeLastStateMessage.
  destruct (last (messages (history this))) as [lastRecord |]; [| reflexivity].
  destruct (_ && _)%bool; reflexivity.
Qed.

Lemma cutMessages_grows : grows cutMessages.
Proof.
  intros this.
  destruct (cutMessages_state this) as [-> | (init & lastMsg & items & Hm & Hc & ->)].
  - exists (history this). split; [symmetry; apply set_history_same | apply extends_refl].
  - eexists. split; [reflexivity |]. cbn [messages]. rewrite Hm.
    exists (init ++ [without_images (IMG_TOKENS this) lastMsg]), [].
    split; [symmetry; apply app_nil_r |].
    apply Forall2_app; [apply kept_refl |].
    constructor; [right; reflexivity | constructor].
Qed.

Lemma getMessages_grows : grows getMessages.
Proof.
  unfold getMessages. apply grows_bind; [apply cutMessages_grows | intros _].
  apply grows_bind; [apply grows_unchanged; reflexivity | intros this'; apply grows_ret].
Qed.

Lemma remember_results_grows (rest : list ActionResult) :
  forall result, grows (remember_results rest result).
Proof.
  induction rest as [| r rest IH]; intros result; cbn [remember_results].
  - apply grows_ret.
  - destruct (truthy_bool (includeInMemory r)); [| apply IH].
    apply grows_bind; [| intros _].
    { destruct (truthy_string (extractedContent r));
        [apply _addMessageWithTokens_grows | apply grows_ret]. }
    apply grows_bind; [| intros _; apply IH].
    destruct (truthy_string (error r)); [| apply grows_ret].
    apply grows_bind; [apply grows_unchanged; reflexivity | intros this'].
    apply _addMessageWithTokens_grows.
Qed.

Lemma remember_results_returns (rest : list ActionResult) :
  forall result this, exists r, fst (remember_results rest result this) = Returned r.
Proof.
  induction rest as [| r rest IH]; intros result this; cbn [remember_results].
  - eexists. reflexivity.
  - destruct (truthy_bool (includeInMemory r)); [| apply IH].
    unfold bind, get, ret.
    destruct (truthy_string (extractedContent r)), (truthy_string (error r)); cbn; apply IH.
Qed.

(** The loop over the previous results, as [addStateMessage] runs it. *)
Lemma remembering_grows (result : option (list ActionResult)) :
  grows (match result with
         | Some results => remember_results results result
         | None => ret result
         end).
Proof. destruct result; [apply remember_results_grows | apply grows_ret]. Qed.

Lemma addStateMessage_grows (state : BrowserState) (result : option (list ActionResult))
    (stepInfo : option AgentStepInfo) : grows (addStateMessage state result stepInfo).
Proof.
  unfold addStateMessage.
  apply grows_bind; [apply remembering_grows | intros result'].
  apply grows_bind; [apply grows_unchanged; reflexivity | intros this'].
  apply grows_unchanged. reflexivity.
Qed.

Lemma after_grows (op : Operation) (this : MessageManager) :
  keeps_records op = true ->
  exists h,
    after op this = set_history h this
    /\ extends (IMG_TOKENS this) (messages (history this)) (messages h).
Proof.
  intros Hop. destruct op; cbn [after].
  - apply addStateMessage_grows.
  - apply _addMessageWithTokens_grows.
  - apply (grows_unchanged _ _removeLastStateMessage_state).
  - cbn in Hop. unfold _removeMessage, element. rewrite Hop. cbn [snd].
    exists (history this). split; [symmetry; apply set_history_same | apply extends_refl].
  - apply _addMessageWithTokens_grows.
  - apply cutMessages_grows.
  - apply getMessages_grows.
Qed.

Lemma run_grows (ops : list Operation) :
  forall this,
    forallb keeps_records ops = true ->
    exists h,
      run ops this = set_history h this
      /\ extends (IMG_TOKENS this) (messages (history this)) (messages h).
Proof.
  induction ops as [| op ops IH]; intros this Hops.
  - exists (history this). split; [symmetry; apply set_history_same | apply extends_refl].
  - cbn [forallb] in Hops. apply andb_prop in Hops as [Hop Hops].
    destruct (after_grows op this Hop) as (h1 & Hstate1 & Hext1).
    destruct (IH (after op this) Hops) as (h2 & Hstate2 & Hext2).
    exists h2. unfold run in *. cbn [fold_left]. rewrite Hstate2, Hstate1.
    split; [reflexivity |]. rewrite Hstate1 in Hext2.
    exact (extends_trans _ _ _ _ Hext1 Hext2).
Qed.

(** No sequence of the operations of the manager ([_removeMessage] with
    an index inside the array apart, which the source never calls) removes
    or reorders a record: every record stays in its place, as it was or
    with its images dropped, and new records come behind. So the history
    never gets shorter, the roles of the old records stay, and nothing but
    the history is written. *)
Theorem history_is_append_only (ops : list Operation) (this : MessageManager) :
  forallb keeps_records ops = true ->
  extends (IMG_TOKENS this) (messages (history this)) (messages (history (run ops this)))
  /\ (length (messages (history this)) <= length (messages (history (run ops this))))%nat
  /\ map (fun r => role (message r)) (messages (history this))
     = take (length (messages (history this)))
         (map (fun r => role (message r)) (messages (history (run ops this))))
  /\ run ops this = set_history (history (run ops this)) this.
Proof.
  intros Hops. destruct (run_grows ops this Hops) as (h & -> & Hext). cbn [history].
  split; [exact Hext |].
  split; [exact (extends_length _ _ _ Hext) |].
  split; [exact (extends_roles _ _ _ Hext) | reflexivity].
Qed.

(** The model output, a trim that drops the screenshot, the removal of
    the state message and a read, on the manager with a screenshot. *)
Lemma history_of_the_screenshot_manager_is_kept :
  extends 800 (messages (history Samples.screenshot_manager))
    (messages (history (run [AddModelOutput "{}"; CutMessages; RemoveLastStateMessage;
                             GetMessages] Samples.screenshot_manager)))
  /\ (3 <= 4)%nat
  /\ [system; user; user] = take 3 [system; user; user; assistant]
  /\ run [AddModelOutput "{}"; CutMessages; RemoveLastStateMessage; GetMessages]
       Samples.screenshot_manager
     = set_history
         (history (run [AddModelOutput "{}"; CutMessages; RemoveLastStateMessage;
                        GetMessages] Samples.screenshot_manager))
         Samples.screenshot_manager.
Proof.
  apply (history_is_append_only
           [AddModelOutput "{}"; CutMessages; RemoveLastStateMessage; GetMessages]
           Samples.screenshot_manager).
  reflexivity.
Defined.

(** ** What [addStateMessage] leaves *)

(** The state that the loop over the previous results leaves, in closed
    form. *)
Lemma remember_results_state (rest : list ActionResult) :
  forall result this,
    snd (remember_results rest result this)
    = set_history
        {| messages := messages (history this)
                       ++ map (record_of this) (remembered (maxErrorLength this) rest);
           totalTokens := totalTokens (history this)
                          + tokens_of this (remembered (maxErrorLength this) rest) |}
        this.
Proof.
  induction rest as [| r rest IH]; intros result this; cbn [remember_results remembered].
  - cbn [ret snd map tokens_of fold_right]. symmetry. apply set_history_nothing.
  - destruct (truthy_bool (includeInMemory r)); [| rewrite IH; reflexivity].
    unfold bind at 1.
    destruct (truthy_string (extractedContent r));
      destruct (truthy_string (error r));
      cbn [fst snd app ret _addMessageWithTokens get bind];
      unfold bind, get; cbn [fst snd _addMessageWithTokens];
      rewrite IH; cbn [history messages totalTokens set_history maxErrorLength
                       map tokens_of fold_right app];
      unfold record_of, tokens_of; cbn [map fold_right];
      rewrite <- ?app_assoc, <- ?Z.add_assoc; cbn [app];
      rewrite ?app_nil_r, ?Z.add_0_r; reflexivity.
Qed.

Lemma addStateMessage_throws (state : BrowserState)
    (result : option (list ActionResult)) (stepInfo : option AgentStepInfo)
    (this : MessageManager) :
  fst (addStateMessage state result stepInfo this)
  = Thrown (ReferenceError "AgentMessagePrompt is not defined").
Proof.
  unfold addStateMessage, bind.
  destruct result as [results |]; [| reflexivity].
  destruct (remember_results_returns results (Some results) this) as [r Hreturns].
  destruct (remember_results results (Some results) this) as [[result' | e] this0];
    cbn [fst] in Hreturns; [reflexivity | discriminate].
Qed.

(** [addStateMessage] never returns and never adds a state message: for
    every state and every manager it throws the [ReferenceError] of the
    unbound [AgentMessagePrompt]. Before that it has added, for each
    previous result with [includeInMemory], its [extractedContent] and
    its [error], cut to its last [maxErrorLength] characters, as [user]
    messages with their token counts; without such results the manager
    is left as it was. *)
Theorem addStateMessage_remembers_and_throws (state : BrowserState)
    (result : option (list ActionResult)) (stepInfo : option AgentStepInfo)
    (this : MessageManager) :
  fst (addStateMessage state result stepInfo this)
  = Thrown (ReferenceError "AgentMessagePrompt is not defined")
  /\ snd (addStateMessage state result stepInfo this)
     = set_history
         {| messages :=
              messages (history this)
              ++ map (record_of this)
                   (remembered (maxErrorLength this) (default [] result));
            totalTokens :=
              totalTokens (history this)
              + tokens_of this (remembered (maxErrorLength this) (default [] result)) |}
         this
  /\ (remembered (maxErrorLength this) (default [] result) = [] ->
      snd (addStateMessage state result stepInfo this) = this)
  /\ Forall (fun m => role m = user)
       (remembered (maxErrorLength this) (default [] result)).
Proof.
  assert (Hstate :
    snd (addStateMessage state result stepInfo this)
    = set_history
        {| messages :=
             messages (history this)
             ++ map (record_of this)
                  (remembered (maxErrorLength this) (default [] result));
           totalTokens :=
             totalTokens (history this)
             + tokens_of this (remembered (maxErrorLength this) (default [] result)) |}
        this).
  { unfold addStateMessage, bind.
    destruct result as [results |].
    - pose proof (remember_results_state results (Some results) this) as Hloop.
      destruct (remember_results results (Some results) this) as [[result' | e] this0];
        cbn [snd] in Hloop; subst this0; reflexivity.
    - cbn [default remembered map tokens_of fold_right ret get fst snd throw
           AgentMessagePrompt_identifier].
      symmetry. apply set_history_nothing. }
  split; [| split; [exact Hstate | split]].
  - apply addStateMessage_throws.
  - intros Hnone. rewrite Hstate, Hnone. apply set_history_nothing.
  - generalize (default [] result). intros results.
    induction results as [| r results IH]; cbn [remembered]; [constructor |].
    destruct (truthy_bool (includeInMemory r)); [| exact IH].
    destruct (truthy_string (extractedContent r)), (truthy_string (error r));
      cbn [app]; repeat constructor; exact IH.
Qed.

End AppendOnly.

(** ** What a step reaches and what it records *)

Section StepReach.
Import Views Dom MessageManager HistoryOrder Agent AgentRun.

Lemma bind_both {S A B} (c : M S A) (k k' : A -> M S B) (s : S) :
  (forall a s1, c s = (Returned a, s1) ->
                k a s1 = k' a s1 /\ exists e, fst (k a s1) = Thrown e) ->
  bind c k s = bind c k' s /\ exists e, fst (bind c k s) = Thrown e.
Proof.
  intros Hk. unfold bind.
  destruct (c s) as [[a | e] s1]; [apply Hk; reflexivity | split; eauto].
Qed.

Lemma bind_stops {S A B} (c : M S A) (k k' : A -> M S B) (s : S) (e : JSError) :
  fst (c s) = Thrown e ->
  bind c k s = bind c k' s /\ exists e, fst (bind c k s) = Thrown e.
Proof.
  unfold bind. destruct (c s) as [[a | e0] s1]; cbn [fst]; [discriminate |].
  intros _. split; eauto.
Qed.

(** The [try] block ends at [addStateMessage] at the latest, and does not
    depend on the controller. *)
Lemma step_try_stops (env env' : Environment) (stepInfo : option AgentStepInfo)
    (this : Agent) :
  getState env' = getState env ->
  llm_response env' = llm_response env ->
  _saveConversation env' = _saveConversation env ->
  step_try env stepInfo (this, initial_locals) = step_try env' stepInfo (this, initial_locals)
  /\ exists e, fst (step_try env stepInfo (this, initial_locals)) = Thrown e.
Proof.
  intros Hstate Hllm Hsave. unfold step_try, getNextAction.
  rewrite Hstate, Hllm, Hsave.
  apply bind_both. intros this0 s1 H1.
  unfold in_agent, get in H1. cbn [fst snd] in H1. injection H1 as <- <-.
  apply bind_both. intros state s2 H2.
  unfold external in H2. injection H2 as _ <-.
  apply bind_both. intros [] s3 H3.
  unfold set_locals, modify in H3. injection H3 as <-. cbn [fst snd].
  apply (bind_stops _ _ _ _ (ReferenceError "AgentMessagePrompt is not defined")).
  unfold in_agent, in_manager. cbn [fst snd].
  pose proof (addStateMessage_throws state (lastResult this) stepInfo (messageManager this))
    as Hthrows.
  destruct (addStateMessage state (lastResult this) stepInfo (messageManager this))
    as [o mm1].
  cbn [fst] in *. exact Hthrows.
Qed.

Lemma _handleStepError_counter (env : Environment) (error : JSError) (this : Agent) :
  consecutiveFailures (snd (_handleStepError env error this))
  = match fst (_handleStepError env error this) with
    | Returned _ => consecutiveFailures this + 1
    | Thrown _ => consecutiveFailures this
    end.
Proof.
  unfold _handleStepError.
  destruct (includes (JS.message error) "validation failed").
  - destruct (includes (JS.message error) "Max token limit reached").
    + unfold bind, get, in_manager, modify, increment_failures, ret.
      cbn [messageManager set_messageManager].
      destruct (cutMessages _) as [[[] | e] mm]; reflexivity.
    + reflexivity.
  - destruct (String.eqb (JS.name error) "RateLimitError"); reflexivity.
Qed.

Lemma report_errors_with_multiAct
    (controller : list Controller.Action -> Outcome (list ActionResult))
    (env : Environment) (results : list ActionResult) :
  report_errors (with_multiAct controller env) results = report_errors env results.
Proof.
  induction results as [| r rest IH]; [reflexivity |].
  cbn [report_errors]. rewrite IH. reflexivity.
Qed.

(** A step of an agent whose manager holds at least the system and the
    task message, as the constructor leaves it, never completes its [try]
    block: [controller.multiAct] is not reached, so the step is the same
    under every controller, and the failure counter is never reset; it
    stays or goes up by one. *)
Theorem step_never_reaches_the_controller (env : Environment)
    (stepInfo : option AgentStepInfo) (this : Agent) :
  (2 <= length (messages (MessageManager.history (messageManager this))))%nat ->
  (exists e, try_completion env stepInfo this = Thrown e)
  /\ (forall controller,
        step (with_multiAct controller env) stepInfo this = step env stepInfo this)
  /\ (consecutiveFailures (snd (step env stepInfo this)) = consecutiveFailures this
      \/ consecutiveFailures (snd (step env stepInfo this)) = consecutiveFailures this + 1).
Proof.
  intros Hlen. split; [| split].
  - exact (proj2 (step_try_stops env env stepInfo this eq_refl eq_refl eq_refl)).
  - intros controller.
    destruct (step_try_stops env (with_multiAct controller env) stepInfo this
                eq_refl eq_refl eq_refl) as [Hsame _].
    unfold step, try_catch. rewrite <- Hsame.
    destruct (step_try env stepInfo (this, initial_locals)) as [[[] | e] [this1 locals1]].
    + rewrite report_errors_with_multiAct. reflexivity.
    + change (step_catch (with_multiAct controller env) e) with (step_catch env e).
      destruct (step_catch env e (this1, locals1)) as [completion [this2 locals2]].
      rewrite report_errors_with_multiAct. reflexivity.
  - destruct (step_try_stops env env stepInfo this eq_refl eq_refl eq_refl)
      as [_ [e Hthrown]].
    pose proof (step_state env stepInfo this) as Hstate.
    pose proof (step_try_resets_counter env stepInfo (this, initial_locals)) as Hcounter.
    unfold try_catch in Hstate.
    destruct (step_try env stepInfo (this, initial_locals)) as [[[] | e0] [this1 locals1]];
      cbn [fst snd] in *; [discriminate |].
    unfold step_catch, bind, in_agent in Hstate. cbn [fst snd] in Hstate.
    pose proof (_handleStepError_counter env e0 this1) as Hhandler.
    destruct (_handleStepError env e0 this1) as [[rs | e1] this2];
      cbn [fst snd] in *; destruct Hstate as [_ ->]; cbn; [right | left]; lia.
Qed.

(** The first step of the sample agent, every collaborator succeeding. *)
Lemma first_step_never_reaches_the_controller :
  (exists e, try_completion Samples.cooperative None (Samples.new_agent 600) = Thrown e)
  /\ (forall controller,
        step (with_multiAct controller Samples.cooperative) None (Samples.new_agent 600)
        = step Samples.cooperative None (Samples.new_agent 600))
  /\ (consecutiveFailures (snd (step Samples.cooperative None (Samples.new_agent 600)))
      = consecutiveFailures (Samples.new_agent 600)
      \/ consecutiveFailures (snd (step Samples.cooperative None (Samples.new_agent 600)))
         = consecutiveFailures (Samples.new_agent 600) + 1).
Proof.
  apply (step_never_reaches_the_controller Samples.cooperative None (Samples.new_agent 600)).
  vm_compute. lia.
Defined.

Lemma keeps_history_bind {A B} (c : M (Agent * Locals) A) (k : A -> M (Agent * Locals) B) :
  keeps_history c -> (forall a, keeps_history (k a)) -> keeps_history (bind c k).
Proof.
  intros Hc Hk s. unfold bind. specialize (Hc s).
  destruct (c s) as [[a | e] s1]; cbn [fst snd] in *; [| exact Hc].
  rewrite (Hk a s1). exact Hc.
Qed.

Lemma keeps_history_in_manager {A} (c : M MessageManager A) :
  keeps_history (in_agent (in_manager c)).
Proof.
  intros [this locals]. unfold in_agent, in_manager. cbn [fst].
  destruct (c (messageManager this)) as [o mm]. reflexivity.
Qed.

Lemma keeps_history_getNextAction (env : Environment) (inputMessages : list Message) :
  keeps_history (in_agent (getNextAction env inputMessages)).
Proof.
  intros [this locals]. unfold in_agent, getNextAction, external, bind, get, ret. cbn [fst].
  destruct (llm_response env inputMessages); reflexivity.
Qed.

Lemma step_try_keeps_history (env : Environment) (stepInfo : option AgentStepInfo) :
  keeps_history (step_try env stepInfo).
Proof.
  unfold step_try.
  apply keeps_history_bind; [intros s; reflexivity | intros this].
  apply keeps_history_bind; [intros s; reflexivity | intros state].
  apply keeps_history_bind; [intros s; reflexivity | intros _].
  apply keeps_history_bind; [apply keeps_history_in_manager | intros _].
  apply keeps_history_bind; [apply keeps_history_in_manager | intros inputMessages].
  apply keeps_history_bind; [apply keeps_history_getNextAction | intros modelOutput].
  apply keeps_history_bind; [intros s; reflexivity | intros _].
  apply keeps_history_bind; [intros s; reflexivity | intros _].
  apply keeps_history_bind; [apply keeps_history_in_manager | intros _].
  apply keeps_history_bind; [apply keeps_history_in_manager | intros _].
  apply keeps_history_bind; [intros s; reflexivity | intros result].
  apply keeps_history_bind; [intros s; reflexivity | intros _].
  apply keeps_history_bind; [intros s; reflexivity | intros _].
  intros s. reflexivity.
Qed.

Lemma records_on_return_bind {A B} (c : M (Agent * Locals) A)
    (k : A -> M (Agent * Locals) B) :
  (forall a, records_on_return (k a)) -> records_on_return (bind c k).
Proof.
  intros Hk s. unfold bind.
  destruct (c s) as [[a | e] s1]; cbn [fst snd]; [apply Hk | exact I].
Qed.

Lemma step_try_records_on_return (env : Environment) (stepInfo : option AgentStepInfo) :
  records_on_return (step_try env stepInfo).
Proof.
  unfold step_try.
  do 11 (apply records_on_return_bind; intros ?).
  intros s. reflexivity.
Qed.

Lemma _handleStepError_history (env : Environment) (error : JSError) (this : Agent) :
  Agent.history (snd (_handleStepError env error this)) = Agent.history this.
Proof.
  unfold _handleStepError.
  destruct (includes (JS.message error) "validation failed").
  - destruct (includes (JS.message error) "Max token limit reached").
    + unfold bind, get, in_manager, modify, increment_failures, ret.
      cbn [messageManager set_messageManager].
      destruct (cutMessages _) as [[[] | e] mm]; reflexivity.
    + reflexivity.
  - destruct (String.eqb (JS.name error) "RateLimitError"); reflexivity.
Qed.

(** Where the [try] and [catch] blocks leave a step. *)
Lemma step_before_finally (env : Environment) (stepInfo : option AgentStepInfo)
    (this : Agent) :
  let '(completion, (this', locals)) :=
    try_catch (step_try env stepInfo) (step_catch env) (this, initial_locals) in
  Agent.history this' = Agent.history this
  /\ (l_result locals = []
      \/ (lastResult this' = Some (l_result locals) /\ completion = Returned tt)).
Proof.
  unfold try_catch.
  pose proof (step_try_keeps_history env stepInfo (this, initial_locals)) as Hhistory.
  pose proof (step_try_records_on_return env stepInfo (this, initial_locals)) as Hrecords.
  pose proof (step_try_keeps_results_on_throw env stepInfo (this, initial_locals)) as Hkeeps.
  destruct (step_try env stepInfo (this, initial_locals)) as [[[] | e] [this1 locals1]];
    cbn [fst snd] in *.
  - split; [exact Hhistory | right; split; [exact Hrecords | reflexivity]].
  - destruct Hkeeps as [_ Hlocal].
    unfold step_catch, bind, in_agent. cbn [fst snd].
    pose proof (_handleStepError_history env e this1) as Hhandler.
    destruct (_handleStepError env e this1) as [[rs | e1] this2]; cbn [fst snd] in *.
    + unfold set_locals, modify. cbn.
      split; [congruence | right; split; reflexivity].
    + split; [congruence | left; exact Hlocal].
Qed.

(** A step appends at most one item to the run history. When it appends
    one, the step has ended normally, the item carries the non-empty
    result of the step, and that result is [lastResult]. *)
Theorem step_appends_at_most_one_history_item (env : Environment)
    (stepInfo : option AgentStepInfo) (this : Agent) :
  Agent.history (snd (step env stepInfo this)) = Agent.history this
  \/ exists item,
       Agent.history (snd (step env stepInfo this)) = Agent.history this ++ [item]
       /\ (0 < length (result item))%nat
       /\ lastResult (snd (step env stepInfo this)) = Some (result item)
       /\ fst (step env stepInfo this) = Returned tt.
Proof.
  pose proof (step_before_finally env stepInfo this) as Hbefore.
  unfold step.
  destruct (try_catch _ _ _) as [completion [this' locals]].
  destruct Hbefore as [Hhistory Hresult].
  destruct (l_result locals) as [| r rs] eqn:Hlocal; [left; exact Hhistory |].
  destruct Hresult as [Hempty | [Hlast Hcompletion]]; [discriminate |].
  unfold bind.
  pose proof (report_errors_state env (r :: rs) this') as Hreport.
  destruct (report_errors env (r :: rs) this') as [[[] | e] this'']; cbn [snd] in Hreport;
    subst this''; [| left; exact Hhistory].
  destruct (l_state locals) as [state |]; [| left; exact Hhistory].
  right. eexists. cbn. rewrite Hhistory.
  split; [reflexivity |]. cbn. split; [lia |]. split; [exact Hlast | exact Hcompletion].
Qed.

End StepReach.

(** ** The browser context *)

Section Context.
Import BrowserContext.

Variable World : Type.
Variable chrome : Chrome World.

Abbreviation Session' := (Session World).

Lemma transition_consistent (this this' : BrowserContext) :
  transition this this' ->
  consistent this -> consistent this' /\ config this' = config this.
Proof.
  intros Hstep [Hcurrent Hservice].
  destruct Hstep; (split; [split | reflexivity]);
    cbn [currentTabId tabs cdp config set_cdp].
  - exact Hcurrent.
  - reflexivity.
  - intros t [= <-]. rewrite lookup_insert_eq. eauto.
  - reflexivity.
  - discriminate.
  - congruence.
Qed.

Lemma reached_consistent (this this' : BrowserContext) :
  rtc transition this this' ->
  consistent this -> consistent this' /\ config this' = config this.
Proof.
  induction 1 as [this | this mid this' Hstep _ IH]; intros Hok; [auto |].
  destruct (transition_consistent _ _ Hstep Hok) as [Hmid Hconfig].
  destruct (IH Hmid) as [Hfinal Hconfig']. split; [exact Hfinal | congruence].
Qed.

Lemma moves_bind {A B} (c : M Session' A) (k : A -> M Session' B) :
  moves World c -> (forall a, moves World (k a)) -> moves World (bind c k).
Proof.
  intros Hc Hk s. unfold bind. specialize (Hc s).
  destruct (c s) as [[a | e] s1]; cbn [snd] in *; [| exact Hc].
  etransitivity; [exact Hc | apply Hk].
Qed.

Lemma moves_still {A} (c : M Session' A) :
  (forall s, context (snd (c s)) = context s) -> moves World c.
Proof. intros Hc s. rewrite Hc. reflexivity. Qed.

Lemma call_context {A} (c : Call) (oracle : M World A) (s : Session') :
  context (snd (call World c oracle s)) = context s.
Proof. unfold call. destruct (oracle (outside s)) as [o w]. reflexivity. Qed.

Lemma moves_call {A} (c : Call) (oracle : M World A) : moves World (call World c oracle).
Proof. apply moves_still. apply call_context. Qed.

Lemma moves_on_cdp {A} (method : string) (k : M Session' A) :
  moves World k -> moves World (on_cdp World method k).
Proof.
  intros Hk. unfold on_cdp. apply moves_bind; [apply moves_still; reflexivity |].
  intros this. destruct (cdp this); [exact Hk | apply moves_still; reflexivity].
Qed.

Lemma update_context (f : BrowserContext -> BrowserContext) (s : Session') :
  update World f s
  = (Returned tt, {| context := f (context s); outside := outside s; calls := calls s |}).
Proof. reflexivity. Qed.

Lemma bind_update {B} (f : BrowserContext -> BrowserContext) (k : unit -> M Session' B)
    (s : Session') :
  bind (update World f) k s
  = k tt {| context := f (context s); outside := outside s; calls := calls s |}.
Proof. reflexivity. Qed.

Lemma bind_read {B} (k : BrowserContext -> M Session' B) (s : Session') :
  bind (read World) k s = k (context s) s.
Proof. reflexivity. Qed.

Lemma bind_call_context {A B} (c : Call) (oracle : M World A) (k : A -> M Session' B)
    (s : Session') :
  (forall a s', context (snd (k a s')) = context s') ->
  context (snd (bind (call World c oracle) k s)) = context s.
Proof.
  intros Hk. unfold bind.
  pose proof (call_context c oracle s) as Hcall.
  destruct (call World c oracle s) as [[a | e] s']; cbn [snd] in *; [| exact Hcall].
  rewrite Hk. exact Hcall.
Qed.

(** [initialize] leaves the context with a debugger service, and, once
    [attach] has returned, with the tab as the current and a known tab. *)
Lemma initialize_context_by_attach (tabId : Z) (s : Session') :
  context (snd (initialize World chrome tabId s))
  = match fst (cdp_attach World chrome tabId (outside s)) with
    | Returned _ =>
        {| config := config (context s); cdp := true; currentTabId := Some tabId;
           tabs := <[tabId := {| tab_url := ""; tab_title := "" |}]> (tabs (context s)) |}
    | Thrown _ => if cdp (context s) then context s else set_cdp true (context s)
    end.
Proof.
  unfold initialize. rewrite bind_update.
  unfold bind at 1, call at 1. cbn [outside context calls].
  destruct (cdp_attach World chrome tabId (outside s)) as [[[] | e] w1];
    [| reflexivity].
  cbv beta iota. rewrite bind_update. cbn [outside context calls fst].
  rewrite bind_call_context.
  - cbn [context]. destruct (cdp (context s)) eqn:Hcdp; cbn; [rewrite Hcdp |]; reflexivity.
  - intros _ s3. apply bind_call_context. intros _ s4. apply bind_call_context.
    intros _ s5. rewrite bind_read. apply bind_call_context. intros _ s6. reflexivity.
Qed.

Lemma initialize_context (tabId : Z) (s : Session') :
  context (snd (initialize World chrome tabId s))
  = (if cdp (context s) then context s else set_cdp true (context s))
  \/ context (snd (initialize World chrome tabId s))
     = {| config := config (context s); cdp := true; currentTabId := Some tabId;
          tabs := <[tabId := {| tab_url := ""; tab_title := "" |}]> (tabs (context s)) |}.
Proof.
  rewrite initialize_context_by_attach.
  destruct (fst (cdp_attach World chrome tabId (outside s))); [right | left]; reflexivity.
Qed.

Lemma moves_initialize (tabId : Z) : moves World (initialize World chrome tabId).
Proof.
  intros s. destruct (initialize_context tabId s) as [-> | ->].
  - destruct (cdp (context s)); [reflexivity | apply rtc_once; constructor].
  - apply rtc_once. constructor.
Qed.

Lemma moves_switchToTab (tabId : Z) : moves World (switchToTab World chrome tabId).
Proof.
  unfold switchToTab. apply moves_bind; [apply moves_still; reflexivity | intros this].
  destruct (bool_decide _); [apply moves_still; reflexivity |].
  apply moves_bind; [apply moves_on_cdp, moves_call | intros _].
  apply moves_bind; [apply moves_initialize | intros _]. apply moves_call.
Qed.

Lemma moves_createNewTab (url : string) : moves World (createNewTab World chrome url).
Proof.
  unfold createNewTab. apply moves_bind; [apply moves_call | intros tab].
  apply moves_bind; [apply moves_on_cdp, moves_call | intros _].
  destruct tab as [id |]; [| apply moves_still; reflexivity].
  apply moves_bind; [apply moves_initialize | intros _]. apply moves_still. reflexivity.
Qed.

Lemma saveCookies_context (s : Session') :
  context (snd (saveCookies World chrome s)) = context s.
Proof.
  unfold saveCookies, bind at 1, read at 1. cbn [fst snd].
  destruct (cookiesFile (config (context s))) as [file |]; [| reflexivity].
  destruct (String.eqb file ""); [reflexivity |].
  unfold bind, on_cdp, bind, read. cbn [fst snd].
  destruct (cdp (context s)); [| reflexivity].
  pose proof (call_context (SendCommand "Network.getAllCookies" NoParams)
                (cdp_sendCommand World chrome "Network.getAllCookies" NoParams) s) as Hcall.
  destruct (call World _ _ s) as [[[| cookies] | e] s1]; cbn [snd] in *;
    [exact Hcall | | exact Hcall].
  rewrite call_context. exact Hcall.
Qed.

Lemma set_cookies_context (cookies : list Cookie) :
  forall s : Session', context (snd (set_cookies World chrome cookies s)) = context s.
Proof.
  induction cookies as [| cookie rest IH]; intros s; cbn [set_cookies]; [reflexivity |].
  unfold bind, on_cdp, bind, read. cbn [fst snd].
  destruct (cdp (context s)); [| reflexivity].
  pose proof (call_context (SendCommand "Network.setCookie" (CookieParams cookie))
                (cdp_sendCommand World chrome "Network.setCookie" (CookieParams cookie)) s)
    as Hcall.
  destruct (call World _ _ s) as [[reply | e] s1]; cbn [snd] in *; [| exact Hcall].
  rewrite IH. exact Hcall.
Qed.

Lemma loadCookies_context (s : Session') :
  context (snd (loadCookies World chrome s)) = context s.
Proof.
  unfold loadCookies, bind at 1, read at 1. cbn [fst snd].
  destruct (cookiesFile (config (context s))) as [file |]; [| reflexivity].
  destruct (String.eqb file ""); [reflexivity |].
  unfold bind.
  pose proof (call_context (StorageGet file) (storage_get World chrome file) s) as Hcall.
  destruct (call World _ _ s) as [[[[| cookie rest] |] | e] s1]; cbn [snd] in *;
    try exact Hcall.
  rewrite set_cookies_context. exact Hcall.
Qed.

(** [close] clears the context exactly when it returns; when it throws,
    which it can only with a debugger service, the context is as before. *)
Lemma close_context (s : Session') :
  match fst (close World chrome s) with
  | Returned _ =>
      context (snd (close World chrome s))
      = {| config := config (context s); cdp := false; currentTabId := None; tabs := ∅ |}
  | Thrown _ =>
      context (snd (close World chrome s)) = context s /\ cdp (context s) = true
  end.
Proof.
  destruct (close World chrome s) as [o s'] eqn:Hclose. cbn [fst snd].
  unfold close in Hclose. rewrite bind_read in Hclose.
  destruct (cdp (context s)) eqn:Hcdp.
  - unfold bind at 1 in Hclose. unfold bind at 1 in Hclose.
    pose proof (saveCookies_context s) as Hsave.
    destruct (saveCookies World chrome s) as [[[] | e] s1]; cbn [fst snd] in *.
    + unfold bind at 1, on_cdp in Hclose. rewrite bind_read, Hsave, Hcdp in Hclose.
      pose proof (call_context Detach (cdp_detach World chrome) s1) as Hdetach.
      destruct (call World Detach _ s1) as [[[] | e] s2]; cbn [fst snd] in *.
      * rewrite !update_context in Hclose. injection Hclose as <- <-.
        cbn. rewrite Hdetach, Hsave. reflexivity.
      * injection Hclose as <- <-. split; [congruence | reflexivity].
    + injection Hclose as <- <-. split; [exact Hsave | reflexivity].
  - unfold bind, ret in Hclose. rewrite update_context in Hclose.
    injection Hclose as <- <-. cbn. rewrite Hcdp. reflexivity.
Qed.

Lemma moves_close : moves World (close World chrome).
Proof.
  intros s. pose proof (close_context s) as Hclose.
  destruct (fst (close World chrome s)).
  - rewrite Hclose. apply rtc_once. constructor.
  - destruct Hclose as [-> _]. reflexivity.
Qed.

Lemma moves_perform (op : Operation) : moves World (perform World chrome op).
Proof.
  destruct op; cbn [perform].
  - apply moves_initialize.
  - apply moves_switchToTab.
  - apply moves_bind; [apply moves_createNewTab | intros _; apply moves_still; reflexivity].
  - apply moves_still, saveCookies_context.
  - apply moves_still, loadCookies_context.
  - apply moves_close.
Qed.

Lemma run_reaches (ops : list Operation) :
  forall s : Session', rtc transition (context s) (context (run World chrome ops s)).
Proof.
  induction ops as [| op ops IH]; intros s; [reflexivity |].
  unfold run in *. cbn [fold_left].
  etransitivity; [apply (moves_perform op s) | apply IH].
Qed.

(** Whatever methods are called on a context after its construction, in
    whatever order, and however the debugger, the tabs and the storage
    answer, returning or throwing: the current tab is a known tab, a
    context with a current or a known tab has a debugger service, and the
    configuration is the one given to the constructor. *)
Theorem context_stays_consistent (configuration : Config) (w : World)
    (ops : list Operation) :
  consistent (context (run World chrome ops (fresh World configuration w)))
  /\ (is_Some (currentTabId (context (run World chrome ops (fresh World configuration w)))) ->
      cdp (context (run World chrome ops (fresh World configuration w))) = true)
  /\ config (context (run World chrome ops (fresh World configuration w))) = configuration.
Proof.
  assert (Hfresh : consistent (context (fresh World configuration w))).
  { split; [discriminate | intros Htabs; destruct Htabs; reflexivity]. }
  destruct (reached_consistent _ _ (run_reaches ops (fresh World configuration w)) Hfresh)
    as [[Hcurrent Hservice] Hconfig].
  split; [split; assumption |]. split; [| exact Hconfig].
  intros [t Ht]. apply Hservice. destruct (Hcurrent t Ht) as [info Hinfo].
  intros Hempty. rewrite Hempty, lookup_empty in Hinfo. discriminate.
Qed.

Lemma calls_after_call {A B} (c : Call) (oracle : M World A) (k : A -> M Session' B)
    (s s' : Session') (b : B) (rest : list Call) (P : Session' -> Prop) :
  bind (call World c oracle) k s = (Returned b, s') ->
  (forall a s1, context s1 = context s -> calls s1 = calls s ++ [c] ->
                k a s1 = (Returned b, s') -> calls s' = (calls s ++ [c]) ++ rest /\ P s') ->
  calls s' = calls s ++ c :: rest /\ P s'.
Proof.
  unfold bind, call. destruct (oracle (outside s)) as [[a | e] w]; [| discriminate].
  intros Hk Hrest.
  destruct (Hrest a {| context := context s; outside := w; calls := calls s ++ [c] |}
              eq_refl eq_refl Hk) as [Hcalls HP].
  split; [| exact HP]. rewrite Hcalls, <- app_assoc. reflexivity.
Qed.

(** A returned [initialize] has made its five calls in order and left
    the tab as the current tab. *)
Lemma initialize_returned (tabId : Z) (s s' : Session') :
  initialize World chrome tabId s = (Returned tt, s') ->
  calls s' = calls s ++ initialize_calls (context s) tabId
  /\ context s'
     = {| config := config (context s); cdp := true; currentTabId := Some tabId;
          tabs := <[tabId := {| tab_url := ""; tab_title := "" |}]> (tabs (context s)) |}.
Proof.
  unfold initialize, initialize_calls. rewrite bind_update. intros Hrun.
  apply (calls_after_call _ _ _ _ _ _ _
           (fun s' => context s'
                      = {| config := config (context s); cdp := true;
                           currentTabId := Some tabId;
                           tabs := <[tabId := {| tab_url := ""; tab_title := "" |}]>
                                     (tabs (context s)) |}) Hrun).
  clear Hrun. cbn [context calls]. intros [] s1 Hcontext1 Hcalls1 Hrun.
  rewrite bind_update in Hrun.
  assert (Hcontext2 :
    {| config := config (context s1); cdp := cdp (context s1); currentTabId := Some tabId;
       tabs := <[tabId := {| tab_url := ""; tab_title := "" |}]> (tabs (context s1)) |}
    = {| config := config (context s); cdp := true; currentTabId := Some tabId;
         tabs := <[tabId := {| tab_url := ""; tab_title := "" |}]> (tabs (context s)) |}).
  { rewrite Hcontext1. destruct (cdp (context s)) eqn:Hcdp; cbn; [rewrite Hcdp |];
      reflexivity. }
  rewrite Hcontext2 in Hrun. rewrite <- Hcalls1.
  set (s2 := {| context := _; outside := outside s1; calls := calls s1 |}) in Hrun.
  change (calls s1) with (calls s2).
  change {| config := config (context s); cdp := true; currentTabId := Some tabId;
            tabs := <[tabId := {| tab_url := ""; tab_title := "" |}]> (tabs (context s)) |}
    with (context s2).
  change (config (context s)) with (config (context s2)).
  clearbody s2. clear - Hrun.
  apply (calls_after_call _ _ _ _ _ _ _ (fun s' => context s' = context s2) Hrun). clear Hrun.
  intros _ s3 Hcontext3 Hcalls3 Hrun. rewrite <- Hcalls3, <- Hcontext3.
  apply (calls_after_call _ _ _ _ _ _ _ (fun s' => context s' = context s3) Hrun). clear Hrun.
  intros _ s4 Hcontext4 Hcalls4 Hrun. rewrite <- Hcalls4, <- Hcontext4.
  apply (calls_after_call _ _ _ _ _ _ _ (fun s' => context s' = context s4) Hrun). clear Hrun.
  intros _ s5 Hcontext5 Hcalls5 Hrun. rewrite <- Hcalls5, <- Hcontext5.
  rewrite bind_read in Hrun.
  apply (calls_after_call _ _ _ _ _ _ _ (fun s' => context s' = context s5) Hrun). clear Hrun.
  intros _ s6 Hcontext6 Hcalls6 [= <-].
  split; [rewrite app_nil_r; exact Hcalls6 | exact Hcontext6].
Qed.

(** When [switchToTab] returns for a tab other than the current one, it
    has detached, attached to the tab, enabled the three domains, set the
    device metrics and activated the tab, in this order and with nothing
    in between; the tab is then the current tab, its entry is blank, and
    the other known tabs are kept. There was a debugger service before. *)
Theorem switchToTab_returns_after_the_whole_protocol (tabId : Z) (s s' : Session') :
  switchToTab World chrome tabId s = (Returned tt, s') ->
  currentTabId (context s) <> Some tabId ->
  cdp (context s) = true
  /\ calls s'
     = calls s ++ Detach :: initialize_calls (context s) tabId ++ [TabsUpdate tabId]
  /\ context s'
     = {| config := config (context s); cdp := true; currentTabId := Some tabId;
          tabs := <[tabId := {| tab_url := ""; tab_title := "" |}]> (tabs (context s)) |}.
Proof.
  intros Hrun Hother. unfold switchToTab, bind at 1, read at 1 in Hrun. cbn [fst snd] in Hrun.
  rewrite bool_decide_eq_false_2 in Hrun by exact Hother.
  unfold bind at 1, on_cdp, bind at 1, read in Hrun. cbn [fst snd] in Hrun.
  destruct (cdp (context s)) eqn:Hcdp; [| discriminate]. split; [reflexivity |].
  pose proof (call_context Detach (cdp_detach World chrome) s) as Hcontext1.
  assert (Hcalls1 : calls (snd (call World Detach (cdp_detach World chrome) s))
                    = calls s ++ [Detach]).
  { unfold call. destruct (cdp_detach World chrome (outside s)). reflexivity. }
  destruct (call World Detach _ s) as [[[] | e] s1]; cbn [snd] in *; [| discriminate].
  unfold bind at 1 in Hrun.
  destruct (initialize World chrome tabId s1) as [[[] | e] s2] eqn:Hinit; [| discriminate].
  apply initialize_returned in Hinit as [Hcalls2 Hcontext2].
  unfold call in Hrun. destruct (tabs_update World chrome tabId (outside s2)) as [o w].
  injection Hrun as -> <-. cbn [calls context].
  rewrite Hcalls2, Hcalls1, Hcontext2, Hcontext1, <- !app_assoc. split; reflexivity.
Qed.

(** [close] clears the context exactly when it returns: then there is
    no debugger service, no current tab and no known tab. When it throws,
    in [saveCookies] or in [detach], the context is left as it was, the
    debugger service included. Without a debugger service it returns
    without any call. *)
Theorem close_clears_exactly_when_it_returns (s : Session') :
  match fst (close World chrome s) with
  | Returned _ =>
      context (snd (close World chrome s))
      = {| config := config (context s); cdp := false; currentTabId := None; tabs := ∅ |}
  | Thrown _ =>
      context (snd (close World chrome s)) = context s /\ cdp (context s) = true
  end
  /\ (cdp (context s) = false ->
      fst (close World chrome s) = Returned tt
      /\ calls (snd (close World chrome s)) = calls s
      /\ outside (snd (close World chrome s)) = outside s).
Proof.
  split; [apply close_context |].
  intros Hcdp. unfold close, bind, read, ret. cbn [fst snd]. rewrite Hcdp.
  rewrite update_context. cbn. repeat split.
Qed.

(** The constructor creates no debugger service, and only [initialize]
    does. On a context fresh from the constructor, [switchToTab] throws a
    [TypeError] before any call; [createNewTab] creates the tab and then
    throws the same [TypeError], leaving the new tab unattached; [close]
    returns without any call. *)
Theorem fresh_context_has_no_debugger (configuration : Config) (w : World)
    (tabId : Z) (url : string) :
  switchToTab World chrome tabId (fresh World configuration w)
  = (Thrown (TypeError "Cannot read properties of null (reading 'detach')"),
     fresh World configuration w)
  /\ (forall tab w',
        tabs_create World chrome url w = (Returned tab, w') ->
        createNewTab World chrome url (fresh World configuration w)
        = (Thrown (TypeError "Cannot read properties of null (reading 'detach')"),
           {| context := constructor configuration; outside := w';
              calls := [TabsCreate url] |}))
  /\ close World chrome (fresh World configuration w)
     = (Returned tt, fresh World configuration w).
Proof.
  split; [reflexivity |]. split; [| reflexivity].
  intros tab w' Hcreate. unfold createNewTab, bind at 1, call at 1. cbn [outside fresh].
  rewrite Hcreate. reflexivity.
Qed.

End Context.

(** From the first tab to the second, on a browser that accepts every
    call. *)
Lemma switchToTab_on_an_accepting_browser :
  BrowserContext.cdp (BrowserContext.context BrowserSamples.on_the_first_tab) = true
  /\ BrowserContext.calls BrowserSamples.on_the_second_tab
     = BrowserContext.calls BrowserSamples.on_the_first_tab
       ++ BrowserContext.Detach
          :: BrowserContext.initialize_calls
               (BrowserContext.context BrowserSamples.on_the_first_tab) 2
          ++ [BrowserContext.TabsUpdate 2]
  /\ BrowserContext.context BrowserSamples.on_the_second_tab
     = {| BrowserContext.config :=
            BrowserContext.config (BrowserContext.context BrowserSamples.on_the_first_tab);
          BrowserContext.cdp := true; BrowserContext.currentTabId := Some 2;
          BrowserContext.tabs :=
            <[2 := {| BrowserContext.tab_url := ""; BrowserContext.tab_title := "" |}]>
              (BrowserContext.tabs
                 (BrowserContext.context BrowserSamples.on_the_first_tab)) |}.
Proof.
  apply (switchToTab_returns_after_the_whole_protocol Z BrowserSamples.accepting_browser 2
           BrowserSamples.on_the_first_tab BrowserSamples.on_the_second_tab).
  - reflexivity.
  - discriminate.
Defined.

(** ** Waiting for network idle *)

Section Idle.
Import NetworkIdle.

Lemma run_app (events1 events2 : list Event) (w : Waiting) :
  run (events1 ++ events2) w = run events2 (run events1 w).
Proof. unfold run. apply fold_left_app. Qed.

Lemma quiet_run (events : list Event) :
  forall w,
    forallb (fun e => negb (is_network_event e)) events = true ->
    timeoutId w = false ->
    timeoutId (run events w) = false
    /\ idlePromise (run events w) = idlePromise w
    /\ timeoutPromise (run events w)
       = (timeoutPromise w || existsb is_maximum_timeout events)%bool.
Proof.
  induction events as [| e events IH]; intros w Hquiet Htimer.
  - cbn. rewrite orb_false_r. auto.
  - cbn [forallb] in Hquiet. apply andb_prop in Hquiet as [He Hquiet].
    change (run (e :: events) w) with (run events (handle e w)).
    destruct e; try discriminate; cbn [handle existsb is_maximum_timeout orb].
    + exact (IH w Hquiet Htimer).
    + rewrite Htimer. exact (IH w Hquiet Htimer).
    + destruct (IH {| pendingRequests := pendingRequests w; timeoutId := timeoutId w;
                      idlePromise := idlePromise w; timeoutPromise := true |}
                  Hquiet Htimer) as (H1 & H2 & H3).
      split; [exact H1 |]. split; [exact H2 |]. rewrite H3. cbn. rewrite orb_true_r.
      reflexivity.
Qed.

(** Only the listeners arm the idle timer. While no request event
    arrives, however long the other events and the timers go on,
    [idlePromise] is not resolved and no idle timer is set: the wait is
    settled by the maximum timeout and by nothing else. *)
Theorem quiet_page_waits_for_the_maximum_timeout (events : list Event) :
  forallb (fun e => negb (is_network_event e)) events = true ->
  idlePromise (run events started) = false
  /\ timeoutId (run events started) = false
  /\ settled (run events started) = existsb is_maximum_timeout events.
Proof.
  intros Hquiet. destruct (quiet_run events started Hquiet eq_refl) as (H1 & H2 & H3).
  unfold settled. rewrite H1, H2, H3. auto.
Qed.

Lemma quiet_page_with_a_load_event :
  idlePromise (run [OtherMethod "Page.loadEventFired"; IdleTimeout] started) = false
  /\ timeoutId (run [OtherMethod "Page.loadEventFired"; IdleTimeout] started) = false
  /\ settled (run [OtherMethod "Page.loadEventFired"; IdleTimeout] started)
     = existsb is_maximum_timeout [OtherMethod "Page.loadEventFired"; IdleTimeout].
Proof.
  apply (quiet_page_waits_for_the_maximum_timeout
           [OtherMethod "Page.loadEventFired"; IdleTimeout]).
  reflexivity.
Defined.

Lemma handle_keeps_pending (requestId : string) (e : Event) (w : Waiting) :
  answers requestId e = false ->
  requestId ∈ pendingRequests w -> idlePromise w = false ->
  requestId ∈ pendingRequests (handle e w) /\ idlePromise (handle e w) = false.
Proof.
  intros Hanswer Hpending Hidle.
  assert (Hsize : forall X : gset string, requestId ∈ X ->
                    bool_decide (size X = 0%nat) = false).
  { intros X HX. apply bool_decide_eq_false. intros Hzero.
    apply size_empty_inv in Hzero. set_solver. }
  destruct e as [id | id | id | method | |]; cbn [handle answers] in *.
  - cbn. split; [set_solver | exact Hidle].
  - apply String.eqb_neq in Hanswer. unfold responseListener. cbn [pendingRequests].
    rewrite Hsize by set_solver. cbn. split; [set_solver | exact Hidle].
  - apply String.eqb_neq in Hanswer. unfold responseListener. cbn [pendingRequests].
    rewrite Hsize by set_solver. cbn. split; [set_solver | exact Hidle].
  - auto.
  - destruct (timeoutId w); [| auto]. cbn. rewrite Hidle, (Hsize _ Hpending). auto.
  - cbn. auto.
Qed.

Lemma run_keeps_pending (requestId : string) (events : list Event) :
  forall w,
    forallb (fun e => negb (answers requestId e)) events = true ->
    requestId ∈ pendingRequests w -> idlePromise w = false ->
    requestId ∈ pendingRequests (run events w) /\ idlePromise (run events w) = false.
Proof.
  induction events as [| e events IH]; intros w Hevents Hpending Hidle; [auto |].
  cbn [forallb] in Hevents. apply andb_prop in Hevents as [He Hevents].
  apply negb_true_iff in He.
  destruct (handle_keeps_pending requestId e w He Hpending Hidle) as [Hpending' Hidle'].
  exact (IH (handle e w) Hevents Hpending' Hidle').
Qed.

(** A request that is sent and never finishes or fails keeps
    [idlePromise] unresolved, whatever else happens after it. *)
Theorem unanswered_request_blocks_idle (requestId : string)
    (before after : list Event) :
  idlePromise (run before started) = false ->
  forallb (fun e => negb (answers requestId e)) after = true ->
  idlePromise (run (before ++ RequestWillBeSent requestId :: after) started) = false
  /\ requestId
     ∈ pendingRequests (run (before ++ RequestWillBeSent requestId :: after) started).
Proof.
  intros Hbefore Hafter. rewrite run_app.
  change (run (RequestWillBeSent requestId :: after) (run before started))
    with (run after (requestListener requestId (run before started))).
  destruct (run_keeps_pending requestId after
              (requestListener requestId (run before started)) Hafter) as [Hin Hidle].
  - cbn. set_solver.
  - exact Hbefore.
  - split; assumption.
Qed.

Lemma hanging_request_blocks_idle :
  idlePromise
    (run ([RequestWillBeSent "1"; LoadingFinished "1"]
          ++ RequestWillBeSent "2" :: [IdleTimeout; RequestWillBeSent "3";
                                       LoadingFailed "3"; IdleTimeout])
       started) = false
  /\ "2" ∈ pendingRequests
             (run ([RequestWillBeSent "1"; LoadingFinished "1"]
                   ++ RequestWillBeSent "2" :: [IdleTimeout; RequestWillBeSent "3";
                                                LoadingFailed "3"; IdleTimeout])
                started).
Proof.
  apply (unanswered_request_blocks_idle "2" [RequestWillBeSent "1"; LoadingFinished "1"]
           [IdleTimeout; RequestWillBeSent "3"; LoadingFailed "3"; IdleTimeout]);
    reflexivity.
Defined.

Lemma idle_resolution (events : list Event) :
  forall w,
    idlePromise w = false ->
    idlePromise (run events w) = true ->
    exists before after,
      events = before ++ IdleTimeout :: after
      /\ size (pendingRequests (run before w)) = 0%nat
      /\ timeoutId (run before w) = true
      /\ idlePromise (run before w) = false.
Proof.
  induction events as [| e events IH]; intros w Hidle Hresolved.
  - cbn in Hresolved. congruence.
  - change (run (e :: events) w) with (run events (handle e w)) in Hresolved.
    destruct (idlePromise (handle e w)) eqn:Hstep.
    + exists [], events.
      destruct e; cbn [handle] in Hstep;
        try (cbn in Hstep; congruence);
        try (unfold responseListener in Hstep;
             destruct (bool_decide _) in Hstep; cbn in Hstep; congruence).
      destruct (timeoutId w) eqn:Htimer; [| congruence].
      cbn in Hstep. rewrite Hidle in Hstep. cbn in Hstep.
      apply bool_decide_eq_true in Hstep. cbn. auto.
    + destruct (IH (handle e w) Hstep Hresolved) as (before & after & -> & H1 & H2 & H3).
      exists (e :: before), after. auto.
Qed.

(** [idlePromise] is resolved by the idle timer only, and only when it
    fires with no request pending: whenever it is resolved, the events
    hold an idle timeout before which a timer was set and, at that
    moment, every request sent had finished or failed. *)
Theorem idle_is_resolved_with_nothing_pending (events : list Event) :
  idlePromise (run events started) = true ->
  exists before after,
    events = before ++ IdleTimeout :: after
    /\ pendingRequests (run before started) = ∅
    /\ timeoutId (run before started) = true
    /\ existsb is_network_event before = true.
Proof.
  intros Hresolved.
  destruct (idle_resolution events started eq_refl Hresolved)
    as (before & after & -> & Hsize & Htimer & _).
  exists before, after. split; [reflexivity |].
  split; [apply size_empty_inv in Hsize; apply leibniz_equiv; exact Hsize |].
  split; [exact Htimer |].
  destruct (existsb is_network_event before) eqn:Hnetwork; [reflexivity |].
  assert (Hquiet : forallb (fun e => negb (is_network_event e)) before = true).
  { clear -Hnetwork. induction before as [| e before IH]; [reflexivity |].
    cbn in *. apply orb_false_elim in Hnetwork as [-> Hrest]. cbn. exact (IH Hrest). }
  destruct (quiet_run before started Hquiet eq_refl) as (Hoff & _). congruence.
Qed.

Lemma idle_after_one_request :
  exists before after,
    [RequestWillBeSent "1"; LoadingFinished "1"; IdleTimeout]
    = before ++ IdleTimeout :: after
    /\ pendingRequests (run before started) = ∅
    /\ timeoutId (run before started) = true
    /\ existsb is_network_event before = true.
Proof.
  apply (idle_is_resolved_with_nothing_pending
           [RequestWillBeSent "1"; LoadingFinished "1"; IdleTimeout]).
  vm_compute. reflexivity.
Defined.

End Idle.

(** ** The singleton wrapper *)

Section OneInstance.
Import Singleton.

Variables World Args Instance : Type.
Variable Class : Args -> M World Instance.

Abbreviation calls' := (calls World Args Instance Class).
Abbreviation Closure' := (Closure World Args Instance).

Lemma calls_with_an_instance (argss : list Args) (s : Closure') (i : Instance) :
  instance s = Some i ->
  calls' argss s = (map (fun _ => Returned i) argss, s).
Proof.
  intros Hi. induction argss as [| args rest IH]; [reflexivity |].
  cbn [calls map]. unfold factory. rewrite Hi, IH. reflexivity.
Qed.

Lemma calls_without_an_instance (argss : list Args) :
  forall s : Closure',
    instance s = None ->
    (instance (snd (calls' argss s)) = None
     /\ constructed (snd (calls' argss s)) = constructed s ++ argss
     /\ Forall (is_thrown Instance) (fst (calls' argss s)))
    \/ exists (k : nat) (failed : list (Outcome Instance)) (i : Instance),
         length failed = k
         /\ Forall (is_thrown Instance) failed
         /\ fst (calls' argss s) = failed ++ map (fun _ => Returned i) (skipn k argss)
         /\ (k < length argss)%nat
         /\ instance (snd (calls' argss s)) = Some i
         /\ constructed (snd (calls' argss s)) = constructed s ++ firstn (S k) argss.
Proof.
  induction argss as [| args rest IH]; intros s Hnone.
  - left. cbn. rewrite app_nil_r. auto.
  - cbn [calls].
    assert (Hfactory :
      factory World Args Instance Class args s
      = match Class args (outside s) with
        | (Returned i, w) =>
            (Returned i,
             {| instance := Some i; outside := w; constructed := constructed s ++ [args] |})
        | (Thrown e, w) =>
            (Thrown e,
             {| instance := None; outside := w; constructed := constructed s ++ [args] |})
        end).
    { unfold factory. rewrite Hnone. reflexivity. }
    rewrite Hfactory. clear Hfactory.
    destruct (Class args (outside s)) as [[i | e] w].
    + right. exists 0%nat, [], i.
      rewrite (calls_with_an_instance rest
                 {| instance := Some i; outside := w;
                    constructed := constructed s ++ [args] |} i eq_refl). cbn.
      repeat split; [constructor | lia].
    + specialize (IH {| instance := None; outside := w;
                        constructed := constructed s ++ [args] |} eq_refl).
      destruct (calls' rest _) as [os s2]. cbn [fst snd constructed] in *.
      destruct IH as [(Hi & Hc & Ht) | (k & failed & i & Hk & Ht & Hr & Hlt & Hi & Hc)].
      * left. rewrite Hc, <- app_assoc. repeat split; [exact Hi | constructor; [exact I | exact Ht]].
      * right. exists (S k), (Thrown e :: failed), i. cbn [length skipn firstn app].
        rewrite Hc, Hr, <- app_assoc.
        repeat split; [congruence | constructor; [exact I | exact Ht] | lia | exact Hi].
Qed.

(** The function that [singleton(Class)] returns hands out one instance:
    over any sequence of calls, the constructor is called with the
    arguments of each call until it returns for the first time and never
    again; the calls before that one throw what the constructor threw,
    and that call and all later calls return the instance it made, their
    arguments unused. *)
Theorem singleton_hands_out_one_instance (argss : list Args) (w : World) :
  (forall i j,
     In (Returned i) (fst (calls' argss (singleton World Args Instance w))) ->
     In (Returned j) (fst (calls' argss (singleton World Args Instance w))) ->
     instance (snd (calls' argss (singleton World Args Instance w))) = Some i /\ i = j)
  /\ (instance (snd (calls' argss (singleton World Args Instance w))) = None ->
      constructed (snd (calls' argss (singleton World Args Instance w))) = argss
      /\ Forall (is_thrown Instance) (fst (calls' argss (singleton World Args Instance w))))
  /\ (forall i,
        instance (snd (calls' argss (singleton World Args Instance w))) = Some i ->
        exists k failed,
          length failed = k
          /\ Forall (is_thrown Instance) failed
          /\ fst (calls' argss (singleton World Args Instance w))
             = failed ++ map (fun _ => Returned i) (skipn k argss)
          /\ constructed (snd (calls' argss (singleton World Args Instance w)))
             = firstn (S k) argss).
Proof.
  destruct (calls_without_an_instance argss (singleton World Args Instance w) eq_refl)
    as [(Hi & Hc & Ht) | (k & failed & i & Hk & Ht & Hr & Hlt & Hi & Hc)].
  - split; [| split].
    + intros i j Hin _. exfalso. rewrite List.Forall_forall in Ht. exact (Ht _ Hin).
    + intros _. split; [exact Hc | exact Ht].
    + intros i Hsome. congruence.
  - assert (Hreturned : forall j,
               In (Returned j) (fst (calls' argss (singleton World Args Instance w))) ->
               j = i).
    { intros j Hin. rewrite Hr in Hin. apply in_app_or in Hin as [Hin | Hin].
      - rewrite List.Forall_forall in Ht. destruct (Ht _ Hin).
      - apply in_map_iff in Hin as (_ & [= ->] & _). reflexivity. }
    split; [| split].
    + intros i1 i2 H1 H2. rewrite (Hreturned _ H1), (Hreturned _ H2). auto.
    + intros Hnone. congruence.
    + intros i' Hsome. assert (i' = i) as -> by congruence.
      exists k, failed. auto.
Qed.

End OneInstance.

(** ** Telemetry in the [finally] block, and the count of a trimmed state message *)

Section Finally.
Import Views Dom MessageManager HistoryOrder Agent AgentRun StepSamples.

(** [_captureTelemetry] throws only what [chrome.storage.local] throws:
    a failure of [fetch] is caught. *)
Lemma _captureTelemetry_throws_from_storage (env : Environment)
    (eventName error : string) (e : JSError) :
  _captureTelemetry env eventName error = Thrown e ->
  storage_get env = Thrown e
  \/ (exists anonymousId,
        storage_get env = Returned anonymousId
        /\ truthy_string anonymousId = false
        /\ storage_set env (uuidv4 env) = Thrown e).
Proof.
  unfold _captureTelemetry.
  destruct (storage_get env) as [anonymousId | e0]; [| intros [= ->]; left; reflexivity].
  destruct (truthy_string anonymousId) eqn:Hid.
  - destruct (fetch env eventName error _); discriminate.
  - destruct (storage_set env (uuidv4 env)) as [[] | e0] eqn:Hset.
    + destruct (fetch env eventName error _); discriminate.
    + intros [= ->]. right. exists anonymousId.
      split; [reflexivity | split; [exact Hid | reflexivity]].
Qed.

(** When the [try] block of a step throws, the handler records the error
    and [_captureTelemetry] then throws, the step throws that error: the
    error result is in [lastResult] and the failure is counted, but no
    item reaches the run history. The error of [_captureTelemetry] is one
    of [chrome.storage.local.get] or [chrome.storage.local.set]; a
    failure of [fetch] is caught inside it. *)
Theorem telemetry_failure_loses_the_history_item (env : Environment)
    (stepInfo : option AgentStepInfo) (this : Agent) (error e : JSError) :
  try_completion env stepInfo this = Thrown error ->
  retrims error = false ->
  _formatError error (debugEnabled env) <> "" ->
  _captureTelemetry env "agent_step_error" (_formatError error (debugEnabled env))
  = Thrown e ->
  fst (step env stepInfo this) = Thrown e
  /\ Agent.history (snd (step env stepInfo this)) = Agent.history this
  /\ lastResult (snd (step env stepInfo this))
     = Some [{| Views.error := Some (_formatError error (debugEnabled env));
                extractedContent := None; includeInMemory := Some true; isDone := None |}]
  /\ consecutiveFailures (snd (step env stepInfo this)) = consecutiveFailures this + 1
  /\ (storage_get env = Thrown e
      \/ (exists anonymousId,
            storage_get env = Returned anonymousId
            /\ truthy_string anonymousId = false
            /\ storage_set env (uuidv4 env) = Thrown e)).
Proof.
  unfold try_completion. intros Htry Hretrim Hmessage Htelemetry.
  pose proof (_captureTelemetry_throws_from_storage _ _ _ _ Htelemetry) as Hstorage.
  pose proof (step_try_keeps_history env stepInfo (this, initial_locals)) as Hhistory.
  pose proof (step_try_resets_counter env stepInfo (this, initial_locals)) as Hcounter.
  unfold step, try_catch.
  destruct (step_try env stepInfo (this, initial_locals)) as [[[] | e0] [this1 locals1]];
    cbn [fst snd] in *; [discriminate |].
  injection Htry as ->.
  unfold step_catch, bind, in_agent. cbn [fst snd].
  rewrite (_handleStepError_without_retrim env error this1 Hretrim).
  unfold set_locals, modify. cbn [fst snd l_result report_errors Views.error].
  unfold bind, external.
  assert (Htruthy : truthy_string (Some (_formatError error (debugEnabled env))) = true).
  { cbn. apply negb_true_iff, String.eqb_neq. exact Hmessage. }
  rewrite Htruthy. cbn [default from_option id]. unfold id. rewrite Htelemetry.
  cbn [fst snd lastResult set_lastResult consecutiveFailures increment_failures
       Agent.history].
  split; [reflexivity |]. split; [exact Hhistory |]. split; [reflexivity |].
  split; [cbn; lia | exact Hstorage].
Qed.

(** A first step with the extension context gone: the state message
    fails, and then [chrome.storage.local.get]. *)
Lemma rejected_step_without_telemetry :
  fst (step offline None (Samples.new_agent 600))
  = Thrown (Error "Extension context invalidated.")
  /\ Agent.history (snd (step offline None (Samples.new_agent 600)))
     = Agent.history (Samples.new_agent 600)
  /\ lastResult (snd (step offline None (Samples.new_agent 600)))
     = Some [{| Views.error :=
                  Some (_formatError (ReferenceError "AgentMessagePrompt is not defined")
                                     (debugEnabled offline));
                extractedContent := None; includeInMemory := Some true; isDone := None |}]
  /\ consecutiveFailures (snd (step offline None (Samples.new_agent 600)))
     = consecutiveFailures (Samples.new_agent 600) + 1
  /\ (storage_get offline = Thrown (Error "Extension context invalidated.")
      \/ (exists anonymousId,
            storage_get offline = Returned anonymousId
            /\ truthy_string anonymousId = false
            /\ storage_set offline (uuidv4 offline)
               = Thrown (Error "Extension context invalidated."))).
Proof.
  apply (telemetry_failure_loses_the_history_item offline None (Samples.new_agent 600)
           (ReferenceError "AgentMessagePrompt is not defined")
           (Error "Extension context invalidated.")).
  - vm_compute. reflexivity.
  - reflexivity.
  - discriminate.
  - reflexivity.
Defined.

(** Over budget with an array-valued newest content, [cutMessages]
    leaves the manager with the images of its newest record dropped. *)
Lemma cutMessages_drops_images (this : MessageManager) (init : list ManagedMessage)
    (lastMsg : ManagedMessage) (items : list ContentPart) :
  messages (MessageManager.history this) = init ++ [lastMsg] ->
  content (message lastMsg) = Parts items ->
  MessageManager.maxInputTokens this < totalTokens (MessageManager.history this) ->
  snd (cutMessages this)
  = MessageManager.set_history
      {| messages := init ++ [without_images (IMG_TOKENS this) lastMsg];
         totalTokens := totalTokens (MessageManager.history this) - IMG_TOKENS this * image_items items |}
      this.
Proof.
  intros Hmessages Hcontent Hover. unfold cutMessages.
  destruct (Z.leb_spec (totalTokens (MessageManager.history this) - MessageManager.maxInputTokens this) 0);
    [lia |].
  rewrite Hmessages at 1. rewrite last_snoc, Hcontent, drop_images_items.
  rewrite Hmessages, set_last_snoc, <- (without_images_parts _ _ _ Hcontent).
  cbv beta iota zeta.
  destruct (_ <=? 0); [reflexivity |].
  destruct (proportion_exceeds _ _); [reflexivity |].
  unfold bind. rewrite _removeMessage_default_throws. reflexivity.
Qed.

(** Trimming a history that is over budget and ends in a state message
    with a screenshot drops the screenshot and keeps the accounts exact:
    the newest record becomes the record that [_addMessageWithTokens]
    would make for the text alone, and the total goes down by
    [IMG_TOKENS]. *)
Theorem dropped_screenshot_keeps_the_count (this : MessageManager)
    (init : list ManagedMessage) (text screenshot : string) :
  messages (MessageManager.history this) = init ++ [record_of this (state_message text screenshot)] ->
  MessageManager.maxInputTokens this < totalTokens (MessageManager.history this) ->
  messages (MessageManager.history (snd (cutMessages this)))
  = init ++ [record_of (snd (cutMessages this)) {| role := user; content := Text text |}]
  /\ totalTokens (MessageManager.history (snd (cutMessages this)))
     = totalTokens (MessageManager.history this) - IMG_TOKENS this
  /\ _countTokens this (state_message text screenshot)
     = _countTokens this {| role := user; content := Text text |} + IMG_TOKENS this.
Proof.
  intros Hmessages Hover.
  rewrite (cutMessages_drops_images this init _ _ Hmessages eq_refl Hover).
  cbn [MessageManager.history messages totalTokens MessageManager.set_history].
  split; [| split].
  - f_equal. unfold record_of, without_images, state_message, _countTokens. cbn.
    change ("" +:+ text) with text.
    change (_countTextTokens (MessageManager.set_history _ this) text)
      with (_countTextTokens this text).
    replace (0 + _countTextTokens this text + IMG_TOKENS this - IMG_TOKENS this)
      with (0 + _countTextTokens this text) by lia.
    reflexivity.
  - cbn. lia.
  - unfold _countTokens. cbn. lia.
Qed.

Lemma screenshot_of_the_sample_manager_is_dropped :
  messages (MessageManager.history (snd (cutMessages Samples.screenshot_manager)))
  = firstn 2 (messages (MessageManager.history Samples.screenshot_manager))
    ++ [record_of (snd (cutMessages Samples.screenshot_manager))
          {| role := user; content := Text screenshot_text |}]
  /\ totalTokens (MessageManager.history (snd (cutMessages Samples.screenshot_manager)))
     = totalTokens (MessageManager.history Samples.screenshot_manager)
       - IMG_TOKENS Samples.screenshot_manager
  /\ _countTokens Samples.screenshot_manager (state_message screenshot_text "iVBORw0KGgo=")
     = _countTokens Samples.screenshot_manager
         {| role := user; content := Text screenshot_text |}
       + IMG_TOKENS Samples.screenshot_manager.
Proof.
  apply (dropped_screenshot_keeps_the_count Samples.screenshot_manager
           (firstn 2 (messages (MessageManager.history Samples.screenshot_manager)))
           screenshot_text "iVBORw0KGgo=").
  - vm_compute. reflexivity.
  - vm_compute. reflexivity.
Defined.

End Finally.
